(** * Karel worlds: a shallow embedding of [karel/_karel.py] and [karel/_color.py]

    Python integers are [Z]; lists are [list] with Python's indexing rules
    written out; the exceptions the source raises are values of [exn]; a
    method of [World] is a computation over the world it mutates that keeps
    the world when it raises, as an exception in Python rolls nothing back. *)

From Stdlib Require Import ZArith Lia Ascii String.
From stdpp Require Import base option list strings.

Local Open Scope string_scope.
Local Open Scope list_scope.
Local Open Scope Z_scope.

(** ** Exceptions and the two monads *)

(** The exception classes the source raises, each with its message; what
    an f-string of the source interpolates stays as its placeholder. *)
Inductive exn : Type :=
  | ValueError (msg : string)
  | IndexError (msg : string)
  | TypeError (msg : string).

(** The longer messages. *)
Definition negative_coordinate : string :=
  "Avenue and street must both be non-negative (avenue={avenue}, street={street})".
Definition karel_out_of_bounds : string :=
  "Karel would be out of bounds (his position = {self.karel.position}, new size = {new})".
Definition invalid_karel_position : string :=
  "Invalid Karel position (position={karel.position}, size={self.size})".

Inductive result (A : Type) : Type :=
  | Ok (a : A)
  | Raise (e : exn).
Arguments Ok {A} a.
Arguments Raise {A} e.

#[global] Instance result_ret : MRet result := fun _ a => Ok a.
#[global] Instance result_bind : MBind result := fun _ _ f r =>
  match r with Ok a => f a | Raise e => Raise e end.
#[global] Instance result_fmap : FMap result := fun _ _ f r =>
  match r with Ok a => Ok (f a) | Raise e => Raise e end.

(** A [for] loop whose body may raise: the first exception stops it. *)
Fixpoint for_each {A B} (f : A → result B) (l : list A) : result (list B) :=
  match l with
  | [] => Ok []
  | x :: l' => y ← f x; ys ← for_each f l'; Ok (y :: ys)
  end.

(** ** Python list primitives *)

Definition len {A} (l : list A) : Z := Z.of_nat (length l).

(** [l[i]]: a negative index counts from the end, anything else outside
    the list raises [IndexError]. *)
Definition py_getitem {A} (l : list A) (i : Z) : result A :=
  let k := if i <? 0 then i + len l else i in
  if (k <? 0) || (len l <=? k) then Raise (IndexError "list index out of range")
  else match l !! Z.to_nat k with
       | Some x => Ok x
       | None => Raise (IndexError "list index out of range")
       end.

(** [l[i] = x]. *)
Definition py_setitem {A} (l : list A) (i : Z) (x : A) : result (list A) :=
  let k := if i <? 0 then i + len l else i in
  if (k <? 0) || (len l <=? k)
  then Raise (IndexError "list assignment index out of range")
  else Ok (<[Z.to_nat k := x]> l).

(** [[x] * n] and [(x for _ in range(n))]: empty for [n <= 0]. *)
Definition py_repeat {A} (x : A) (n : Z) : list A := replicate (Z.to_nat n) x.

(** [del l[:n]] for [0 <= n]. *)
Definition py_del_prefix {A} (n : Z) (l : list A) : list A := drop (Z.to_nat n) l.

(** [del l[-n:]] for [0 < n]: the slice starts at [max 0 (len l - n)]. *)
Definition py_del_suffix {A} (n : Z) (l : list A) : list A :=
  take (Z.to_nat (Z.max 0 (len l - n))) l.

(** ** [Direction] *)

Inductive Direction : Type := north | south | east | west.

#[global] Instance Direction_eq_dec : EqDecision Direction.
Proof. solve_decision. Defined.

Module Direction.
Definition turned_left (self : Direction) : Direction :=
  match self with
  | north => west
  | south => east
  | east => north
  | west => south
  end.

Definition turned_right (self : Direction) : Direction :=
  match self with
  | north => east
  | south => west
  | east => south
  | west => north
  end.

Definition turned_around (self : Direction) : Direction :=
  match self with
  | north => south
  | south => north
  | east => west
  | west => east
  end.
End Direction.

(** ** [AvenueAndStreet] *)

Record AvenueAndStreet : Type := MkAvenueAndStreet { avenue : Z; street : Z }.

#[global] Instance AvenueAndStreet_eq_dec : EqDecision AvenueAndStreet.
Proof. solve_decision. Defined.

Module AvenueAndStreet.
(** [__new__]: the only way the source builds a position. *)
Definition new (avenue street : Z) : result AvenueAndStreet :=
  if (avenue <? 0) || (street <? 0)
  then Raise (ValueError negative_coordinate)
  else Ok (MkAvenueAndStreet avenue street).

Definition with_avenue (self : AvenueAndStreet) (avenue : Z) :=
  new avenue (street self).

Definition with_street (self : AvenueAndStreet) (street : Z) :=
  new (avenue self) street.

Definition moved (self : AvenueAndStreet) (direction : Direction)
  : result AvenueAndStreet :=
  match direction with
  | north => with_street self (street self + 1)
  | south => with_street self (street self - 1)
  | east => with_avenue self (avenue self + 1)
  | west => with_avenue self (avenue self - 1)
  end.

(** [self] is a size; only the upper bounds are tested. *)
Definition _in_bounds (self position : AvenueAndStreet) : bool :=
  (avenue position <? avenue self) && (street position <? street self).

(** What [__new__] guarantees of every position it returns. *)
Definition valid (p : AvenueAndStreet) : Prop := 0 ≤ avenue p ∧ 0 ≤ street p.
End AvenueAndStreet.

(** ** [Karel]: a position and a direction *)

Record Karel : Type := MkKarel { position : AvenueAndStreet; direction : Direction }.

Module Karel.
Definition facing_north (self : Karel) : bool := bool_decide (direction self = north).
Definition facing_south (self : Karel) : bool := bool_decide (direction self = south).
Definition facing_east (self : Karel) : bool := bool_decide (direction self = east).
Definition facing_west (self : Karel) : bool := bool_decide (direction self = west).

Definition moved_to (self : Karel) (position : AvenueAndStreet) : Karel :=
  MkKarel position (direction self).

Definition moved (self : Karel) : result Karel :=
  p ← AvenueAndStreet.moved (position self) (direction self);
  Ok (moved_to self p).

Definition turned (self : Karel) (direction : Direction) : Karel :=
  MkKarel (position self) direction.

Definition turned_left (self : Karel) : Karel :=
  turned self (Direction.turned_left (direction self)).
Definition turned_right (self : Karel) : Karel :=
  turned self (Direction.turned_right (direction self)).
Definition turned_around (self : Karel) : Karel :=
  turned self (Direction.turned_around (direction self)).
End Karel.

(** The default robot, [Karel(AvenueAndStreet(0, 0))], facing east. *)
Definition default_karel : Karel := MkKarel (MkAvenueAndStreet 0 0) east.

(** ** [RGB] and [RGB.from_str] *)

Record RGB : Type := MkRGB { r : Z; g : Z; b : Z }.

#[global] Instance RGB_eq_dec : EqDecision RGB.
Proof. solve_decision. Defined.

(** An argument annotated [str | RGB]. *)
Inductive str_or_RGB : Type :=
  | Str (s : string)
  | Rgb (c : RGB).

(** The table [color] at its initial contents. *)
Definition color : list (string * RGB) :=
  [ ("red", MkRGB 255 0 0); ("green", MkRGB 0 255 0); ("blue", MkRGB 0 0 255);
    ("yellow", MkRGB 255 255 0); ("cyan", MkRGB 0 255 255);
    ("orange", MkRGB 255 165 0); ("white", MkRGB 255 255 255);
    ("black", MkRGB 0 0 0); ("gray", MkRGB 204 204 204);
    ("purple", MkRGB 155 48 255) ].

Fixpoint dict_get {V} (d : list (string * V)) (k : string) : option V :=
  match d with
  | [] => None
  | (k', v) :: d' => if String.eqb k' k then Some v else dict_get d' k
  end.

(** [str.lower] on ASCII text. *)
Definition ascii_lower (a : ascii) : ascii :=
  let n := Ascii.N_of_ascii a in
  if ((65 <=? n) && (n <=? 90))%N then Ascii.ascii_of_N (n + 32) else a.

Fixpoint lower (s : string) : string :=
  match s with
  | EmptyString => EmptyString
  | String a s' => String (ascii_lower a) (lower s')
  end.

(** The value of a character of ["0123456789abcdefABCDEF"]. *)
Definition hex_value (a : ascii) : option Z :=
  let n := Z.of_N (Ascii.N_of_ascii a) in
  if (48 <=? n) && (n <=? 57) then Some (n - 48)
  else if (97 <=? n) && (n <=? 102) then Some (n - 87)
  else if (65 <=? n) && (n <=? 70) then Some (n - 55)
  else None.

Module RGB.
Definition new (r g b : Z) : result RGB :=
  if (0 <=? r) && (r <=? 255) && (0 <=? g) && (g <=? 255)
     && (0 <=? b) && (b <=? 255)
  then Ok (MkRGB r g b)
  else Raise (ValueError "Color values not in range 0-255").

(** The two [#] cases of [match list(c)]: [Some] of the channel values
    handed to [RGB(...)], [None] when neither case applies. *)
Definition hex_channels (c : string) : option (Z * Z * Z) :=
  match c with
  | String "#"%char (String r (String g (String b EmptyString))) =>
      match hex_value r, hex_value g, hex_value b with
      | Some r, Some g, Some b => Some (16 * r + r, 16 * g + g, 16 * b + b)
      | _, _, _ => None
      end
  | String "#"%char (String r1 (String r2 (String g1 (String g2
      (String b1 (String b2 EmptyString)))))) =>
      match hex_value r1, hex_value r2, hex_value g1, hex_value g2,
            hex_value b1, hex_value b2 with
      | Some r1, Some r2, Some g1, Some g2, Some b1, Some b2 =>
          Some (16 * r1 + r2, 16 * g1 + g2, 16 * b1 + b2)
      | _, _, _, _, _, _ => None
      end
  | _ => None
  end.

Section FromStr.
(** [ast.parse] is Python's own parser, not code of this package: its
    outcome on the lowered text is a parameter.  [rgb_call c] is
    [Some (r, g, b)] when [ast.parse(c, mode="eval")] is a call of the
    name [rgb] on three constants supporting [__index__], positional or
    as the keywords [r], [g], [b] in that order, and [None] when the
    pattern does not match or the parser raises [SyntaxError]. *)
Variable rgb_call : string → option (Z * Z * Z).

Definition from_str (c : str_or_RGB) : result RGB :=
  match c with
  | Rgb c => Ok c
  | Str c =>
      let c := lower c in
      match dict_get color c with
      | Some v => Ok v
      | None =>
          match hex_channels c with
          | Some (r, g, b) => new r g b
          | None =>
              match rgb_call c with
              | Some (r, g, b) => new r g b
              | None => Raise (ValueError "{c!r} is not a valid color string")
              end
          end
      end
  end.
End FromStr.
End RGB.

Definition white : RGB := MkRGB 255 255 255.

(** ** 2-D array helpers *)

Fixpoint _2d_arr_size_loop (lengths : list Z) (jsize : option Z)
  : result (option Z) :=
  match lengths with
  | [] => Ok jsize
  | length :: lengths' =>
      match jsize with
      | None => _2d_arr_size_loop lengths' (Some length)
      | Some j =>
          if negb (j =? length) then Raise (ValueError "{arr!r} is not a valid 2D array")
          else _2d_arr_size_loop lengths' jsize
      end
  end.

Definition _2d_arr_size {A} (arr : list (list A)) : result (Z * option Z) :=
  jsize ← _2d_arr_size_loop (len <$> arr) None;
  Ok (len arr, jsize).

Definition _ensure_size {A} (arr : list (list A)) (isize jsize : Z)
    (name : string) : result unit :=
  let arr_isize := len arr in
  if negb (arr_isize =? isize)
  then Raise (ValueError ("Expected {isize} elements in " +:+ name
                     +:+ ", found {arr_isize}"))
  else
    for_each (λ length,
        if negb (length =? jsize)
        then Raise (ValueError ("Expected {jsize} elements in " +:+ name
                           +:+ "[{idx}], found {length}"))
        else Ok ())
      (len <$> arr);;
    Ok ().

(** [g[i][j]] and [g[i][j] = x]; the rows of a grid are distinct list
    objects everywhere the source builds one, so writing a row changes
    that row only. *)
Definition grid_getitem {A} (g : list (list A)) (i j : Z) : result A :=
  row ← py_getitem g i; py_getitem row j.

Definition grid_setitem {A} (g : list (list A)) (i j : Z) (x : A)
  : result (list (list A)) :=
  row ← py_getitem g i; row' ← py_setitem row j x; py_setitem g i row'.

(** ** [World] *)

Record World : Type := MkWorld {
  _karel : Karel;
  _ball_counts : list (list Z);
  _horizontal_walls : list (list bool);
  _vertical_walls : list (list bool);
  _colors : list (list RGB)
}.

Definition with_karel (k : Karel) (w : World) : World :=
  MkWorld k (_ball_counts w) (_horizontal_walls w) (_vertical_walls w) (_colors w).
Definition with_ball_counts (f : list (list Z) → list (list Z)) (w : World) :=
  MkWorld (_karel w) (f (_ball_counts w)) (_horizontal_walls w)
    (_vertical_walls w) (_colors w).
Definition with_horizontal_walls (f : list (list bool) → list (list bool))
    (w : World) :=
  MkWorld (_karel w) (_ball_counts w) (f (_horizontal_walls w))
    (_vertical_walls w) (_colors w).
Definition with_vertical_walls (f : list (list bool) → list (list bool))
    (w : World) :=
  MkWorld (_karel w) (_ball_counts w) (_horizontal_walls w)
    (f (_vertical_walls w)) (_colors w).
Definition with_colors (f : list (list RGB) → list (list RGB)) (w : World) :=
  MkWorld (_karel w) (_ball_counts w) (_horizontal_walls w)
    (_vertical_walls w) (f (_colors w)).

(** A method of [World]: it returns or raises, and leaves a world behind
    either way. *)
Definition M (A : Type) : Type := World → result A * World.

#[global] Instance M_ret : MRet M := λ _ a w, (Ok a, w).
#[global] Instance M_bind : MBind M := λ _ _ f m w,
  match m w with
  | (Ok a, w') => f a w'
  | (Raise e, w') => (Raise e, w')
  end.

Definition raise {A} (e : exn) : M A := λ w, (Raise e, w).
Definition lift {A} (x : result A) : M A := λ w, (x, w).
Definition read {A} (f : World → A) : M A := λ w, (Ok (f w), w).
Definition assign (f : World → World) : M unit := λ w, (Ok (), f w).

(** Python's truth value of what [is_blocked] returns. *)
Definition truthy (x : option bool) : bool := default false x.

Module World.
(** *** Size, robot, storage index *)

(** The [size] property: recomputed from [_ball_counts] at every use. *)
Definition size : M AvenueAndStreet :=
  bc ← read _ball_counts;
  row ← lift (py_getitem bc 0);
  lift (AvenueAndStreet.new (len row) (len bc)).

Definition karel : M Karel := read _karel.

(** The [size] setter, one definition per [if] block of its body; every
    block reads [self.size] afresh, as the source does. *)
Definition drop_north_rows (new : AvenueAndStreet) : M unit :=
  sz ← size;
  if street new <? street sz then
    sz ← size;
    let to_delete := street sz - street new in
    assign (with_ball_counts (py_del_prefix to_delete));;
    assign (with_horizontal_walls (py_del_prefix to_delete));;
    assign (with_vertical_walls (py_del_prefix to_delete));;
    assign (with_colors (py_del_prefix to_delete))
  else mret ().

Definition add_north_rows (new : AvenueAndStreet) : M unit :=
  sz ← size;
  if street new >? street sz then
    sz ← size;
    let to_add := street new - street sz in
    sz ← size;
    assign (with_ball_counts
              (λ l, py_repeat (py_repeat 0 (avenue sz)) to_add ++ l));;
    sz ← size;
    assign (with_horizontal_walls
              (λ l, py_repeat (py_repeat false (avenue sz)) to_add ++ l));;
    sz ← size;
    assign (with_vertical_walls
              (λ l, py_repeat (py_repeat false (avenue sz - 1)) to_add ++ l));;
    sz ← size;
    assign (with_colors
              (λ l, py_repeat (py_repeat white (avenue sz)) to_add ++ l))
  else mret ().

Definition drop_east_columns (new : AvenueAndStreet) : M unit :=
  sz ← size;
  if avenue new <? avenue sz then
    sz ← size;
    let to_delete := avenue sz - avenue new in
    assign (with_ball_counts (fmap (py_del_suffix to_delete)));;
    assign (with_horizontal_walls (fmap (py_del_suffix to_delete)));;
    assign (with_vertical_walls (fmap (py_del_suffix to_delete)));;
    assign (with_colors (fmap (py_del_suffix to_delete)))
  else mret ().

Definition add_east_columns (new : AvenueAndStreet) : M unit :=
  sz ← size;
  if avenue new >? avenue sz then
    sz ← size;
    let to_add := avenue new - avenue sz in
    assign (with_ball_counts (fmap (λ i, i ++ py_repeat 0 to_add)));;
    assign (with_horizontal_walls (fmap (λ i, i ++ py_repeat false to_add)));;
    assign (with_vertical_walls (fmap (λ i, i ++ py_repeat false to_add)));;
    assign (with_colors (fmap (λ i, i ++ py_repeat white to_add)))
  else mret ().

Definition set_size (new : AvenueAndStreet) : M unit :=
  if (street new =? 0) || (avenue new =? 0)
  then raise (ValueError "New size cannot have 0 as a dimension (new size = {new})")
  else
    k ← karel;
    if negb (AvenueAndStreet._in_bounds new (position k))
    then raise (ValueError karel_out_of_bounds)
    else
      drop_north_rows new;;
      add_north_rows new;;
      drop_east_columns new;;
      add_east_columns new.

Definition _list_index (position : AvenueAndStreet) : M (Z * Z) :=
  sz ← size;
  mret (street sz - street position - 1, avenue position).

(** The [karel] setter. *)
Definition set_karel (new : Karel) : M unit :=
  let position := position new in
  sz ← size;
  if negb (AvenueAndStreet._in_bounds sz position)
  then raise (ValueError "Karel's new position ({position}) out of range (size={self.size})")
  else assign (with_karel new).

(** [if position is None: position = self.karel.position]. *)
Definition position_or_karel (given : option AvenueAndStreet)
  : M AvenueAndStreet :=
  match given with
  | None => k ← karel; mret (position k)
  | Some p => mret p
  end.

Definition direction_or_karel (given : option Direction) : M Direction :=
  match given with
  | None => k ← karel; mret (direction k)
  | Some d => mret d
  end.

(** *** Grid attribute setters that take no parser *)

Definition set_ball_counts (new : option (list (list Z))) : M unit :=
  match new with
  | None =>
      sz ← size;
      assign (with_ball_counts
                (λ _, py_repeat (py_repeat 0 (street sz)) (avenue sz)))
  | Some new =>
      '(isize, jsize) ← lift (_2d_arr_size new);
      match jsize with
      | Some jsize =>
          if (isize =? 0) || (jsize =? 0)
          then raise (ValueError "{new!r} is an empty 2D array")
          else
            sz ← lift (AvenueAndStreet.new jsize isize);
            set_size sz;;
            assign (with_ball_counts (λ _, new))
      | None => raise (ValueError "{new!r} is an empty 2D array")
      end
  end.

Definition set_horizontal_walls (new : option (list (list bool))) : M unit :=
  match new with
  | None =>
      sz ← size;
      assign (with_horizontal_walls
                (λ _, py_repeat (py_repeat false (street sz)) (avenue sz - 1)))
  | Some new =>
      '(isize, jsize) ← lift (_2d_arr_size new);
      jsize ← match jsize with
               | Some jsize =>
                   if isize =? 0 then sz ← size; mret (avenue sz)
                   else mret jsize
               | None => sz ← size; mret (avenue sz)
               end;
      sz ← lift (AvenueAndStreet.new jsize (isize + 1));
      set_size sz;;
      assign (with_horizontal_walls (λ _, new))
  end.

Definition set_vertical_walls (new : option (list (list bool))) : M unit :=
  match new with
  | None =>
      sz ← size;
      assign (with_vertical_walls
                (λ _, py_repeat (py_repeat false (street sz - 1)) (avenue sz)))
  | Some new =>
      '(isize, jsize) ← lift (_2d_arr_size new);
      match jsize with
      | Some jsize =>
          if isize =? 0
          then raise (ValueError "{new!r} is an invalid empty 2D array for vertical walls")
          else
            sz ← lift (AvenueAndStreet.new (jsize + 1) isize);
            set_size sz;;
            assign (with_vertical_walls (λ _, new))
      | None => raise (ValueError "{new!r} is an invalid empty 2D array for vertical walls")
      end
  end.

Definition move_karel (position : AvenueAndStreet) : M unit :=
  k ← karel; set_karel (MkKarel position (direction k)).

Definition rotate_karel (direction : Direction) : M unit :=
  k ← karel; set_karel (MkKarel (position k) direction).

(** *** Cell queries and mutations *)

Definition ball_count (position : option AvenueAndStreet) : M Z :=
  position ← position_or_karel position;
  sz ← size;
  if negb (AvenueAndStreet._in_bounds sz position)
  then raise (IndexError "Position to query ({position}) out of range")
  else
    '(i, j) ← _list_index position;
    bc ← read _ball_counts;
    lift (grid_getitem bc i j).

Definition set_ball_count (new : Z) (position : option AvenueAndStreet)
  : M unit :=
  position ← position_or_karel position;
  sz ← size;
  if negb (AvenueAndStreet._in_bounds sz position)
  then raise (IndexError "Position to set ({position}) out of range")
  else if new <? 0
  then raise (ValueError "Tried to put {new} balls at {position}")
  else
    '(i, j) ← _list_index position;
    bc ← read _ball_counts;
    bc' ← lift (grid_setitem bc i j new);
    assign (with_ball_counts (λ _, bc')).

Definition color_at (position : option AvenueAndStreet) : M RGB :=
  position ← position_or_karel position;
  sz ← size;
  if negb (AvenueAndStreet._in_bounds sz position)
  then raise (IndexError "Position to query ({position}) out of range")
  else
    '(i, j) ← _list_index position;
    cs ← read _colors;
    lift (grid_getitem cs i j).

(** [_helpers.typefilt(new, RGB)] on an argument that may be text. *)
Definition typefilt_RGB (new : str_or_RGB) : result RGB :=
  match new with
  | Rgb c => Ok c
  | Str _ => Raise (TypeError "{o!r} must be a RGB")
  end.

Definition paint (new : str_or_RGB) (position : option AvenueAndStreet)
  : M unit :=
  position ← position_or_karel position;
  sz ← size;
  if negb (AvenueAndStreet._in_bounds sz position)
  then raise (IndexError "Position to set ({position}) out of range")
  else
    '(i, j) ← _list_index position;
    c ← lift (typefilt_RGB new);
    cs ← read _colors;
    cs' ← lift (grid_setitem cs i j c);
    assign (with_colors (λ _, cs')).

(** [0 <= k < bound], the bound being read only when [0 <= k]. *)
Definition chained_range (k : Z) (bound : M Z) : M bool :=
  if 0 <=? k then n ← bound; mret (k <? n) else mret false.

(** [None] stands for falling off the end of the function. *)
Definition is_blocked (position : option AvenueAndStreet)
    (direction : option Direction) : M (option bool) :=
  position ← position_or_karel position;
  direction ← direction_or_karel direction;
  sz ← size;
  if negb (AvenueAndStreet._in_bounds sz position)
  then raise (IndexError "Position to query ({position}) out of range")
  else
    '(i, j) ← _list_index position;
    let '(i, direction) :=
      if bool_decide (direction = north) then (i - 1, south)
      else (i, direction) in
    if bool_decide (direction = south) then
      inside ← chained_range i (sz ← size; mret (street sz - 1));
      if negb inside then mret (Some true)
      else
        hw ← read _horizontal_walls;
        x ← lift (grid_getitem hw i j);
        mret (Some x)
    else
      let '(j, direction) :=
        if bool_decide (direction = west) then (j - 1, east)
        else (j, direction) in
      if bool_decide (direction = east) then
        inside ← chained_range j (sz ← size; mret (avenue sz - 1));
        if negb inside then mret (Some true)
        else
          vw ← read _vertical_walls;
          x ← lift (grid_getitem vw i j);
          mret (Some x)
      else mret None.

Definition is_clear (position : option AvenueAndStreet)
    (direction : option Direction) : M bool :=
  x ← is_blocked position direction;
  mret (negb (truthy x)).

Definition set_is_blocked (wall : bool) (position : option AvenueAndStreet)
    (direction : option Direction) : M unit :=
  position ← position_or_karel position;
  direction ← direction_or_karel direction;
  sz ← size;
  if negb (AvenueAndStreet._in_bounds sz position)
  then raise (IndexError "Position to set ({position}) out of range")
  else
    '(i, j) ← _list_index position;
    let '(i, direction) :=
      if bool_decide (direction = north) then (i - 1, south)
      else (i, direction) in
    (if bool_decide (direction = south) then
       inside ← chained_range i (sz ← size; mret (street sz - 1));
       if negb inside then raise (IndexError "Position to set ({position}) out of range")
       else
         hw ← read _horizontal_walls;
         hw' ← lift (grid_setitem hw i j wall);
         assign (with_horizontal_walls (λ _, hw'))
     else mret ());;
    let '(j, direction) :=
      if bool_decide (direction = west) then (j - 1, east)
      else (j, direction) in
    if bool_decide (direction = east) then
      inside ← chained_range j (sz ← size; mret (avenue sz - 1));
      if negb inside then raise (IndexError "Position to set ({position}) out of range")
      else
        vw ← read _vertical_walls;
        vw' ← lift (grid_setitem vw i j wall);
        assign (with_vertical_walls (λ _, vw'))
    else mret ().

Definition set_is_clear (wall : bool) (position : option AvenueAndStreet)
    (direction : option Direction) : M unit :=
  set_is_blocked (negb wall) position direction.

(** *** Robot commands and derived queries *)

Definition turn_left : M unit := k ← karel; set_karel (Karel.turned_left k).
Definition turn_right : M unit := k ← karel; set_karel (Karel.turned_right k).
Definition turn_around : M unit := k ← karel; set_karel (Karel.turned_around k).

Definition put_ball (position : option AvenueAndStreet) : M unit :=
  position ← position_or_karel position;
  n ← ball_count (Some position);
  set_ball_count (n + 1) (Some position).

Definition take_ball (position : option AvenueAndStreet) : M unit :=
  position ← position_or_karel position;
  n ← ball_count (Some position);
  set_ball_count (n - 1) (Some position).

Definition balls_present (position : option AvenueAndStreet) : M bool :=
  position ← position_or_karel position;
  n ← ball_count (Some position);
  mret (negb (n =? 0)).

Definition no_balls_present (position : option AvenueAndStreet) : M bool :=
  x ← balls_present position; mret (negb x).

Definition front_is_clear : M bool := is_clear None None.
Definition left_is_clear : M bool :=
  k ← karel; is_clear None (Some (Direction.turned_left (direction k))).
Definition right_is_clear : M bool :=
  k ← karel; is_clear None (Some (Direction.turned_right (direction k))).

Definition front_is_blocked : M (option bool) := is_blocked None None.
Definition left_is_blocked : M (option bool) :=
  k ← karel; is_blocked None (Some (Direction.turned_left (direction k))).
Definition right_is_blocked : M (option bool) :=
  k ← karel; is_blocked None (Some (Direction.turned_right (direction k))).

Definition move : M unit :=
  blocked ← front_is_blocked;
  if truthy blocked
  then raise (ValueError "Tried to move Karel ({self.karel}) into a wall")
  else
    k ← karel;
    k' ← lift (Karel.moved k);
    set_karel k'.

Definition facing_north : M bool := k ← karel; mret (Karel.facing_north k).
Definition facing_south : M bool := k ← karel; mret (Karel.facing_south k).
Definition facing_east : M bool := k ← karel; mret (Karel.facing_east k).
Definition facing_west : M bool := k ← karel; mret (Karel.facing_west k).

Definition not_facing_north : M bool := x ← facing_north; mret (negb x).
Definition not_facing_south : M bool := x ← facing_south; mret (negb x).
Definition not_facing_east : M bool := x ← facing_east; mret (negb x).
Definition not_facing_west : M bool := x ← facing_west; mret (negb x).

(** *** The operations that read colour text *)

Section WithParser.
Variable rgb_call : string → option (Z * Z * Z).

(** [World(karel=..., ball_counts=..., horizontal_walls=...,
    vertical_walls=..., colors=...)].  The second and third
    [_ensure_size] calls are given [self._horizontal_walls], as in the
    source. *)
Definition __init__ (karel : Karel) (ball_counts : list (list Z))
    (horizontal_walls vertical_walls : option (list (list bool)))
    (colors : option (list (list str_or_RGB))) : result World :=
  '(isize, jsize) ← _2d_arr_size ball_counts;
  match jsize with
  | None => Raise (ValueError "{ball_counts!r} is an empty 2D array")
  | Some jsize =>
      if (isize =? 0) || (jsize =? 0)
      then Raise (ValueError "{ball_counts!r} is an empty 2D array")
      else
        let horizontal_walls :=
          default (py_repeat (py_repeat false jsize) (isize - 1))
            horizontal_walls in
        _ensure_size horizontal_walls (isize - 1) jsize "horizontal_walls";;
        let vertical_walls :=
          default (py_repeat (py_repeat false (jsize - 1)) isize)
            vertical_walls in
        _ensure_size horizontal_walls isize (jsize - 1) "vertical_walls";;
        let colors :=
          default (py_repeat (py_repeat (Str "white") jsize) isize) colors in
        colors ← for_each (for_each (RGB.from_str rgb_call)) colors;
        _ensure_size horizontal_walls isize jsize "colors";;
        let self :=
          MkWorld karel ball_counts horizontal_walls vertical_walls colors in
        sz ← fst (size self);
        if negb (AvenueAndStreet._in_bounds sz (position karel))
        then Raise (ValueError invalid_karel_position)
        else Ok self
  end.

Definition empty_world_with_size (size : AvenueAndStreet) (karel : Karel)
  : result World :=
  __init__ karel (py_repeat (py_repeat 0 (avenue size)) (street size))
    None None None.

Definition copy : M World := λ self,
  (__init__ (_karel self) (_ball_counts self)
     (Some (_horizontal_walls self)) (Some (_vertical_walls self))
     (Some (fmap (M:=list) Rgb <$> _colors self)),
   self).

Definition set_colors (new : option (list (list str_or_RGB))) : M unit :=
  match new with
  | None =>
      sz ← size;
      assign (with_colors
                (λ _, py_repeat (py_repeat white (street sz)) (avenue sz)))
  | Some new =>
      new ← lift (for_each (for_each (RGB.from_str rgb_call)) new);
      '(isize, jsize) ← lift (_2d_arr_size new);
      match jsize with
      | Some jsize =>
          if (isize =? 0) || (jsize =? 0)
          then raise (ValueError "{new!r} is an empty 2D array")
          else
            sz ← lift (AvenueAndStreet.new jsize isize);
            set_size sz;;
            assign (with_colors (λ _, new))
      | None => raise (ValueError "{new!r} is an empty 2D array")
      end
  end.

Definition color_is (color : str_or_RGB) : M bool :=
  here ← color_at None;
  asked ← lift (RGB.from_str rgb_call color);
  mret (bool_decide (here = asked)).
End WithParser.

(** *** The command table of a tier *)

(** What a name of the table is bound to: a method of this world, or the
    module's [color] table. *)
Inductive global_value : Type :=
  | Bound_method (attr : string)
  | Color_table.

(** [d[k] = v] on a [dict]: a present key keeps its place. *)
Fixpoint dict_set {V} (d : list (string * V)) (k : string) (v : V)
  : list (string * V) :=
  match d with
  | [] => [(k, v)]
  | (k', v') :: d' =>
      if String.eqb k' k then (k, v) :: d' else (k', v') :: dict_set d' k v
  end.

Definition dict_update {V} (d : list (string * V)) (kvs : list (string * V))
  : list (string * V) :=
  foldl (λ d kv, dict_set d kv.1 kv.2) d kvs.

Definition bind_methods (attrs : list string) : list (string * global_value) :=
  (λ a, (a, Bound_method a)) <$> attrs.

Definition globals (mode : string) : M (list (string * global_value)) :=
  if negb (String.eqb mode "normal" || String.eqb mode "super"
           || String.eqb mode "ultra")
  then raise (ValueError "{mode!r} is not a valid mode")
  else
    let result :=
      bind_methods
        [ "move"; "turn_left"; "put_ball"; "take_ball"; "balls_present";
          "no_balls_present"; "front_is_clear"; "left_is_clear";
          "right_is_clear"; "front_is_blocked"; "left_is_blocked";
          "right_is_blocked"; "facing_north"; "facing_south"; "facing_east";
          "facing_west"; "not_facing_north"; "not_facing_south";
          "not_facing_east"; "not_facing_west" ] in
    let result :=
      if String.eqb mode "super" || String.eqb mode "ultra"
      then dict_update result (bind_methods ["turn_right"; "turn_around"])
      else result in
    let result :=
      if String.eqb mode "ultra"
      then dict_update result
             [ ("color", Color_table); ("paint", Bound_method "paint");
               ("color_is", Bound_method "color_is") ]
      else result in
    mret result.
End World.

(** ** The invariants of a [World] *)

(** [g] has [rows] rows of [cols] entries each. *)
Definition has_shape {A} (rows cols : Z) (g : list (list A)) : bool :=
  (len g =? rows) && forallb (λ row, len row =? cols) g.

(** Number of storage rows, and of entries in the first row of
    [_ball_counts]: what the [size] property reads. *)
Definition rows (w : World) : Z := len (_ball_counts w).
Definition cols (w : World) : Z := len (default [] (head (_ball_counts w))).

(** The four invariants: the grids agree on a shape taken from
    [_ball_counts], the wall grids being one shorter along their axis; no
    ball count is negative; the robot stands inside; no dimension is 0. *)
Definition invariant (w : World) : bool :=
  (1 <=? rows w) && (1 <=? cols w)
  && has_shape (rows w) (cols w) (_ball_counts w)
  && has_shape (rows w - 1) (cols w) (_horizontal_walls w)
  && has_shape (rows w) (cols w - 1) (_vertical_walls w)
  && has_shape (rows w) (cols w) (_colors w)
  && forallb (forallb (λ n, 0 <=? n)) (_ball_counts w)
  && (0 <=? avenue (position (_karel w)))
  && (avenue (position (_karel w)) <? cols w)
  && (0 <=? street (position (_karel w)))
  && (street (position (_karel w)) <? rows w).

Definition wf (w : World) : Prop := invariant w = true.

(** [p] is a position of the world: built by [AvenueAndStreet] and inside
    the size. *)
Definition inside (w : World) (p : AvenueAndStreet) : Prop :=
  0 ≤ avenue p < cols w ∧ 0 ≤ street p < rows w.

(** Stepping from [p] towards [d] leaves a world of size [sz]: the
    neighbour cannot be built, or is out of bounds. *)
Definition leaves (sz p : AvenueAndStreet) (d : Direction) : bool :=
  match AvenueAndStreet.moved p d with
  | Ok q => negb (AvenueAndStreet._in_bounds sz q)
  | Raise _ => true
  end.

(** A parser outcome for texts that are not [rgb(...)] calls at all. *)
Definition no_rgb_call : string → option (Z * Z * Z) := λ _, None.

(** ** Worlds used as examples *)

Definition world_1x1 : World :=
  MkWorld default_karel [[1]] [] [[]] [[white]].

Definition world_2x1 : World :=
  MkWorld (MkKarel (MkAvenueAndStreet 1 0) east)
    [[0; 0]] [] [[false]] [[white; white]].

Definition world_2x2 : World :=
  MkWorld default_karel [[0; 0]; [0; 0]] [[false; false]] [[false]; [false]]
    [[white; white]; [white; white]].

(** Three avenues, two streets, a wall north of (1,0) and one east of
    (0,1), balls and paint here and there, the robot at (1,0) facing
    north. *)
Definition world_3x2 : World :=
  MkWorld (MkKarel (MkAvenueAndStreet 1 0) north)
    [[0; 2; 0]; [1; 0; 3]]
    [[false; true; false]]
    [[true; false]; [false; false]]
    [[white; MkRGB 255 0 0; white]; [white; white; MkRGB 0 0 255]].

(** The twenty names the "normal" tier is specified to expose. *)
Definition normal_tier_names : list string :=
  [ "move"; "turn_left"; "put_ball"; "take_ball"; "balls_present";
    "no_balls_present"; "front_is_clear"; "left_is_clear"; "right_is_clear";
    "front_is_blocked"; "left_is_blocked"; "right_is_blocked";
    "facing_north"; "facing_south"; "facing_east"; "facing_west";
    "not_facing_north"; "not_facing_south"; "not_facing_east";
    "not_facing_west" ].

Definition super_tier_names : list string :=
  normal_tier_names ++ ["turn_right"; "turn_around"].

Definition ultra_tier_names : list string :=
  super_tier_names ++ ["color"; "paint"; "color_is"].

(** ** Stored cells, shapes and the resized grids *)

(** The entry of storage row [i], column [j], both counted from 0. *)
Definition stored {A} (g : list (list A)) (i j : Z) : option A :=
  row ← g !! Z.to_nat i; row !! Z.to_nat j.

Definition shape {A} (rows cols : Z) (g : list (list A)) : Prop :=
  len g = rows ∧ Forall (λ row, len row = cols) g.

(** The four grids of a world of [R] streets and [C] avenues. *)
Definition grids_shape (R C : Z) (w : World) : Prop :=
  shape R C (_ball_counts w) ∧ shape (R - 1) C (_horizontal_walls w)
  ∧ shape R (C - 1) (_vertical_walls w) ∧ shape R C (_colors w).

(** What the four blocks of the [size] setter do to one grid whose rows
    are [width] long when the number of rows changes by [dr] and the
    number of columns by [dc]. *)
Definition resize_rows {A} (fill : A) (dr width : Z) (g : list (list A))
  : list (list A) :=
  if dr <? 0 then py_del_prefix (- dr) g
  else if 0 <? dr then py_repeat (py_repeat fill width) dr ++ g
  else g.

Definition resize_cols {A} (fill : A) (dc : Z) (g : list (list A))
  : list (list A) :=
  if dc <? 0 then py_del_suffix (- dc) <$> g
  else if 0 <? dc then (λ i, i ++ py_repeat fill dc) <$> g
  else g.

Definition resize_grid {A} (fill : A) (dr dc width : Z) (g : list (list A))
  : list (list A) :=
  resize_cols fill dc (resize_rows fill dr width g).

Definition resized (new : AvenueAndStreet) (w : World) : World :=
  let dr := street new - rows w in
  let dc := avenue new - cols w in
  MkWorld (_karel w)
    (resize_grid 0 dr dc (cols w) (_ball_counts w))
    (resize_grid false dr dc (cols w) (_horizontal_walls w))
    (resize_grid false dr dc (cols w - 1) (_vertical_walls w))
    (resize_grid white dr dc (cols w) (_colors w)).

(** A world with each grid rewritten. *)
Definition on_grids (fz : list (list Z) → list (list Z))
    (fh fv : list (list bool) → list (list bool))
    (fc : list (list RGB) → list (list RGB)) (w : World) : World :=
  MkWorld (_karel w) (fz (_ball_counts w)) (fh (_horizontal_walls w))
    (fv (_vertical_walls w)) (fc (_colors w)).

(** The wall an edge of the world is stored in, read without the method
    protocol: the answer of [is_blocked] at a position inside. *)
Definition blocked (w : World) (p : AvenueAndStreet) (d : Direction) : bool :=
  let i := rows w - street p - 1 in
  let j := avenue p in
  match d with
  | north =>
      if (0 <=? i - 1) && (i - 1 <? rows w - 1)
      then default true (stored (_horizontal_walls w) (i - 1) j) else true
  | south =>
      if (0 <=? i) && (i <? rows w - 1)
      then default true (stored (_horizontal_walls w) i j) else true
  | west =>
      if (0 <=? j - 1) && (j - 1 <? cols w - 1)
      then default true (stored (_vertical_walls w) i (j - 1)) else true
  | east =>
      if (0 <=? j) && (j <? cols w - 1)
      then default true (stored (_vertical_walls w) i j) else true
  end.

(** The size a well-formed world reports. *)
Definition size_of (w : World) : AvenueAndStreet :=
  MkAvenueAndStreet (cols w) (rows w).

(** Everything a write to one ball count has to leave alone: the robot,
    both wall grids, the colours and the size. *)
Definition same_but_ball_counts (w w' : World) : Prop :=
  _karel w' = _karel w
  ∧ _horizontal_walls w' = _horizontal_walls w
  ∧ _vertical_walls w' = _vertical_walls w
  ∧ _colors w' = _colors w
  ∧ fst (World.size w') = fst (World.size w).

(** ** Colour text: hexadecimal digits and [RGB.__str__] *)



(** The lower-case digit of a value below 16. *)
Definition hex_digit (n : Z) : ascii :=
  if n <? 10 then Ascii.ascii_of_N (Z.to_N (48 + n))
  else Ascii.ascii_of_N (Z.to_N (87 + n)).

(** The digits of [format(n, "x")] for [0 <= n], most significant first;
    [fuel] bounds the number of digits. *)
Fixpoint hex_digits (fuel : nat) (n : Z) : string :=
  match fuel with
  | O => EmptyString
  | S fuel' =>
      if n <? 16 then String (hex_digit n) EmptyString
      else hex_digits fuel' (n / 16) +:+ String (hex_digit (n mod 16)) EmptyString
  end.

(** [format(n, "x")]: a minus sign, then the digits of the magnitude. *)
Definition format_x (n : Z) : string :=
  if n <? 0 then String "-"%char (hex_digits (S (Z.to_nat (- n))) (- n))
  else hex_digits (S (Z.to_nat n)) n.

(** [format(n, "0>2x")]: right-aligned in a field of two, filled with
    zeros. *)
Definition format_02x (n : Z) : string :=
  let s := format_x n in
  String.concat "" (replicate (2 - String.length s)%nat "0") +:+ s.

(** [RGB.__str__]: [f"#{self.r:0>2x}{self.g:0>2x}{self.b:0>2x}"]. *)
Definition __str__ (self : RGB) : string :=
  "#" +:+ format_02x (r self) +:+ format_02x (g self) +:+ format_02x (b self).

(** A colour value as [RGB.__new__] leaves it: every channel in 0..255. *)
Definition valid_rgb (c : RGB) : Prop :=
  0 ≤ r c ≤ 255 ∧ 0 ≤ g c ≤ 255 ∧ 0 ≤ b c ≤ 255.

(** The storage cell behind the edge that leaves [p] towards [d]: a row
    and a column of [_horizontal_walls] for north and south, of
    [_vertical_walls] for east and west. *)
Definition edge_cell (w : World) (p : AvenueAndStreet) (d : Direction) : Z * Z :=
  match d with
  | north => (rows w - street p - 1 - 1, avenue p)
  | south => (rows w - street p - 1, avenue p)
  | east => (rows w - street p - 1, avenue p)
  | west => (rows w - street p - 1, avenue p - 1)
  end.

Definition horizontal (d : Direction) : bool :=
  match d with north | south => true | east | west => false end.

(** * Properties *)

(** ** Running a method *)

Lemma bind_Ok {A B} (m : M A) (f : A → M B) w a w' :
  m w = (Ok a, w') → (m ≫= f) w = f a w'.
Proof. intros H. unfold mbind, M_bind. by rewrite H. Qed.

Lemma bind_Raise {A B} (m : M A) (f : A → M B) w e w' :
  m w = (Raise e, w') → (m ≫= f) w = (Raise e, w').
Proof. intros H. unfold mbind, M_bind. by rewrite H. Qed.

Lemma bind_assoc {A B C} (m : M A) (f : A → M B) (g : B → M C) w :
  ((m ≫= f) ≫= g) w = (m ≫= λ a, f a ≫= g) w.
Proof. unfold mbind, M_bind. by destruct (m w) as [[a|e] w']. Qed.

Lemma bind_raise {A B} (e : exn) (f : A → M B) w :
  (raise e ≫= f) w = (Raise e, w).
Proof. reflexivity. Qed.

Lemma bind_ret {A B} (a : A) (f : A → M B) w : (mret a ≫= f) w = f a w.
Proof. reflexivity. Qed.

Lemma bind_read {A B} (g : World → A) (f : A → M B) w :
  (read g ≫= f) w = f (g w) w.
Proof. reflexivity. Qed.

Lemma bind_lift_Ok {A B} (x : result A) (f : A → M B) w a :
  x = Ok a → (lift x ≫= f) w = f a w.
Proof. by intros ->. Qed.

Lemma bind_assign {B} (g : World → World) (f : unit → M B) w :
  (assign g ≫= f) w = f () (g w).
Proof. reflexivity. Qed.

(** ** Directions *)

Lemma turned_left_right d :
  Direction.turned_right (Direction.turned_left d) = d.
Proof. by destruct d. Qed.

Lemma turned_around_involutive d :
  Direction.turned_around (Direction.turned_around d) = d.
Proof. by destruct d. Qed.

Lemma turned_left_twice d :
  Direction.turned_left (Direction.turned_left d) = Direction.turned_around d.
Proof. by destruct d. Qed.

(** ** Positions *)

Lemma new_valid a s :
  0 ≤ a → 0 ≤ s → AvenueAndStreet.new a s = Ok (MkAvenueAndStreet a s).
Proof.
  intros Ha Hs. unfold AvenueAndStreet.new.
  destruct (Z.ltb_spec a 0), (Z.ltb_spec s 0); simpl; done || lia.
Qed.

Lemma new_Ok_valid a s p :
  AvenueAndStreet.new a s = Ok p →
  p = MkAvenueAndStreet a s ∧ AvenueAndStreet.valid p.
Proof.
  unfold AvenueAndStreet.new, AvenueAndStreet.valid.
  destruct (Z.ltb_spec a 0), (Z.ltb_spec s 0); simpl; try done.
  intros [= <-]. simpl. split; [done | lia].
Qed.

(** [moved], case by case. *)
Lemma moved_cases (p : AvenueAndStreet) (d : Direction) :
  AvenueAndStreet.valid p →
  AvenueAndStreet.moved p d =
    match d with
    | north => Ok (MkAvenueAndStreet (avenue p) (street p + 1))
    | east => Ok (MkAvenueAndStreet (avenue p + 1) (street p))
    | south =>
        if street p =? 0
        then Raise (ValueError negative_coordinate)
        else Ok (MkAvenueAndStreet (avenue p) (street p - 1))
    | west =>
        if avenue p =? 0
        then Raise (ValueError negative_coordinate)
        else Ok (MkAvenueAndStreet (avenue p - 1) (street p))
    end.
Proof.
  intros [Ha Hs].
  destruct d; unfold AvenueAndStreet.moved, AvenueAndStreet.with_street,
    AvenueAndStreet.with_avenue.
  - apply new_valid; lia.
  - destruct (Z.eqb_spec (street p) 0) as [E|E].
    + unfold AvenueAndStreet.new. rewrite E.
      by destruct (avenue p <? 0).
    + apply new_valid; lia.
  - apply new_valid; lia.
  - destruct (Z.eqb_spec (avenue p) 0) as [E|E].
    + unfold AvenueAndStreet.new. by rewrite E.
    + apply new_valid; lia.
Qed.

(** C3, as the code has it: [moved] steps by exactly one along the axis of
    the direction, through the validating constructor; a step to the north
    or east always returns, a step to the south from street 0 or to the
    west from avenue 0 raises [ValueError] instead of returning a position
    with a negative coordinate. *)
Theorem moved_steps_by_one_or_rejects (p : AvenueAndStreet) (d : Direction) :
  AvenueAndStreet.valid p →
  AvenueAndStreet.moved p d =
    match d with
    | north => Ok (MkAvenueAndStreet (avenue p) (street p + 1))
    | east => Ok (MkAvenueAndStreet (avenue p + 1) (street p))
    | south =>
        if street p =? 0
        then Raise (ValueError negative_coordinate)
        else Ok (MkAvenueAndStreet (avenue p) (street p - 1))
    | west =>
        if avenue p =? 0
        then Raise (ValueError negative_coordinate)
        else Ok (MkAvenueAndStreet (avenue p - 1) (street p))
    end.
Proof. apply moved_cases. Qed.

Lemma moved_steps_by_one_or_rejects_witness :
  AvenueAndStreet.valid (MkAvenueAndStreet 2 3) ∧
  AvenueAndStreet.moved (MkAvenueAndStreet 2 3) west =
    Ok (MkAvenueAndStreet 1 3).
Proof.
  split.
  - unfold AvenueAndStreet.valid. simpl. lia.
  - apply (moved_steps_by_one_or_rejects (MkAvenueAndStreet 2 3) west).
    unfold AvenueAndStreet.valid. simpl. lia.
Defined.

(** C3 as stated fails south of the origin: no position with street -1 is
    returned, the constructor raises. *)
Lemma moved_south_of_origin_raises :
  AvenueAndStreet.moved (MkAvenueAndStreet 0 0) south =
    Raise (ValueError negative_coordinate)
  ∧ AvenueAndStreet.moved (MkAvenueAndStreet 0 0) south ≠
    Ok (MkAvenueAndStreet 0 (-1)).
Proof. split; [reflexivity | discriminate]. Qed.

(** ** The command table *)

Lemma globals_unknown_mode (mode : string) (w : World) :
  mode ≠ "normal" → mode ≠ "super" → mode ≠ "ultra" →
  World.globals mode w = (Raise (ValueError "{mode!r} is not a valid mode"), w).
Proof.
  intros Hn Hs Hu. unfold World.globals.
  apply String.eqb_neq in Hn, Hs, Hu. by rewrite Hn, Hs, Hu.
Qed.

(** C8: the table of "normal" binds the twenty listed names, each to the
    method of that name; "super" adds [turn_right] and [turn_around];
    "ultra" adds the [color] table, [paint] and [color_is]; no name occurs
    twice, so the three sets of names are strictly nested; the world is not
    touched; any other tier name raises [ValueError]. *)
Theorem globals_tiers (w : World) :
  World.globals "normal" w = (Ok (World.bind_methods normal_tier_names), w)
  ∧ World.globals "super" w = (Ok (World.bind_methods super_tier_names), w)
  ∧ World.globals "ultra" w =
      (Ok (World.bind_methods super_tier_names
           ++ [ ("color", World.Color_table);
                ("paint", World.Bound_method "paint");
                ("color_is", World.Bound_method "color_is") ]), w)
  ∧ (World.bind_methods normal_tier_names).*1 = normal_tier_names
  ∧ (World.bind_methods super_tier_names).*1 = super_tier_names
  ∧ (World.bind_methods super_tier_names
     ++ [ ("color", World.Color_table);
          ("paint", World.Bound_method "paint");
          ("color_is", World.Bound_method "color_is") ]).*1 = ultra_tier_names
  ∧ length normal_tier_names = 20%nat
  ∧ NoDup ultra_tier_names
  ∧ normal_tier_names ⊆ super_tier_names
  ∧ ¬ super_tier_names ⊆ normal_tier_names
  ∧ super_tier_names ⊆ ultra_tier_names
  ∧ ¬ ultra_tier_names ⊆ super_tier_names
  ∧ (∀ mode : string,
       mode ≠ "normal" → mode ≠ "super" → mode ≠ "ultra" →
       World.globals mode w = (Raise (ValueError "{mode!r} is not a valid mode"), w)).
Proof.
  split_and!; try reflexivity.
  - refine (bool_decide_unpack _ _). vm_compute. exact I.
  - unfold super_tier_names. intros x Hx. apply elem_of_app. by left.
  - intros Hsub.
    assert (H : "turn_right" ∈ normal_tier_names).
    { apply Hsub. unfold super_tier_names. apply elem_of_app. right. left. }
    revert H. refine (proj1 (bool_decide_eq_false _) _). vm_compute. reflexivity.
  - unfold ultra_tier_names. intros x Hx. apply elem_of_app. by left.
  - intros Hsub.
    assert (H : "paint" ∈ super_tier_names).
    { apply Hsub. unfold ultra_tier_names. apply elem_of_app. right.
      right. left. }
    revert H. refine (proj1 (bool_decide_eq_false _) _). vm_compute. reflexivity.
  - intros mode. apply globals_unknown_mode.
Qed.

Lemma globals_tiers_witness :
  World.globals "mega" world_1x1 =
    (Raise (ValueError "{mode!r} is not a valid mode"), world_1x1).
Proof.
  apply (globals_tiers world_1x1); discriminate.
Defined.

(** ** Construction *)

Lemma _ensure_size_Ok_len {A} (arr : list (list A)) isize jsize name u :
  _ensure_size arr isize jsize name = Ok u → len arr = isize.
Proof.
  unfold _ensure_size. destruct (Z.eqb_spec (len arr) isize); [done|].
  simpl. discriminate.
Qed.

Lemma _ensure_size_wrong_len {A} (arr : list (list A)) isize jsize name :
  len arr ≠ isize →
  _ensure_size arr isize jsize name =
    Raise (ValueError ("Expected {isize} elements in " +:+ name
                     +:+ ", found {arr_isize}")).
Proof.
  intros H. unfold _ensure_size.
  by destruct (Z.eqb_spec (len arr) isize).
Qed.

(** No call of the constructor returns: when the check of
    [horizontal_walls] passes, that grid has one row fewer than the check
    labelled "vertical_walls" then asks of it. *)
Lemma init_never_returns rgb_call karel ball_counts horizontal_walls
    vertical_walls colors :
  ∃ e, World.__init__ rgb_call karel ball_counts horizontal_walls
         vertical_walls colors = Raise e.
Proof.
  unfold World.__init__.
  destruct (_2d_arr_size ball_counts) as [[isize [jsize|]]|e]; simpl; eauto.
  destruct ((isize =? 0) || (jsize =? 0)); eauto.
  set (hw := default _ horizontal_walls).
  destruct (_ensure_size hw (isize - 1) jsize "horizontal_walls") as [u|e] eqn:E1;
    simpl; eauto.
  apply _ensure_size_Ok_len in E1.
  rewrite (_ensure_size_wrong_len hw isize (jsize - 1)) by lia. simpl. eauto.
Qed.

(** C1, at the smallest input the claim says is accepted: a 1-by-1 grid of
    ball counts with every default.  The constructor raises. *)
Theorem init_rejects_minimal_world (rgb_call : string → option (Z * Z * Z)) :
  World.__init__ rgb_call default_karel [[0]] None None None =
    Raise (ValueError "Expected {isize} elements in vertical_walls, found {arr_isize}").
Proof. reflexivity. Qed.

(** A negative ball count is not what the constructor objects to: the same
    failure as for the valid grid is reported, and with matching wall grids
    passed explicitly too. *)
Lemma init_negative_count_not_checked rgb_call :
  World.__init__ rgb_call default_karel [[-1]] (Some []) (Some [[]]) None =
    World.__init__ rgb_call default_karel [[0]] (Some []) (Some [[]]) None.
Proof. reflexivity. Qed.

(** ** Assigning the grid attributes *)

(** C2 at a 2-by-1 world with the robot on its east cell: assigning [None]
    to [ball_counts] stores a grid of [size.avenue] rows of [size.street]
    entries, so the size becomes 1 by 2, the robot is outside and the other
    grids no longer fit; assigning a grid with a negative entry stores
    it. *)
Theorem set_ball_counts_breaks_invariant :
  invariant world_2x1 = true
  ∧ World.set_ball_counts None world_2x1 =
      (Ok (), with_ball_counts (λ _, [[0]; [0]]) world_2x1)
  ∧ invariant (with_ball_counts (λ _, [[0]; [0]]) world_2x1) = false
  ∧ World.set_ball_counts (Some [[-1; 0]]) world_2x1 =
      (Ok (), with_ball_counts (λ _, [[-1; 0]]) world_2x1)
  ∧ invariant (with_ball_counts (λ _, [[-1; 0]]) world_2x1) = false.
Proof. split_and!; reflexivity. Qed.

(** The three other attributes transpose their default in the same way. *)
Lemma set_None_transposes rgb_call :
  World.set_horizontal_walls None world_3x2 =
    (Ok (), with_horizontal_walls (λ _, [[false; false]; [false; false]])
              world_3x2)
  ∧ World.set_vertical_walls None world_3x2 =
    (Ok (), with_vertical_walls (λ _, [[false]; [false]; [false]]) world_3x2)
  ∧ World.set_colors rgb_call None world_3x2 =
    (Ok (), with_colors (λ _, [[white; white]; [white; white]; [white; white]])
              world_3x2)
  ∧ invariant world_3x2 = true
  ∧ invariant (snd (World.set_horizontal_walls None world_3x2)) = false
  ∧ invariant (snd (World.set_vertical_walls None world_3x2)) = false
  ∧ invariant (snd (World.set_colors rgb_call None world_3x2)) = false.
Proof. split_and!; reflexivity. Qed.

(** ** Lists and grids *)

Lemma py_getitem_nonneg {A} (l : list A) (i : Z) :
  0 ≤ i →
  py_getitem l i =
    from_option Ok (Raise (IndexError "list index out of range"))
      (l !! Z.to_nat i).
Proof.
  intros Hi. unfold py_getitem, len.
  pose proof (proj2 (Z.ltb_ge i 0) Hi) as E. cbv zeta. rewrite !E. simpl.
  destruct (Z.leb_spec (Z.of_nat (length l)) i) as [Hge|Hlt]; simpl.
  - rewrite lookup_ge_None_2 by lia. done.
  - by destruct (l !! Z.to_nat i).
Qed.

Lemma py_setitem_in_range {A} (l : list A) (i : Z) (x : A) :
  0 ≤ i < len l → py_setitem l i x = Ok (<[Z.to_nat i := x]> l).
Proof.
  intros [Hi Hlt]. unfold py_setitem.
  pose proof (proj2 (Z.ltb_ge i 0) Hi) as E. cbv zeta. rewrite !E. simpl.
  by destruct (Z.leb_spec (len l) i); [lia|].
Qed.

Lemma grid_getitem_nonneg {A} (g : list (list A)) (i j : Z) :
  0 ≤ i → 0 ≤ j →
  grid_getitem g i j =
    from_option Ok (Raise (IndexError "list index out of range"))
      (stored g i j).
Proof.
  intros Hi Hj. unfold grid_getitem, stored.
  rewrite py_getitem_nonneg by done.
  destruct (g !! Z.to_nat i) as [row|]; simpl; [|done].
  by rewrite py_getitem_nonneg.
Qed.

Lemma has_shape_spec {A} (R C : Z) (g : list (list A)) :
  has_shape R C g = true ↔ shape R C g.
Proof.
  unfold has_shape, shape. rewrite andb_true_iff, Z.eqb_eq, forallb_forall.
  rewrite Forall_forall. setoid_rewrite Z.eqb_eq.
  setoid_rewrite list_elem_of_In. done.
Qed.

Lemma shape_lookup {A} (R C : Z) (g : list (list A)) (i : Z) :
  shape R C g → 0 ≤ i < R →
  ∃ row, g !! Z.to_nat i = Some row ∧ len row = C.
Proof.
  intros [Hlen Hrows] Hi. unfold len in *.
  destruct (lookup_lt_is_Some_2 g (Z.to_nat i)) as [row Hrow]; [lia|].
  exists row. split; [done|].
  eapply (Forall_lookup_1 _ _ _ _ Hrows Hrow).
Qed.

Lemma stored_in_shape {A} (R C : Z) (g : list (list A)) (i j : Z) :
  shape R C g → 0 ≤ i < R → 0 ≤ j < C → is_Some (stored g i j).
Proof.
  intros Hg Hi Hj. destruct (shape_lookup R C g i Hg Hi) as (row & Hrow & Hlen).
  unfold stored. rewrite Hrow. simpl.
  apply lookup_lt_is_Some_2. unfold len in *. lia.
Qed.

Lemma grid_setitem_in_shape {A} (R C : Z) (g : list (list A)) (i j : Z) (x : A) :
  shape R C g → 0 ≤ i < R → 0 ≤ j < C →
  ∃ g', grid_setitem g i j x = Ok g' ∧ shape R C g'
    ∧ stored g' i j = Some x
    ∧ (∀ i' j', 0 ≤ i' → 0 ≤ j' → (i', j') ≠ (i, j) →
         stored g' i' j' = stored g i' j')
    ∧ (∀ P : A → Prop, Forall (Forall P) g → P x → Forall (Forall P) g').
Proof.
  intros Hg Hi Hj. destruct (shape_lookup R C g i Hg Hi) as (row & Hrow & Hlen).
  destruct Hg as [HR Hrows]. unfold len in *.
  exists (<[Z.to_nat i := <[Z.to_nat j := x]> row]> g). split_and!.
  - unfold grid_setitem. rewrite py_getitem_nonneg, Hrow by lia. simpl.
    rewrite py_setitem_in_range by (unfold len; lia). simpl.
    by rewrite py_setitem_in_range by (unfold len; lia).
  - split; unfold len.
    + by rewrite length_insert.
    + apply Forall_insert; [done|]. unfold len. by rewrite length_insert.
  - unfold stored. rewrite list_lookup_insert_eq by lia. simpl.
    apply list_lookup_insert_eq. lia.
  - intros i' j' Hi' Hj' Hne. unfold stored.
    destruct (decide (i' = i)) as [->|Hi''].
    + rewrite list_lookup_insert_eq, Hrow by lia. simpl.
      apply list_lookup_insert_ne. intros E. apply Hne. f_equal. lia.
    + rewrite list_lookup_insert_ne by lia. done.
  - intros P HP Hx. apply Forall_insert; [done|].
    apply Forall_insert; [|done].
    eapply (Forall_lookup_1 _ _ _ _ HP Hrow).
Qed.

(** ** Well-formed worlds *)

Lemma wf_unfold w :
  wf w ↔
  1 ≤ rows w ∧ 1 ≤ cols w ∧ grids_shape (rows w) (cols w) w
  ∧ Forall (Forall (λ n, 0 ≤ n)) (_ball_counts w)
  ∧ inside w (position (_karel w)).
Proof.
  unfold wf, invariant, grids_shape, inside.
  rewrite !andb_true_iff, !has_shape_spec, !Z.leb_le, !Z.ltb_lt.
  rewrite forallb_forall, Forall_forall.
  setoid_rewrite forallb_forall. setoid_rewrite Forall_forall.
  setoid_rewrite Z.leb_le. setoid_rewrite list_elem_of_In.
  tauto.
Qed.

Lemma rows_cols_of_shape w R C :
  shape R C (_ball_counts w) → 1 ≤ R → rows w = R ∧ cols w = C.
Proof.
  intros [HR Hrows] H1. unfold rows, cols. split; [done|].
  destruct (_ball_counts w) as [|row rest]; simpl in *.
  - unfold len in HR. simpl in HR. lia.
  - by apply Forall_cons in Hrows as [? _].
Qed.

Lemma size_run w : 1 ≤ rows w → World.size w = (Ok (size_of w), w).
Proof.
  intros H1. unfold World.size, size_of, rows, cols in *.
  rewrite bind_read.
  destruct (_ball_counts w) as [|row rest]; [unfold len in H1; simpl in H1; lia|].
  erewrite bind_lift_Ok by reflexivity. simpl.
  unfold lift. rewrite new_valid; [done | unfold len; lia..].
Qed.

Lemma in_bounds_size_of w p :
  AvenueAndStreet._in_bounds (size_of w) p = true ↔
  avenue p < cols w ∧ street p < rows w.
Proof.
  unfold AvenueAndStreet._in_bounds, size_of. simpl.
  by rewrite andb_true_iff, !Z.ltb_lt.
Qed.

Lemma in_bounds_inside w p :
  inside w p → AvenueAndStreet._in_bounds (size_of w) p = true.
Proof. intros [? ?]. apply in_bounds_size_of. lia. Qed.

Lemma wf_rows w : wf w → 1 ≤ rows w.
Proof. rewrite wf_unfold. tauto. Qed.

Lemma wf_inside_karel w : wf w → inside w (position (_karel w)).
Proof. rewrite wf_unfold. tauto. Qed.

Create HintDb karel.
#[local] Hint Resolve wf_rows wf_inside_karel in_bounds_inside size_run : karel.

(** Reading [self.size] in a world with at least one row. *)
Ltac run_size :=
  lazymatch goal with
  | |- context [ (World.size ≫= ?f) ?w ] =>
      rewrite (bind_Ok World.size f w (size_of w) w)
        by (apply size_run; eauto with karel)
  end.

Lemma list_index_run w p :
  1 ≤ rows w →
  World._list_index p w = (Ok (rows w - street p - 1, avenue p), w).
Proof. intros H. unfold World._list_index. by run_size. Qed.

#[local] Hint Resolve list_index_run : karel.

(** One step of a method: a value, a field read, a field write, or a call
    whose outcome the hints know. *)
Ltac run :=
  repeat first
    [ rewrite bind_assoc
    | rewrite bind_raise
    | rewrite bind_ret
    | rewrite bind_read
    | rewrite bind_assign
    | erewrite bind_Ok by (eauto with karel)
    | progress cbv beta iota zeta ].

Lemma position_or_karel_run w given :
  World.position_or_karel given w =
    (Ok (default (position (_karel w)) given), w).
Proof. by destruct given. Qed.

Lemma direction_or_karel_run w given :
  World.direction_or_karel given w =
    (Ok (default (direction (_karel w)) given), w).
Proof. by destruct given. Qed.

#[local] Hint Resolve position_or_karel_run direction_or_karel_run : karel.

Lemma ball_count_run w p :
  wf w → inside w p →
  World.ball_count (Some p) w =
    (from_option Ok (Raise (IndexError "list index out of range"))
       (stored (_ball_counts w) (rows w - street p - 1) (avenue p)), w).
Proof.
  intros Hwf Hin. unfold World.ball_count. run.
  simpl. rewrite in_bounds_inside by done. simpl. run.
  unfold lift. rewrite grid_getitem_nonneg; [done | destruct Hin; lia..].
Qed.

Lemma color_at_run w p :
  wf w → inside w p →
  World.color_at (Some p) w =
    (from_option Ok (Raise (IndexError "list index out of range"))
       (stored (_colors w) (rows w - street p - 1) (avenue p)), w).
Proof.
  intros Hwf Hin. unfold World.color_at. run.
  simpl. rewrite in_bounds_inside by done. simpl. run.
  unfold lift. rewrite grid_getitem_nonneg; [done | destruct Hin; lia..].
Qed.

Lemma wf_with_ball_counts w bc :
  wf w → shape (rows w) (cols w) bc → Forall (Forall (λ n, 0 ≤ n)) bc →
  wf (with_ball_counts (λ _, bc) w)
  ∧ rows (with_ball_counts (λ _, bc) w) = rows w
  ∧ cols (with_ball_counts (λ _, bc) w) = cols w.
Proof.
  intros Hwf Hbc Hnn. pose proof Hwf as Hwf0.
  apply wf_unfold in Hwf as (HR & HC & (_ & Hhw & Hvw & Hcs) & _ & Hk).
  destruct (rows_cols_of_shape (with_ball_counts (λ _, bc) w) _ _ Hbc HR)
    as [ER EC].
  split; [|done]. apply wf_unfold. unfold grids_shape, inside in *.
  rewrite ER, EC. simpl. tauto.
Qed.

Lemma set_ball_count_run w p n :
  wf w → inside w p → 0 ≤ n →
  ∃ w', World.set_ball_count n (Some p) w = (Ok (), w') ∧ wf w'
    ∧ rows w' = rows w ∧ cols w' = cols w
    ∧ _karel w' = _karel w
    ∧ _horizontal_walls w' = _horizontal_walls w
    ∧ _vertical_walls w' = _vertical_walls w
    ∧ _colors w' = _colors w
    ∧ stored (_ball_counts w') (rows w - street p - 1) (avenue p) = Some n
    ∧ ∀ i j, 0 ≤ i → 0 ≤ j → (i, j) ≠ (rows w - street p - 1, avenue p) →
        stored (_ball_counts w') i j = stored (_ball_counts w) i j.
Proof.
  intros Hwf Hin Hn. pose proof Hwf as Hwf0.
  apply wf_unfold in Hwf as (HR & HC & (Hbc & _) & Hnn & _).
  destruct Hin as [Ha Hs].
  destruct (grid_setitem_in_shape _ _ _ (rows w - street p - 1) (avenue p) n Hbc)
    as (bc' & Hset & Hbc' & Hnew & Hold & HP); [lia..|].
  destruct (wf_with_ball_counts w bc' Hwf0 Hbc') as (Hwf' & ER & EC).
  { by apply HP. }
  exists (with_ball_counts (λ _, bc') w). split_and!; try done.
  unfold World.set_ball_count. run. simpl.
  rewrite in_bounds_inside by (split; lia). simpl.
  destruct (Z.ltb_spec n 0); [lia|]. run.
  by erewrite bind_lift_Ok by done.
Qed.

Lemma set_ball_count_negative w p n :
  wf w → inside w p → n < 0 →
  World.set_ball_count n (Some p) w =
    (Raise (ValueError "Tried to put {new} balls at {position}"), w).
Proof.
  intros Hwf Hin Hn. unfold World.set_ball_count. run. simpl.
  rewrite in_bounds_inside by done. simpl.
  by destruct (Z.ltb_spec n 0); [|lia].
Qed.

Lemma stored_Forall {A} (P : A → Prop) (g : list (list A)) i j x :
  Forall (Forall P) g → stored g i j = Some x → P x.
Proof.
  intros HP. unfold stored.
  destruct (g !! Z.to_nat i) as [row|] eqn:Hrow; simpl; [|done].
  intros Hx. pose proof (Forall_lookup_1 _ _ _ _ HP Hrow) as Hr.
  eapply (Forall_lookup_1 _ _ _ _ Hr Hx).
Qed.

Lemma ball_count_value w p :
  wf w → inside w p →
  ∃ n, 0 ≤ n ∧ World.ball_count (Some p) w = (Ok n, w)
       ∧ stored (_ball_counts w) (rows w - street p - 1) (avenue p) = Some n.
Proof.
  intros Hwf Hin. rewrite ball_count_run by done.
  apply wf_unfold in Hwf as (HR & HC & (Hbc & _) & Hnn & _).
  destruct Hin as [Ha Hs].
  destruct (stored_in_shape _ _ _ (rows w - street p - 1) (avenue p) Hbc)
    as [n Hn]; [lia..|].
  exists n. rewrite Hn. split_and!; try done.
  by apply (stored_Forall _ _ _ _ _ Hnn Hn).
Qed.

Lemma position_index_inj w p q :
  (rows w - street q - 1, avenue q) = (rows w - street p - 1, avenue p) →
  q = p.
Proof. destruct p, q. simpl. intros [= ? ?]. f_equal; lia. Qed.

Lemma set_ball_count_spec w p n :
  wf w → inside w p → 0 ≤ n →
  ∃ w', World.set_ball_count n (Some p) w = (Ok (), w') ∧ wf w'
    ∧ same_but_ball_counts w w'
    ∧ World.ball_count (Some p) w' = (Ok n, w')
    ∧ ∀ q, inside w q → q ≠ p →
        fst (World.ball_count (Some q) w') = fst (World.ball_count (Some q) w).
Proof.
  intros Hwf Hin Hn.
  destruct (set_ball_count_run w p n Hwf Hin Hn)
    as (w' & Hrun & Hwf' & ER & EC & Hk & Hhw & Hvw & Hcs & Hnew & Hold).
  assert (Hin' : ∀ q, inside w q → inside w' q).
  { intros q. unfold inside. by rewrite ER, EC. }
  exists w'. split_and!; try done.
  - unfold same_but_ball_counts. split_and!; try done.
    rewrite !size_run by eauto with karel. unfold size_of. simpl.
    by rewrite ER, EC.
  - rewrite ball_count_run by auto. by rewrite ER, Hnew.
  - intros q Hq Hne. rewrite !ball_count_run by auto. simpl.
    rewrite ER, Hold; [done | destruct Hq; lia..|].
    intros E. by apply Hne, (position_index_inj w).
Qed.

(** ** Balls *)

(** C10: at a position [p] inside the world (the robot's when none is
    given) holding [n] balls, [put_ball] returns and leaves [n + 1] balls at
    [p]; [take_ball] returns and leaves [n - 1] when [n] is not 0, and
    raises [ValueError] without touching the world when [n] is 0.  The
    robot, both wall grids, the colours, the size and the ball count of
    every other cell are as before. *)
Theorem put_ball_take_ball_frame (w : World) (given : option AvenueAndStreet) :
  wf w →
  let p := default (position (_karel w)) given in
  inside w p →
  ∃ n, 0 ≤ n ∧ World.ball_count (Some p) w = (Ok n, w)
    ∧ (∃ w', World.put_ball given w = (Ok (), w')
         ∧ same_but_ball_counts w w'
         ∧ World.ball_count (Some p) w' = (Ok (n + 1), w')
         ∧ ∀ q, inside w q → q ≠ p →
             fst (World.ball_count (Some q) w') =
             fst (World.ball_count (Some q) w))
    ∧ (n = 0 →
         World.take_ball given w =
           (Raise (ValueError "Tried to put {new} balls at {position}"), w))
    ∧ (n ≠ 0 →
         ∃ w', World.take_ball given w = (Ok (), w')
           ∧ same_but_ball_counts w w'
           ∧ World.ball_count (Some p) w' = (Ok (n - 1), w')
           ∧ ∀ q, inside w q → q ≠ p →
               fst (World.ball_count (Some q) w') =
               fst (World.ball_count (Some q) w)).
Proof.
  intros Hwf p Hin.
  destruct (ball_count_value w p Hwf Hin) as (n & Hn & Hcount & _).
  exists n. split_and!; try done.
  - destruct (set_ball_count_spec w p (n + 1) Hwf Hin) as (w' & Hset & _ & H);
      [lia|].
    exists w'. split; [|done].
    unfold World.put_ball. run. exact Hset.
  - intros ->. unfold World.take_ball. run.
    by apply set_ball_count_negative.
  - intros Hne.
    destruct (set_ball_count_spec w p (n - 1) Hwf Hin) as (w' & Hset & _ & H);
      [lia|].
    exists w'. split; [|done].
    unfold World.take_ball. run. exact Hset.
Qed.

Lemma put_ball_take_ball_frame_witness :
  wf world_3x2 ∧ inside world_3x2 (MkAvenueAndStreet 2 0)
  ∧ ∃ w', World.put_ball (Some (MkAvenueAndStreet 2 0)) world_3x2 = (Ok (), w')
          ∧ _colors w' = _colors world_3x2.
Proof.
  assert (H1 : wf world_3x2) by reflexivity.
  assert (H2 : inside world_3x2 (MkAvenueAndStreet 2 0)).
  { unfold inside, cols, rows, len. simpl. lia. }
  split_and!; try done.
  destruct (put_ball_take_ball_frame world_3x2 (Some (MkAvenueAndStreet 2 0))
              H1 H2) as (n & _ & _ & (w' & Hput & Hsame & _) & _).
  exists w'. split; [exact Hput|]. apply Hsame.
Defined.

(** ** Paint *)

Lemma paint_run w p c :
  wf w → inside w p →
  ∃ w', World.paint (Rgb c) (Some p) w = (Ok (), w') ∧ wf w'
    ∧ _karel w' = _karel w ∧ _ball_counts w' = _ball_counts w
    ∧ _horizontal_walls w' = _horizontal_walls w
    ∧ _vertical_walls w' = _vertical_walls w
    ∧ stored (_colors w') (rows w - street p - 1) (avenue p) = Some c
    ∧ ∀ i j, 0 ≤ i → 0 ≤ j → (i, j) ≠ (rows w - street p - 1, avenue p) →
        stored (_colors w') i j = stored (_colors w) i j.
Proof.
  intros Hwf Hin. pose proof Hwf as Hwf0.
  apply wf_unfold in Hwf as (HR & HC & (Hbc & Hhw & Hvw & Hcs) & Hnn & Hk).
  destruct Hin as [Ha Hs].
  destruct (grid_setitem_in_shape _ _ _ (rows w - street p - 1) (avenue p) c Hcs)
    as (cs' & Hset & Hcs' & Hnew & Hold & _); [lia..|].
  exists (with_colors (λ _, cs') w). split_and!; try done.
  - unfold World.paint. run. simpl.
    rewrite in_bounds_inside by (split; lia). simpl. run.
    by erewrite bind_lift_Ok by done.
  - apply wf_unfold. unfold grids_shape. simpl. tauto.
Qed.

Lemma paint_text_raises w p s :
  wf w → inside w p →
  World.paint (Str s) (Some p) w = (Raise (TypeError "{o!r} must be a RGB"), w).
Proof.
  intros Hwf Hin. unfold World.paint. run. simpl.
  rewrite in_bounds_inside by done. simpl. by run.
Qed.

Lemma paint_default w new :
  World.paint new None w = World.paint new (Some (position (_karel w))) w.
Proof. reflexivity. Qed.

Lemma color_at_default w :
  World.color_at None w = World.color_at (Some (position (_karel w))) w.
Proof. reflexivity. Qed.

(** C4, as the code has it: the text "red" resolves to [RGB(255, 0, 0)];
    in a well-formed world, painting the robot's cell with a colour value
    and asking [color_at()] returns that value; [paint] given text raises
    [TypeError] and leaves the world as it was. *)
Theorem paint_then_color_at (rgb_call : string → option (Z * Z * Z))
    (w : World) (c : RGB) :
  wf w →
  RGB.from_str rgb_call (Str "red") = Ok (MkRGB 255 0 0)
  ∧ (∃ w', World.paint (Rgb c) None w = (Ok (), w')
           ∧ World.color_at None w' = (Ok c, w'))
  ∧ (∀ s, World.paint (Str s) None w = (Raise (TypeError "{o!r} must be a RGB"), w)).
Proof.
  intros Hwf. pose proof (wf_inside_karel w Hwf) as Hin. split_and!.
  - reflexivity.
  - destruct (paint_run w _ c Hwf Hin)
      as (w' & Hrun & Hwf' & Hk & Hbc & _ & _ & Hnew & _).
    exists w'. split; [by rewrite paint_default|].
    assert (ER : rows w' = rows w) by (unfold rows; by rewrite Hbc).
    assert (EC : cols w' = cols w) by (unfold cols; by rewrite Hbc).
    rewrite color_at_default, color_at_run; [|done|].
    + by rewrite Hk, ER, Hnew.
    + rewrite Hk. unfold inside. by rewrite ER, EC.
  - intros s. rewrite paint_default. by apply paint_text_raises.
Qed.

Lemma paint_then_color_at_witness :
  wf world_2x2
  ∧ ∃ w', World.paint (Rgb (MkRGB 255 0 0)) None world_2x2 = (Ok (), w')
          ∧ World.color_at None w' = (Ok (MkRGB 255 0 0), w').
Proof.
  assert (H : wf world_2x2) by reflexivity.
  split; [exact H|].
  apply (paint_then_color_at no_rgb_call world_2x2 (MkRGB 255 0 0) H).
Defined.

(** C4 as stated fails twice over: the constructor raises on the 2-by-2
    grid, and [paint] given the text "red" raises in a 2-by-2 world built
    by hand. *)
Lemma scenario_paint_red_raises :
  World.__init__ no_rgb_call default_karel [[0; 0]; [0; 0]] None None None =
    Raise (ValueError "Expected {isize} elements in vertical_walls, found {arr_isize}")
  ∧ (World.paint (Str "red") None;; World.color_at None) world_2x2 =
    (Raise (TypeError "{o!r} must be a RGB"), world_2x2).
Proof. split; reflexivity. Qed.

(** ** Walls *)

Lemma chained_range_run w k (bound : M Z) n :
  bound w = (Ok n, w) →
  World.chained_range k bound w = (Ok ((0 <=? k) && (k <? n)), w).
Proof.
  intros Hb. unfold World.chained_range.
  destruct (0 <=? k); [|done]. by erewrite bind_Ok by exact Hb.
Qed.

Lemma street_bound_run w :
  1 ≤ rows w →
  (World.size ≫= λ sz, mret (street sz - 1)) w = (Ok (rows w - 1), w).
Proof. intros H. by run_size. Qed.

Lemma avenue_bound_run w :
  1 ≤ rows w →
  (World.size ≫= λ sz, mret (avenue sz - 1)) w = (Ok (cols w - 1), w).
Proof. intros H. by run_size. Qed.

#[local] Hint Resolve chained_range_run street_bound_run avenue_bound_run
  : karel.

Lemma stored_default {A} (R C : Z) (g : list (list A)) (i j : Z) (d : A) :
  shape R C g → 0 ≤ i < R → 0 ≤ j < C →
  grid_getitem g i j = Ok (default d (stored g i j)).
Proof.
  intros Hg Hi Hj. rewrite grid_getitem_nonneg by lia.
  by destruct (stored_in_shape R C g i j Hg Hi Hj) as [x ->].
Qed.

Lemma is_blocked_run w p d :
  wf w → inside w p →
  World.is_blocked (Some p) (Some d) w = (Ok (Some (blocked w p d)), w).
Proof.
  intros Hwf Hin. pose proof Hwf as Hwf0.
  apply wf_unfold in Hwf as (HR & HC & (Hbc & Hhw & Hvw & Hcs) & Hnn & Hk).
  unfold World.is_blocked. run. simpl.
  rewrite in_bounds_inside by done. simpl. run.
  destruct Hin as [Ha Hs].
  destruct d; simpl; run; unfold blocked;
    match goal with
    | |- context [ (0 <=? ?k) && (?k <? ?n) ] =>
        destruct (Z.leb_spec 0 k); destruct (Z.ltb_spec k n); simpl; try done
    end; run; unfold lift.
  - by erewrite (stored_default _ _ _ _ _ true Hhw) by lia.
  - by erewrite (stored_default _ _ _ _ _ true Hhw) by lia.
  - by erewrite (stored_default _ _ _ _ _ true Hvw) by lia.
  - by erewrite (stored_default _ _ _ _ _ true Hvw) by lia.
Qed.

Lemma is_blocked_default w given_p given_d :
  World.is_blocked given_p given_d w =
    World.is_blocked (Some (default (position (_karel w)) given_p))
      (Some (default (direction (_karel w)) given_d)) w.
Proof. by destruct given_p, given_d. Qed.

Lemma set_is_blocked_default w wall given_p given_d :
  World.set_is_blocked wall given_p given_d w =
    World.set_is_blocked wall (Some (default (position (_karel w)) given_p))
      (Some (default (direction (_karel w)) given_d)) w.
Proof. by destruct given_p, given_d. Qed.

(** Where a step leaves the world, in coordinates. *)
Lemma leaves_spec w p d :
  inside w p →
  leaves (size_of w) p d = true ↔
    match d with
    | north => street p = rows w - 1
    | south => street p = 0
    | east => avenue p = cols w - 1
    | west => avenue p = 0
    end.
Proof.
  intros [Ha Hs]. unfold leaves.
  rewrite moved_cases by (unfold AvenueAndStreet.valid; lia).
  destruct d.
  - rewrite negb_true_iff, <- not_true_iff_false, in_bounds_size_of. simpl. lia.
  - destruct (Z.eqb_spec (street p) 0); [tauto|].
    rewrite negb_true_iff, <- not_true_iff_false, in_bounds_size_of. simpl. lia.
  - rewrite negb_true_iff, <- not_true_iff_false, in_bounds_size_of. simpl. lia.
  - destruct (Z.eqb_spec (avenue p) 0); [tauto|].
    rewrite negb_true_iff, <- not_true_iff_false, in_bounds_size_of. simpl. lia.
Qed.

Lemma stays_moved w p d :
  inside w p → leaves (size_of w) p d = false →
  ∃ q, AvenueAndStreet.moved p d = Ok q ∧ inside w q.
Proof.
  intros Hin Hl. pose proof (leaves_spec w p d Hin) as Hspec.
  rewrite Hl in Hspec. destruct Hin as [Ha Hs].
  rewrite moved_cases by (unfold AvenueAndStreet.valid; lia).
  unfold inside.
  destruct d.
  - eexists. split; [done|]. simpl.
    assert (street p ≠ rows w - 1) by (intros E; by apply Hspec in E). lia.
  - destruct (Z.eqb_spec (street p) 0) as [E|E]; [by apply Hspec in E|].
    eexists. split; [done|]. simpl. lia.
  - eexists. split; [done|]. simpl.
    assert (avenue p ≠ cols w - 1) by (intros E; by apply Hspec in E). lia.
  - destruct (Z.eqb_spec (avenue p) 0) as [E|E]; [by apply Hspec in E|].
    eexists. split; [done|]. simpl. lia.
Qed.

Lemma blocked_leaves w p d :
  inside w p → leaves (size_of w) p d = true → blocked w p d = true.
Proof.
  intros Hin Hl. apply (leaves_spec w p d Hin) in Hl. destruct Hin as [Ha Hs].
  unfold blocked. cbv zeta. destruct d;
    match goal with
    | |- context [ (0 <=? ?k) && (?k <? ?n) ] =>
        destruct (Z.leb_spec 0 k); destruct (Z.ltb_spec k n); simpl;
          try done; exfalso; lia
    end.
Qed.

(** C7: at a position inside a well-formed world and a direction whose
    step leaves the world, [is_blocked] returns [True] and changes nothing,
    and [set_is_blocked], whatever the wall value, raises [IndexError] - not
    the [ValueError] of a validation failure - and changes nothing. *)
Theorem outward_edge_blocked_not_settable (w : World) (p : AvenueAndStreet)
    (d : Direction) (wall : bool) :
  wf w → inside w p → leaves (size_of w) p d = true →
  World.is_blocked (Some p) (Some d) w = (Ok (Some true), w)
  ∧ World.set_is_blocked wall (Some p) (Some d) w =
      (Raise (IndexError "Position to set ({position}) out of range"), w)
  ∧ ∀ msg, IndexError "Position to set ({position}) out of range" ≠ ValueError msg.
Proof.
  intros Hwf Hin Hl. split_and!.
  - rewrite is_blocked_run by done. by rewrite blocked_leaves.
  - apply (leaves_spec w p d Hin) in Hl. destruct Hin as [Ha Hs].
    unfold World.set_is_blocked. run. simpl.
    rewrite in_bounds_inside by (split; lia). simpl. run.
    destruct d; simpl; run;
      match goal with
      | |- context [ (0 <=? ?k) && (?k <? ?n) ] =>
          destruct (Z.leb_spec 0 k); destruct (Z.ltb_spec k n); simpl;
            try done; exfalso; lia
      end.
  - discriminate.
Qed.

Lemma outward_edge_blocked_not_settable_witness :
  wf world_3x2 ∧ inside world_3x2 (MkAvenueAndStreet 2 1)
  ∧ leaves (size_of world_3x2) (MkAvenueAndStreet 2 1) east = true
  ∧ World.is_blocked (Some (MkAvenueAndStreet 2 1)) (Some east) world_3x2 =
      (Ok (Some true), world_3x2)
  ∧ World.set_is_blocked false (Some (MkAvenueAndStreet 2 1)) (Some east)
      world_3x2 =
      (Raise (IndexError "Position to set ({position}) out of range"), world_3x2).
Proof.
  assert (H1 : wf world_3x2) by reflexivity.
  assert (H2 : inside world_3x2 (MkAvenueAndStreet 2 1)).
  { unfold inside, cols, rows, len. simpl. lia. }
  assert (H3 : leaves (size_of world_3x2) (MkAvenueAndStreet 2 1) east = true)
    by reflexivity.
  pose proof (outward_edge_blocked_not_settable world_3x2 _ east false
                H1 H2 H3) as (Hquery & Hset & _).
  split_and!; [exact H1 | exact H2 | exact H3 | exact Hquery | exact Hset].
Defined.

(** ** The robot *)

Lemma set_karel_run w k :
  wf w → inside w (position k) →
  World.set_karel k w = (Ok (), with_karel k w) ∧ wf (with_karel k w).
Proof.
  intros Hwf Hin. split.
  - unfold World.set_karel. run. by rewrite in_bounds_inside.
  - apply wf_unfold in Hwf as (HR & HC & Hg & Hnn & _).
    apply wf_unfold. unfold grids_shape in *. by simpl.
Qed.

Lemma set_karel_outside w k :
  wf w → AvenueAndStreet._in_bounds (size_of w) (position k) = false →
  World.set_karel k w =
    (Raise (ValueError "Karel's new position ({position}) out of range (size={self.size})"), w).
Proof. intros Hwf Hout. unfold World.set_karel. run. by rewrite Hout. Qed.

Lemma front_is_blocked_run w :
  wf w →
  World.front_is_blocked w =
    (Ok (Some (blocked w (position (_karel w)) (direction (_karel w)))), w).
Proof.
  intros Hwf. unfold World.front_is_blocked.
  rewrite is_blocked_default. simpl. apply is_blocked_run; eauto with karel.
Qed.

(** C5: in a well-formed world [move] first asks [front_is_blocked], which
    answers a boolean [b].  When [b] is [True] it raises the "into a wall"
    [ValueError] and the world is as before; when [b] is [False] the step
    [p.moved(d)] exists and is inside, and [move] returns with the robot
    there, facing as before, everything else untouched. *)
Theorem move_steps_or_raises (w : World) :
  wf w →
  let p := position (_karel w) in
  let d := direction (_karel w) in
  ∃ b, World.front_is_blocked w = (Ok (Some b), w)
    ∧ (b = true →
         World.move w =
           (Raise (ValueError "Tried to move Karel ({self.karel}) into a wall"), w))
    ∧ (b = false →
         ∃ q, AvenueAndStreet.moved p d = Ok q ∧ inside w q
           ∧ World.move w = (Ok (), with_karel (MkKarel q d) w)
           ∧ wf (with_karel (MkKarel q d) w)).
Proof.
  intros Hwf p d. pose proof (front_is_blocked_run w Hwf) as Hfront.
  pose proof (wf_inside_karel w Hwf) as Hin.
  exists (blocked w p d). split_and!; [done|..].
  - intros Hb. unfold World.move. run. fold p d. by rewrite Hb.
  - intros Hb.
    destruct (leaves (size_of w) p d) eqn:Hl.
    { by rewrite (blocked_leaves w p d Hin Hl) in Hb. }
    destruct (stays_moved w p d Hin Hl) as (q & Hq & Hinq).
    exists q. split_and!; try done.
    + unfold World.move. run. fold p d. rewrite Hb. simpl. run.
      unfold Karel.moved. fold p d. rewrite Hq. simpl.
      rewrite bind_lift_Ok with (a := MkKarel q d) by done.
      by apply set_karel_run.
    + by apply set_karel_run.
Qed.

Lemma move_steps_or_raises_witness :
  wf world_3x2
  ∧ ∃ b, World.front_is_blocked world_3x2 = (Ok (Some b), world_3x2)
      ∧ (b = true →
           World.move world_3x2 =
             (Raise (ValueError "Tried to move Karel ({self.karel}) into a wall"),
              world_3x2)).
Proof.
  assert (H : wf world_3x2) by reflexivity.
  split; [exact H|].
  destruct (move_steps_or_raises world_3x2 H) as (b & Hb & Hraise & _).
  exists b. split; [exact Hb | exact Hraise].
Defined.

(** Turning never fails and moves nothing but the direction. *)
Lemma turn_left_run w :
  wf w → World.turn_left w = (Ok (), with_karel (Karel.turned_left (_karel w)) w).
Proof.
  intros Hwf. unfold World.turn_left. run.
  apply set_karel_run; eauto with karel.
Qed.

Lemma turn_right_run w :
  wf w →
  World.turn_right w = (Ok (), with_karel (Karel.turned_right (_karel w)) w).
Proof.
  intros Hwf. unfold World.turn_right. run.
  apply set_karel_run; eauto with karel.
Qed.

Lemma turn_around_run w :
  wf w →
  World.turn_around w = (Ok (), with_karel (Karel.turned_around (_karel w)) w).
Proof.
  intros Hwf. unfold World.turn_around. run.
  apply set_karel_run; eauto with karel.
Qed.

(** ** The derived queries *)

Lemma is_clear_run w p d :
  wf w → inside w p →
  World.is_clear (Some p) (Some d) w = (Ok (negb (blocked w p d)), w).
Proof.
  intros Hwf Hin. unfold World.is_clear.
  by erewrite bind_Ok by (by apply is_blocked_run).
Qed.

Lemma is_clear_default w given_p given_d :
  World.is_clear given_p given_d w =
    World.is_clear (Some (default (position (_karel w)) given_p))
      (Some (default (direction (_karel w)) given_d)) w.
Proof. by destruct given_p, given_d. Qed.

Lemma balls_present_run w given :
  wf w → inside w (default (position (_karel w)) given) →
  ∃ n, World.ball_count (Some (default (position (_karel w)) given)) w =
         (Ok n, w)
    ∧ World.balls_present given w = (Ok (negb (n =? 0)), w)
    ∧ World.no_balls_present given w = (Ok (n =? 0), w).
Proof.
  intros Hwf Hin.
  destruct (ball_count_value w _ Hwf Hin) as (n & _ & Hcount & _).
  exists n. split; [done|].
  assert (Hp : World.balls_present given w = (Ok (negb (n =? 0)), w)).
  { unfold World.balls_present. by run. }
  split; [done|].
  unfold World.no_balls_present. run. by rewrite negb_involutive.
Qed.

Lemma color_at_value w p :
  wf w → inside w p → ∃ c, World.color_at (Some p) w = (Ok c, w).
Proof.
  intros Hwf Hin. rewrite color_at_run by done.
  apply wf_unfold in Hwf as (HR & HC & (_ & _ & _ & Hcs) & _).
  destruct Hin as [Ha Hs].
  destruct (stored_in_shape _ _ _ (rows w - street p - 1) (avenue p) Hcs)
    as [c Hc]; [lia..|].
  exists c. by rewrite Hc.
Qed.

(** C9, as the code has it: in a well-formed world each of the wall,
    facing and ball queries returns a boolean and leaves the world as it
    was, and so does [color_is] whenever [RGB.from_str] accepts its
    argument; when [RGB.from_str] raises on the argument, [color_is] raises
    the same exception (the world again untouched). *)
Theorem derived_queries_return (rgb_call : string → option (Z * Z * Z))
    (w : World) :
  wf w →
  (∃ x, World.front_is_clear w = (Ok x, w))
  ∧ (∃ x, World.left_is_clear w = (Ok x, w))
  ∧ (∃ x, World.right_is_clear w = (Ok x, w))
  ∧ (∃ x, World.front_is_blocked w = (Ok (Some x), w))
  ∧ (∃ x, World.left_is_blocked w = (Ok (Some x), w))
  ∧ (∃ x, World.right_is_blocked w = (Ok (Some x), w))
  ∧ (∃ x, World.facing_north w = (Ok x, w))
  ∧ (∃ x, World.facing_south w = (Ok x, w))
  ∧ (∃ x, World.facing_east w = (Ok x, w))
  ∧ (∃ x, World.facing_west w = (Ok x, w))
  ∧ (∃ x, World.not_facing_north w = (Ok x, w))
  ∧ (∃ x, World.not_facing_south w = (Ok x, w))
  ∧ (∃ x, World.not_facing_east w = (Ok x, w))
  ∧ (∃ x, World.not_facing_west w = (Ok x, w))
  ∧ (∃ x, World.balls_present None w = (Ok x, w))
  ∧ (∃ x, World.no_balls_present None w = (Ok x, w))
  ∧ (∀ color c, RGB.from_str rgb_call color = Ok c →
       ∃ x, World.color_is rgb_call color w = (Ok x, w))
  ∧ (∀ color e, RGB.from_str rgb_call color = Raise e →
       World.color_is rgb_call color w = (Raise e, w)).
Proof.
  intros Hwf. pose proof (wf_inside_karel w Hwf) as Hin.
  destruct (balls_present_run w None Hwf Hin) as (n & _ & Hbp & Hnbp).
  destruct (color_at_value w _ Hwf Hin) as (here & Hhere).
  split_and!; try (eexists; reflexivity).
  - eexists. unfold World.front_is_clear. rewrite is_clear_default.
    by apply is_clear_run.
  - eexists. unfold World.left_is_clear. run. rewrite is_clear_default.
    by apply is_clear_run.
  - eexists. unfold World.right_is_clear. run. rewrite is_clear_default.
    by apply is_clear_run.
  - eexists. by apply front_is_blocked_run.
  - eexists. unfold World.left_is_blocked. run. rewrite is_blocked_default.
    by apply is_blocked_run.
  - eexists. unfold World.right_is_blocked. run. rewrite is_blocked_default.
    by apply is_blocked_run.
  - eauto.
  - eauto.
  - intros color c Hc. eexists. unfold World.color_is.
    erewrite bind_Ok by (rewrite color_at_default; exact Hhere).
    by erewrite bind_lift_Ok by exact Hc.
  - intros color e He. unfold World.color_is.
    erewrite bind_Ok by (rewrite color_at_default; exact Hhere).
    unfold mbind, M_bind, lift. by rewrite He.
Qed.

Lemma derived_queries_return_witness :
  wf world_3x2
  ∧ (∃ x, World.right_is_clear world_3x2 = (Ok x, world_3x2))
  ∧ (∃ x, World.color_is no_rgb_call (Str "#F00") world_3x2 =
            (Ok x, world_3x2)).
Proof.
  assert (H : wf world_3x2) by reflexivity.
  pose proof (derived_queries_return no_rgb_call world_3x2 H) as Q.
  split_and!; [exact H | apply Q |].
  apply (proj2 Q) with (c := MkRGB 255 0 0). reflexivity.
Defined.

(** C9 as stated fails for [color_is]: in a well-formed 1-by-1 world, a
    text that names no colour makes it raise [ValueError]. *)
Lemma color_is_unknown_text_raises :
  wf world_1x1
  ∧ World.color_is no_rgb_call (Str "notacolor") world_1x1 =
      (Raise (ValueError "{c!r} is not a valid color string"), world_1x1).
Proof. split; reflexivity. Qed.

(** ** Resizing one grid *)

Section ResizeGrid.
Context {A : Type} (fill : A).
Implicit Types g : list (list A).

Lemma shape_del_prefix R C g n :
  shape R C g → 0 ≤ n ≤ R → shape (R - n) C (py_del_prefix n g).
Proof.
  intros [HR Hrows] Hn. unfold py_del_prefix. split.
  - unfold len in *. rewrite length_drop. lia.
  - by apply Forall_drop.
Qed.

Lemma shape_prepend R C g n :
  shape R C g → 0 ≤ n → 0 ≤ C →
  shape (R + n) C (py_repeat (py_repeat fill C) n ++ g).
Proof.
  intros [HR Hrows] Hn HC. unfold py_repeat. split.
  - unfold len in *. rewrite length_app, length_replicate. lia.
  - apply Forall_app. split; [|done]. apply Forall_replicate.
    unfold len. rewrite length_replicate. lia.
Qed.

Lemma shape_del_suffix R C g n :
  shape R C g → 0 ≤ n ≤ C → shape R (C - n) (py_del_suffix n <$> g).
Proof.
  intros [HR Hrows] Hn. split.
  - unfold len in *. by rewrite length_fmap.
  - apply Forall_fmap. eapply Forall_impl; [exact Hrows|].
    intros row Hrow. simpl. unfold py_del_suffix, len in *.
    rewrite length_take. lia.
Qed.

Lemma shape_extend R C g n :
  shape R C g → 0 ≤ n → shape R (C + n) ((λ i, i ++ py_repeat fill n) <$> g).
Proof.
  intros [HR Hrows] Hn. split.
  - unfold len in *. by rewrite length_fmap.
  - apply Forall_fmap. eapply Forall_impl; [exact Hrows|].
    intros row Hrow. simpl. unfold py_repeat, len in *.
    rewrite length_app, length_replicate. lia.
Qed.

Lemma shape_resize_rows R C g dr :
  shape R C g → 0 ≤ R + dr → 0 ≤ C →
  shape (R + dr) C (resize_rows fill dr C g).
Proof.
  intros Hg HR HC. unfold resize_rows.
  destruct (Z.ltb_spec dr 0).
  - replace (R + dr) with (R - - dr) by lia. apply shape_del_prefix; [done|lia].
  - destruct (Z.ltb_spec 0 dr).
    + apply shape_prepend; [done|lia..].
    + by replace (R + dr) with R by lia.
Qed.

Lemma shape_resize_cols R C g dc :
  shape R C g → 0 ≤ C + dc → shape R (C + dc) (resize_cols fill dc g).
Proof.
  intros Hg HC. unfold resize_cols.
  destruct (Z.ltb_spec dc 0).
  - replace (C + dc) with (C - - dc) by lia. apply shape_del_suffix; [done|lia].
  - destruct (Z.ltb_spec 0 dc).
    + apply shape_extend; [done|lia].
    + by replace (C + dc) with C by lia.
Qed.

(** Rows keep their distance to the last (southmost) storage row. *)
Lemma stored_resize_rows R C g dr s j :
  shape R C g → 0 ≤ R + dr → 0 ≤ s < R + dr → 0 ≤ j < C →
  stored (resize_rows fill dr C g) (R + dr - 1 - s) j =
    if s <? R then stored g (R - 1 - s) j else Some fill.
Proof.
  intros [HR Hrows] HRd Hs Hj. unfold resize_rows, stored, len in *.
  destruct (Z.ltb_spec dr 0).
  - unfold py_del_prefix. rewrite lookup_drop.
    destruct (Z.ltb_spec s R); [|lia].
    by replace (Z.to_nat (- dr) + Z.to_nat (R + dr - 1 - s))%nat
      with (Z.to_nat (R - 1 - s)) by lia.
  - destruct (Z.ltb_spec 0 dr).
    + unfold py_repeat. destruct (Z.ltb_spec s R).
      * rewrite lookup_app_r by (rewrite length_replicate; lia).
        rewrite length_replicate.
        by replace (Z.to_nat (R + dr - 1 - s) - Z.to_nat dr)%nat
          with (Z.to_nat (R - 1 - s)) by lia.
      * rewrite lookup_app_l by (rewrite length_replicate; lia).
        rewrite lookup_replicate_2 by lia. simpl.
        apply lookup_replicate_2. lia.
    + destruct (Z.ltb_spec s R); [|lia].
      by replace (R + dr - 1 - s) with (R - 1 - s) by lia.
Qed.

(** Columns keep their index. *)
Lemma stored_resize_cols R C g dc i j :
  shape R C g → 0 ≤ C + dc → 0 ≤ i < R → 0 ≤ j < C + dc →
  stored (resize_cols fill dc g) i j =
    if j <? C then stored g i j else Some fill.
Proof.
  intros Hg HCd Hi Hj.
  destruct (shape_lookup R C g i Hg Hi) as (row & Hrow & Hlen).
  unfold resize_cols, stored, len in *.
  destruct (Z.ltb_spec dc 0).
  - rewrite list_lookup_fmap, Hrow. simpl. unfold py_del_suffix.
    destruct (Z.ltb_spec j C); [|lia].
    apply lookup_take_lt. unfold len. lia.
  - destruct (Z.ltb_spec 0 dc).
    + rewrite list_lookup_fmap, Hrow. simpl. unfold py_repeat.
      destruct (Z.ltb_spec j C).
      * apply lookup_app_l. lia.
      * rewrite lookup_app_r by lia. apply lookup_replicate_2. lia.
    + destruct (Z.ltb_spec j C); [|lia]. by rewrite Hrow.
Qed.

Lemma shape_resize_grid R C g dr dc :
  shape R C g → 0 ≤ R + dr → 0 ≤ C → 0 ≤ C + dc →
  shape (R + dr) (C + dc) (resize_grid fill dr dc C g).
Proof.
  intros Hg HR HC HCd. unfold resize_grid.
  apply shape_resize_cols; [|done]. by apply shape_resize_rows.
Qed.

(** A cell of the resized grid, by its distance [s] to the last row and
    its column [j]: the old entry where there was one, [fill] elsewhere. *)
Lemma stored_resize_grid R C g dr dc s j :
  shape R C g → 0 ≤ R + dr → 0 ≤ C →
  0 ≤ s < R + dr → 0 ≤ j < C + dc →
  stored (resize_grid fill dr dc C g) (R + dr - 1 - s) j =
    if (s <? R) && (j <? C) then stored g (R - 1 - s) j else Some fill.
Proof.
  intros Hg HR HC Hs Hj. unfold resize_grid.
  rewrite (stored_resize_cols (R + dr) C) by
    (try apply shape_resize_rows; done || lia).
  destruct (Z.ltb_spec j C).
  - rewrite (stored_resize_rows R C) by (done || lia).
    by rewrite andb_true_r.
  - by rewrite andb_false_r.
Qed.

Lemma resize_grid_same C g : resize_grid fill 0 0 C g = g.
Proof. reflexivity. Qed.
End ResizeGrid.

(** ** The [size] setter *)

Lemma size_shape w R C :
  shape R C (_ball_counts w) → 1 ≤ R →
  World.size w = (Ok (MkAvenueAndStreet C R), w).
Proof.
  intros Hbc HR. destruct (rows_cols_of_shape w R C Hbc HR) as [ER EC].
  rewrite size_run by lia. unfold size_of. by rewrite ER, EC.
Qed.

(** Reading [self.size] when the shape of [_ball_counts] is known. *)
Ltac size_step R C :=
  lazymatch goal with
  | |- context [ (World.size ≫= ?f) ?w ] =>
      rewrite (bind_Ok World.size f w _ w
                 (size_shape w R C ltac:(simpl; eauto) ltac:(lia)))
  end;
  cbn [avenue street].

Lemma rows_phase_run w new R C :
  shape R C (_ball_counts w) → 1 ≤ R → 0 ≤ C → 1 ≤ street new →
  (World.drop_north_rows new;; World.add_north_rows new) w =
    (Ok (),
     on_grids (resize_rows 0 (street new - R) C)
       (resize_rows false (street new - R) C)
       (resize_rows false (street new - R) (C - 1))
       (resize_rows white (street new - R) C) w).
Proof.
  intros Hbc HR HC Hnew.
  unfold World.drop_north_rows. rewrite bind_assoc. size_step R C.
  unfold on_grids, resize_rows.
  destruct (Z.ltb_spec (street new) R) as [Hlt|Hge].
  - destruct (Z.ltb_spec (street new - R) 0); [|lia].
    rewrite bind_assoc. size_step R C. run.
    unfold World.add_north_rows.
    assert (Hbc' : shape (street new) C
                     (py_del_prefix (R - street new) (_ball_counts w))).
    { replace (street new) with (R - (R - street new)) at 1 by lia.
      apply shape_del_prefix; [done|lia]. }
    size_step (street new) C.
    rewrite Z.gtb_ltb, Z.ltb_irrefl.
    unfold mret, M_ret, with_colors, with_vertical_walls,
      with_horizontal_walls, with_ball_counts. simpl.
    by replace (- (street new - R)) with (R - street new) by lia.
  - run. unfold World.add_north_rows. size_step R C.
    rewrite Z.gtb_ltb.
    destruct (Z.ltb_spec (street new - R) 0); [lia|].
    destruct (Z.ltb_spec R (street new)) as [Hgt|Hle].
    + destruct (Z.ltb_spec 0 (street new - R)); [|lia].
      size_step R C. size_step R C. run.
      assert (Hbc' : shape (R + (street new - R)) C
                (py_repeat (py_repeat 0 C) (street new - R) ++ _ball_counts w)).
      { apply shape_prepend; [done|lia..]. }
      size_step (R + (street new - R)) C. run.
      size_step (R + (street new - R)) C. run.
      size_step (R + (street new - R)) C. run.
      reflexivity.
    + destruct (Z.ltb_spec 0 (street new - R)); [lia|].
      by destruct w.
Qed.

Lemma cols_phase_run w new R C :
  shape R C (_ball_counts w) → 1 ≤ R → 1 ≤ C → 1 ≤ avenue new →
  (World.drop_east_columns new;; World.add_east_columns new) w =
    (Ok (),
     on_grids (resize_cols 0 (avenue new - C))
       (resize_cols false (avenue new - C))
       (resize_cols false (avenue new - C))
       (resize_cols white (avenue new - C)) w).
Proof.
  intros Hbc HR HC Hnew.
  unfold World.drop_east_columns. rewrite bind_assoc. size_step R C.
  unfold on_grids, resize_cols.
  destruct (Z.ltb_spec (avenue new) C) as [Hlt|Hge].
  - destruct (Z.ltb_spec (avenue new - C) 0); [|lia].
    rewrite bind_assoc. size_step R C. run.
    unfold World.add_east_columns.
    assert (Hbc' : shape R (avenue new)
                     (py_del_suffix (C - avenue new) <$> _ball_counts w)).
    { replace (avenue new) with (C - (C - avenue new)) at 1 by lia.
      apply shape_del_suffix; [done|lia]. }
    size_step R (avenue new).
    rewrite Z.gtb_ltb, Z.ltb_irrefl.
    unfold mret, M_ret, with_colors, with_vertical_walls,
      with_horizontal_walls, with_ball_counts. simpl.
    by replace (- (avenue new - C)) with (C - avenue new) by lia.
  - run. unfold World.add_east_columns. size_step R C.
    rewrite Z.gtb_ltb.
    destruct (Z.ltb_spec (avenue new - C) 0); [lia|].
    destruct (Z.ltb_spec C (avenue new)) as [Hgt|Hle].
    + destruct (Z.ltb_spec 0 (avenue new - C)); [|lia].
      size_step R C. by run.
    + destruct (Z.ltb_spec 0 (avenue new - C)); [lia|].
      by destruct w.
Qed.

Lemma Forall_resize_grid {A} (P : A → Prop) (fill : A) dr dc width
    (g : list (list A)) :
  Forall (Forall P) g → P fill →
  Forall (Forall P) (resize_grid fill dr dc width g).
Proof.
  intros Hg Hfill.
  assert (Hrows : Forall (Forall P) (resize_rows fill dr width g)).
  { unfold resize_rows. destruct (dr <? 0); [by apply Forall_drop|].
    destruct (0 <? dr); [|done].
    apply Forall_app. split; [|done].
    by apply Forall_replicate, Forall_replicate. }
  unfold resize_grid, resize_cols.
  destruct (dc <? 0).
  - apply Forall_fmap. eapply Forall_impl; [exact Hrows|].
    intros row Hrow. by apply Forall_take.
  - destruct (0 <? dc); [|done].
    apply Forall_fmap. eapply Forall_impl; [exact Hrows|].
    intros row Hrow. simpl. apply Forall_app. split; [done|].
    by apply Forall_replicate.
Qed.

Lemma in_bounds_true sz p :
  AvenueAndStreet._in_bounds sz p = true ↔
  avenue p < avenue sz ∧ street p < street sz.
Proof.
  unfold AvenueAndStreet._in_bounds. by rewrite andb_true_iff, !Z.ltb_lt.
Qed.

(** What the [size] setter leaves behind, and that it is a world again. *)
Lemma set_size_run w new :
  wf w → 1 ≤ avenue new → 1 ≤ street new →
  AvenueAndStreet._in_bounds new (position (_karel w)) = true →
  World.set_size new w = (Ok (), resized new w)
  ∧ wf (resized new w)
  ∧ rows (resized new w) = street new ∧ cols (resized new w) = avenue new.
Proof.
  intros Hwf Ha Hs Hk. pose proof Hwf as Hwf0.
  apply wf_unfold in Hwf as (HR & HC & (Hbc & Hhw & Hvw & Hcs) & Hnn & Hin).
  set (R := rows w) in *. set (C := cols w) in *.
  assert (Hshape : grids_shape (street new) (avenue new) (resized new w)).
  { unfold grids_shape, resized. fold R C. simpl. split_and!.
    - replace (street new) with (R + (street new - R)) at 1 by lia.
      replace (avenue new) with (C + (avenue new - C)) at 1 by lia.
      apply shape_resize_grid; done || lia.
    - replace (street new - 1) with (R - 1 + (street new - R)) by lia.
      replace (avenue new) with (C + (avenue new - C)) at 1 by lia.
      apply shape_resize_grid; done || lia.
    - replace (street new) with (R + (street new - R)) at 1 by lia.
      replace (avenue new - 1) with (C - 1 + (avenue new - C)) by lia.
      apply shape_resize_grid; done || lia.
    - replace (street new) with (R + (street new - R)) at 1 by lia.
      replace (avenue new) with (C + (avenue new - C)) at 1 by lia.
      apply shape_resize_grid; done || lia. }
  destruct (rows_cols_of_shape (resized new w) _ _ (proj1 Hshape) Hs)
    as [ER EC].
  split_and!; try done.
  - unfold World.set_size.
    destruct (Z.eqb_spec (street new) 0); [lia|].
    destruct (Z.eqb_spec (avenue new) 0); [lia|]. simpl.
    run. rewrite Hk. simpl.
    rewrite <- bind_assoc.
    erewrite bind_Ok by (apply (rows_phase_run w new R C); done || lia).
    erewrite cols_phase_run with (R := street new) (C := C); [done| |lia..].
    simpl. replace (street new) with (R + (street new - R)) at 1 by lia.
    apply shape_resize_rows; done || lia.
  - apply wf_unfold. rewrite ER, EC. split_and!; try done.
    + unfold resized. simpl. by apply Forall_resize_grid.
    + apply in_bounds_true in Hk. unfold inside in *.
      rewrite ER, EC. unfold resized. simpl. lia.
Qed.

(** The same by storage row: the resized grid is the old one shifted by
    [dr] rows. *)
Lemma stored_resize_grid_index {A} (fill : A) R C (g : list (list A)) dr dc i j :
  shape R C g → 0 ≤ R + dr → 0 ≤ C →
  0 ≤ i < R + dr → 0 ≤ j < C + dc →
  stored (resize_grid fill dr dc C g) i j =
    if (dr <=? i) && (j <? C) then stored g (i - dr) j else Some fill.
Proof.
  intros Hg HR HC Hi Hj.
  replace i with (R + dr - 1 - (R + dr - 1 - i)) at 1 by lia.
  rewrite (stored_resize_grid fill R C) by (done || lia).
  replace (R - 1 - (R + dr - 1 - i)) with (i - dr) by lia.
  destruct (Z.ltb_spec (R + dr - 1 - i) R), (Z.leb_spec dr i);
    try done; lia.
Qed.

(** Splitting on every comparison in sight, then arithmetic. *)
Ltac split_comparisons :=
  repeat match goal with
    | |- context [ ?a <? ?b ] => destruct (Z.ltb_spec a b)
    | |- context [ ?a <=? ?b ] => destruct (Z.leb_spec a b)
    end;
  simpl; try done; try (exfalso; lia); try (f_equal; lia);
  try (do 2 f_equal; lia).

Lemma leaves_size_of w new p d :
  rows w = street new → cols w = avenue new →
  leaves (size_of w) p d = leaves new p d.
Proof.
  intros ER EC. unfold size_of. rewrite ER, EC. by destruct new.
Qed.

(** The walls of the resized world: as before on an edge both of whose
    cells were there, absent on an edge that is new. *)
Lemma blocked_resized w new p d :
  wf w → 1 ≤ avenue new → 1 ≤ street new →
  AvenueAndStreet._in_bounds new (position (_karel w)) = true →
  inside (resized new w) p → leaves new p d = false →
  blocked (resized new w) p d =
    if bool_decide (inside w p) && negb (leaves (size_of w) p d)
    then blocked w p d else false.
Proof.
  intros Hwf Ha Hs Hk Hin' Hl'.
  destruct (set_size_run w new Hwf Ha Hs Hk) as (_ & Hwf' & ER & EC).
  rewrite <- (leaves_size_of _ _ _ _ ER EC) in Hl'.
  pose proof (leaves_spec _ p d Hin') as Hspec'. rewrite Hl' in Hspec'.
  apply wf_unfold in Hwf as (HR & HC & (_ & Hhw & Hvw & _) & _).
  unfold inside in Hin'. rewrite ER, EC in Hin', Hspec'.
  destruct Hin' as [Hpa Hps].
  assert (Hcase : bool_decide (inside w p) && negb (leaves (size_of w) p d) =
                  true →
                  inside w p ∧ ¬ match d with
                                 | north => street p = rows w - 1
                                 | south => street p = 0
                                 | east => avenue p = cols w - 1
                                 | west => avenue p = 0
                                 end).
  { rewrite andb_true_iff, bool_decide_eq_true, negb_true_iff.
    intros [Hin Hl]. split; [done|]. intros E.
    apply (leaves_spec w p d Hin) in E. congruence. }
  assert (Hcase' : bool_decide (inside w p) && negb (leaves (size_of w) p d) =
                   false →
                   ¬ inside w p ∨ match d with
                                  | north => street p = rows w - 1
                                  | south => street p = 0
                                  | east => avenue p = cols w - 1
                                  | west => avenue p = 0
                                  end).
  { rewrite andb_false_iff, bool_decide_eq_false, negb_false_iff.
    intros [Hin|Hl]; [by left|].
    destruct (decide (inside w p)) as [Hin|Hin]; [|by left].
    right. by apply (leaves_spec w p d Hin). }
  assert (Hstay' : ¬ match d with
                     | north => street p = street new - 1
                     | south => street p = 0
                     | east => avenue p = avenue new - 1
                     | west => avenue p = 0
                     end) by (intros E; by apply Hspec' in E).
  clear Hspec' Hl'.
  unfold blocked at 1. rewrite ER, EC. unfold resized. cbn [_horizontal_walls
    _vertical_walls].
  destruct (bool_decide (inside w p) && negb (leaves (size_of w) p d)).
  - destruct Hcase as [[Hwa Hws] Hstay]; [done|]. clear Hcase'.
    unfold blocked.
    destruct d;
      match goal with
      | |- (if (0 <=? ?k) && (?k <? ?n) then _ else _) = _ =>
          destruct (Z.leb_spec 0 k); destruct (Z.ltb_spec k n); simpl;
            try (exfalso; lia)
      end;
      first
        [ rewrite (stored_resize_grid_index false (rows w - 1) (cols w))
            by (done || lia)
        | rewrite (stored_resize_grid_index false (rows w) (cols w - 1))
            by (done || lia) ];
      split_comparisons.
  - destruct Hcase' as [Hout|Hout]; [done|..]; clear Hcase;
      unfold inside in Hout;
      destruct d;
      match goal with
      | |- (if (0 <=? ?k) && (?k <? ?n) then _ else _) = _ =>
          destruct (Z.leb_spec 0 k); destruct (Z.ltb_spec k n); simpl;
            try (exfalso; lia)
      end;
      first
        [ rewrite (stored_resize_grid_index false (rows w - 1) (cols w))
            by (done || lia)
        | rewrite (stored_resize_grid_index false (rows w) (cols w - 1))
            by (done || lia) ];
      split_comparisons.
Qed.

Lemma resized_same_size w : wf w → resized (size_of w) w = w.
Proof.
  intros _. unfold resized, size_of. simpl. rewrite !Z.sub_diag.
  rewrite !resize_grid_same. by destruct w.
Qed.

Lemma set_size_rejects_zero w new :
  avenue new = 0 ∨ street new = 0 →
  World.set_size new w =
    (Raise (ValueError "New size cannot have 0 as a dimension (new size = {new})"), w).
Proof.
  intros H. unfold World.set_size.
  destruct (Z.eqb_spec (street new) 0), (Z.eqb_spec (avenue new) 0);
    simpl; try done. lia.
Qed.

Lemma set_size_rejects_robot_outside w new :
  avenue new ≠ 0 → street new ≠ 0 →
  AvenueAndStreet._in_bounds new (position (_karel w)) = false →
  World.set_size new w = (Raise (ValueError karel_out_of_bounds), w).
Proof.
  intros Ha Hs Hk. unfold World.set_size.
  destruct (Z.eqb_spec (street new) 0), (Z.eqb_spec (avenue new) 0);
    simpl; try done.
  run. by rewrite Hk.
Qed.

(** C6, as the code has it.  Setting the size of a well-formed world to a
    size with no zero dimension that contains the robot returns and leaves
    [resized new w]: every grid loses its first rows or gets fresh rows in
    front (the north edge), then every row loses its last entries or gets
    fresh entries at its end (the east edge).  The result is a well-formed
    world of the new size with the same robot.  At a position inside both
    the old and the new world the ball count and the colour are as before,
    and so is [is_blocked] towards every direction whose neighbour is inside
    both worlds.  At a position that is new the ball count is 0 and the
    colour white; [is_blocked] is [False] across every edge inside the new
    world one of whose two cells is new.  Setting the current size changes
    nothing. *)
Theorem set_size_keeps_south_west (w : World) (new : AvenueAndStreet) :
  wf w → 1 ≤ avenue new → 1 ≤ street new →
  AvenueAndStreet._in_bounds new (position (_karel w)) = true →
  let w' := resized new w in
  World.set_size new w = (Ok (), w')
  ∧ wf w' ∧ World.size w' = (Ok new, w') ∧ _karel w' = _karel w
  ∧ (∀ p, inside w p → inside w' p →
       fst (World.ball_count (Some p) w') = fst (World.ball_count (Some p) w)
       ∧ fst (World.color_at (Some p) w') = fst (World.color_at (Some p) w)
       ∧ ∀ d, leaves (size_of w) p d = false → leaves new p d = false →
           fst (World.is_blocked (Some p) (Some d) w') =
           fst (World.is_blocked (Some p) (Some d) w))
  ∧ (∀ p, inside w' p → ¬ inside w p →
       World.ball_count (Some p) w' = (Ok 0, w')
       ∧ World.color_at (Some p) w' = (Ok white, w'))
  ∧ (∀ p d, inside w' p → leaves new p d = false →
       ¬ (inside w p ∧ leaves (size_of w) p d = false) →
       World.is_blocked (Some p) (Some d) w' = (Ok (Some false), w'))
  ∧ (new = size_of w → w' = w).
Proof.
  intros Hwf Ha Hs Hk w'.
  destruct (set_size_run w new Hwf Ha Hs Hk) as (Hrun & Hwf' & ER & EC).
  fold w' in Hrun, Hwf', ER, EC.
  pose proof Hwf as Hwf0.
  apply wf_unfold in Hwf0 as (HR & HC & (Hbc & _ & _ & Hcs) & _).
  assert (Hcells : ∀ p, inside w' p →
    stored (_ball_counts w') (rows w' - street p - 1) (avenue p) =
      (if bool_decide (inside w p)
       then stored (_ball_counts w) (rows w - street p - 1) (avenue p)
       else Some 0)
    ∧ stored (_colors w') (rows w' - street p - 1) (avenue p) =
      (if bool_decide (inside w p)
       then stored (_colors w) (rows w - street p - 1) (avenue p)
       else Some white)).
  { intros p Hin'. unfold inside in Hin'. rewrite ER, EC in *.
    destruct Hin' as [Hpa Hps]. subst w'. unfold resized.
    cbn [_ball_counts _colors].
    rewrite (stored_resize_grid_index 0 (rows w) (cols w)) by (done || lia).
    rewrite (stored_resize_grid_index white (rows w) (cols w)) by (done || lia).
    destruct (bool_decide (inside w p)) eqn:Hin.
    - apply bool_decide_eq_true in Hin as [? ?]. split; split_comparisons.
    - apply bool_decide_eq_false in Hin. unfold inside in Hin.
      split; split_comparisons. }
  split_and!; try done.
  - rewrite size_run by eauto with karel. unfold size_of.
    rewrite ER, EC. by destruct new.
  - intros p Hin Hin'. destruct (Hcells p Hin') as [Hb Hc].
    rewrite bool_decide_eq_true_2 in Hb, Hc by done.
    split_and!.
    + rewrite !ball_count_run by done. cbn [fst]. by rewrite Hb.
    + rewrite !color_at_run by done. cbn [fst]. by rewrite Hc.
    + intros d Hl Hl'. rewrite !is_blocked_run by done. cbn [fst].
      unfold w'. rewrite blocked_resized by done.
      by rewrite bool_decide_eq_true_2, Hl by done.
  - intros p Hin' Hout. destruct (Hcells p Hin') as [Hb Hc].
    rewrite bool_decide_eq_false_2 in Hb, Hc by done.
    split.
    + rewrite ball_count_run by done. by rewrite Hb.
    + rewrite color_at_run by done. by rewrite Hc.
  - intros p d Hin' Hl' Hnew. rewrite is_blocked_run by done.
    unfold w'. rewrite blocked_resized by done.
    destruct (bool_decide (inside w p)) eqn:Hin; [|done].
    apply bool_decide_eq_true in Hin.
    destruct (leaves (size_of w) p d) eqn:Hl; [done|].
    by destruct Hnew.
  - intros ->. by apply resized_same_size.
Qed.

Lemma set_size_keeps_south_west_witness :
  wf world_3x2
  ∧ World.set_size (MkAvenueAndStreet 2 3) world_3x2 =
      (Ok (), resized (MkAvenueAndStreet 2 3) world_3x2)
  ∧ wf (resized (MkAvenueAndStreet 2 3) world_3x2).
Proof.
  assert (H : wf world_3x2) by reflexivity.
  split; [exact H|].
  assert (H1 : 1 ≤ avenue (MkAvenueAndStreet 2 3)) by (simpl; lia).
  assert (H2 : 1 ≤ street (MkAvenueAndStreet 2 3)) by (simpl; lia).
  destruct (set_size_keeps_south_west world_3x2 (MkAvenueAndStreet 2 3)
              H H1 H2 eq_refl) as (Hrun & Hwf & _).
  split; [exact Hrun | exact Hwf].
Defined.

(** C6 as stated fails on the old boundary: (0,0) is a position of the
    1-by-1 world and of the 2-by-2 world it is resized to, yet the query
    [is_blocked] towards the north answers [True] before and [False]
    after. *)
Lemma resize_opens_old_boundary :
  wf world_1x1
  ∧ inside world_1x1 (MkAvenueAndStreet 0 0)
  ∧ World.is_blocked (Some (MkAvenueAndStreet 0 0)) (Some north) world_1x1 =
      (Ok (Some true), world_1x1)
  ∧ World.set_size (MkAvenueAndStreet 2 2) world_1x1 =
      (Ok (), resized (MkAvenueAndStreet 2 2) world_1x1)
  ∧ inside (resized (MkAvenueAndStreet 2 2) world_1x1) (MkAvenueAndStreet 0 0)
  ∧ World.is_blocked (Some (MkAvenueAndStreet 0 0)) (Some north)
      (resized (MkAvenueAndStreet 2 2) world_1x1) =
      (Ok (Some false), resized (MkAvenueAndStreet 2 2) world_1x1).
Proof.
  split_and!; try reflexivity.
  - unfold inside, cols, rows, len. simpl. lia.
  - unfold inside, cols, rows, len. simpl. lia.
Qed.

(** ** Setting a wall *)

(** Each wall has one backing cell: the edge seen from its other side is
    the same entry. *)
Lemma blocked_symmetric w p d q :
  inside w p → AvenueAndStreet.moved p d = Ok q → inside w q →
  blocked w q (Direction.turned_around d) = blocked w p d.
Proof.
  intros [Hpa Hps] Hq [Hqa Hqs].
  rewrite moved_cases in Hq by (unfold AvenueAndStreet.valid; lia).
  unfold blocked. cbv zeta.
  destruct d; simpl in Hq |- *;
    repeat match type of Hq with
      | context [ ?a =? ?b ] => destruct (Z.eqb_spec a b); [done|]
      end;
    injection Hq as <-; simpl in *.
  - by replace (rows w - (street p + 1) - 1) with (rows w - street p - 1 - 1)
      by lia.
  - by replace (rows w - (street p - 1) - 1 - 1) with (rows w - street p - 1)
      by lia.
  - by replace (avenue p + 1 - 1) with (avenue p) by lia.
  - done.
Qed.

Lemma set_is_blocked_run w p d wall :
  wf w → inside w p → leaves (size_of w) p d = false →
  ∃ w', World.set_is_blocked wall (Some p) (Some d) w = (Ok (), w') ∧ wf w'
    ∧ _karel w' = _karel w ∧ _ball_counts w' = _ball_counts w
    ∧ _colors w' = _colors w
    ∧ blocked w' p d = wall.
Proof.
  intros Hwf Hin Hl. pose proof Hwf as Hwf0.
  apply wf_unfold in Hwf as (HR & HC & (Hbc & Hhw & Hvw & Hcs) & Hnn & Hk).
  assert (Hstay : ¬ match d with
                    | north => street p = rows w - 1
                    | south => street p = 0
                    | east => avenue p = cols w - 1
                    | west => avenue p = 0
                    end).
  { intros E. apply (leaves_spec w p d Hin) in E. congruence. }
  destruct Hin as [Ha Hs].
  assert (Hh : ∀ i, 0 ≤ i < rows w - 1 →
    ∃ hw', grid_setitem (_horizontal_walls w) i (avenue p) wall = Ok hw'
      ∧ wf (with_horizontal_walls (λ _, hw') w)
      ∧ stored hw' i (avenue p) = Some wall).
  { intros i Hi.
    destruct (grid_setitem_in_shape _ _ _ i (avenue p) wall Hhw)
      as (hw' & Hset & Hhw' & Hnew & _); [lia..|].
    exists hw'. split_and!; try done.
    apply wf_unfold. unfold grids_shape. simpl. tauto. }
  assert (Hv : ∀ j, 0 ≤ j < cols w - 1 →
    ∃ vw', grid_setitem (_vertical_walls w) (rows w - street p - 1) j wall =
             Ok vw'
      ∧ wf (with_vertical_walls (λ _, vw') w)
      ∧ stored vw' (rows w - street p - 1) j = Some wall).
  { intros j Hj.
    destruct (grid_setitem_in_shape _ _ _ (rows w - street p - 1) j wall Hvw)
      as (vw' & Hset & Hvw' & Hnew & _); [lia..|].
    exists vw'. split_and!; try done.
    apply wf_unfold. unfold grids_shape. simpl. tauto. }
  destruct d;
    [ destruct (Hh (rows w - street p - 1 - 1)) as (g' & Hset & Hwf' & Hnew);
        [lia|]; exists (with_horizontal_walls (λ _, g') w)
    | destruct (Hh (rows w - street p - 1)) as (g' & Hset & Hwf' & Hnew);
        [lia|]; exists (with_horizontal_walls (λ _, g') w)
    | destruct (Hv (avenue p)) as (g' & Hset & Hwf' & Hnew);
        [lia|]; exists (with_vertical_walls (λ _, g') w)
    | destruct (Hv (avenue p - 1)) as (g' & Hset & Hwf' & Hnew);
        [lia|]; exists (with_vertical_walls (λ _, g') w) ];
    (split_and!; try done;
     [ unfold World.set_is_blocked; run; simpl;
       rewrite in_bounds_inside by (split; lia); simpl; run;
       match goal with
       | |- context [ (0 <=? ?k) && (?k <? ?n) ] =>
           destruct (Z.leb_spec 0 k); destruct (Z.ltb_spec k n); simpl;
             try (exfalso; lia)
       end;
       run; erewrite bind_lift_Ok by exact Hset; by run
     | unfold blocked; cbv zeta;
       cbn [_horizontal_walls _vertical_walls with_horizontal_walls
            with_vertical_walls];
       change (rows (with_horizontal_walls _ w)) with (rows w);
       change (rows (with_vertical_walls _ w)) with (rows w);
       change (cols (with_vertical_walls _ w)) with (cols w);
       rewrite Hnew; split_comparisons ]).
Qed.

(** Blocking (or clearing) an edge inside the world from one side is seen
    from the other side. *)
Lemma wall_symmetry w p d q wall :
  wf w → inside w p → AvenueAndStreet.moved p d = Ok q → inside w q →
  ∃ w', World.set_is_blocked wall (Some p) (Some d) w = (Ok (), w')
    ∧ World.is_blocked (Some p) (Some d) w' = (Ok (Some wall), w')
    ∧ World.is_blocked (Some q) (Some (Direction.turned_around d)) w' =
        (Ok (Some wall), w').
Proof.
  intros Hwf Hp Hq Hqin.
  assert (Hl : leaves (size_of w) p d = false).
  { unfold leaves. rewrite Hq. by rewrite in_bounds_inside. }
  destruct (set_is_blocked_run w p d wall Hwf Hp Hl)
    as (w' & Hrun & Hwf' & _ & Hbc & _ & Hb).
  assert (Hin' : ∀ x, inside w x → inside w' x).
  { intros x. unfold inside, rows, cols. by rewrite Hbc. }
  exists w'. split_and!; [done|..].
  - rewrite is_blocked_run by auto. by rewrite Hb.
  - rewrite is_blocked_run by auto.
    by rewrite (blocked_symmetric w' p d q), Hb by auto.
Qed.

(** ** Assigning a grid *)

Lemma _2d_arr_size_loop_Some {A} (arr : list (list A)) j r :
  _2d_arr_size_loop (len <$> arr) (Some j) = Ok r →
  r = Some j ∧ Forall (λ row, len row = j) arr.
Proof.
  induction arr as [|row arr IH]; simpl.
  - intros [= <-]. by split.
  - destruct (Z.eqb_spec j (len row)) as [E|E]; simpl; [|done].
    intros H. destruct (IH H) as [-> Hall]. split; [done|].
    by constructor.
Qed.

Lemma _2d_arr_size_Ok {A} (arr : list (list A)) isize jsize :
  _2d_arr_size arr = Ok (isize, jsize) →
  isize = len arr
  ∧ match jsize with
    | Some j => shape isize j arr ∧ 1 ≤ isize ∧ 0 ≤ j
    | None => arr = []
    end.
Proof.
  unfold _2d_arr_size.
  destruct (_2d_arr_size_loop (len <$> arr) None) as [r|e] eqn:E; simpl;
    [|done].
  intros [= <- <-]. split; [done|].
  destruct arr as [|row arr]; simpl in E.
  - by injection E as <-.
  - apply _2d_arr_size_loop_Some in E as [-> Hall].
    split_and!.
    + split; [done|]. by constructor.
    + unfold len. simpl. lia.
    + unfold len. lia.
Qed.

(** The [size] setter either resizes or raises and changes nothing. *)
Lemma set_size_total w new :
  wf w → 0 ≤ avenue new → 0 ≤ street new →
  (World.set_size new w = (Ok (), resized new w) ∧ wf (resized new w)
   ∧ rows (resized new w) = street new ∧ cols (resized new w) = avenue new)
  ∨ (∃ e, World.set_size new w = (Raise e, w)).
Proof.
  intros Hwf Ha Hs.
  destruct (decide (avenue new = 0 ∨ street new = 0)) as [Hz|Hz].
  { right. eexists. by apply set_size_rejects_zero. }
  destruct (AvenueAndStreet._in_bounds new (position (_karel w))) eqn:Hk.
  - left. apply set_size_run; done || lia.
  - right. eexists. apply set_size_rejects_robot_outside; done || lia.
Qed.

(** Assigning a wall grid or a colour grid keeps the invariants, whether
    the setter returns or raises. *)
Lemma set_horizontal_walls_grid_wf w new :
  wf w → wf (snd (World.set_horizontal_walls (Some new) w)).
Proof.
  intros Hwf. unfold World.set_horizontal_walls.
  destruct (_2d_arr_size new) as [[isize jsize]|e] eqn:E; [|done].
  apply _2d_arr_size_Ok in E as [Hi Hj].
  erewrite bind_lift_Ok by done. cbv beta iota.
  assert (Hcase : (jsize = None ∧ new = [] ∧ isize = 0)
                  ∨ ∃ j, jsize = Some j ∧ shape isize j new ∧ 1 ≤ isize ∧ 0 ≤ j).
  { destruct jsize as [j|]; [right; by exists j|left].
    subst. by split_and!. }
  destruct Hcase as [(-> & -> & ->)|(j & -> & Hshape & H1 & H0)].
  - run. simpl. rewrite new_valid by (apply wf_unfold in Hwf; lia).
    erewrite bind_lift_Ok by done.
    destruct (set_size_total w (MkAvenueAndStreet (cols w) 1) Hwf)
      as [(Hrun & Hwf' & ER & EC)|[e Hrun]];
      [apply wf_unfold in Hwf; simpl; lia | simpl; lia | |].
    + erewrite bind_Ok by exact Hrun. simpl.
      apply wf_unfold in Hwf' as (HR & HC & (Hbc & _ & Hvw & Hcs) & Hnn & Hk).
      apply wf_unfold. unfold grids_shape, inside in *.
      change (rows (with_horizontal_walls _ ?x)) with (rows x).
      change (cols (with_horizontal_walls _ ?x)) with (cols x).
      simpl in *. split_and!; try tauto.
      rewrite ER. by split.
    + by erewrite bind_Raise by exact Hrun.
  - destruct (Z.eqb_spec isize 0); [lia|]. run.
    rewrite new_valid by lia. erewrite bind_lift_Ok by done.
    destruct (set_size_total w (MkAvenueAndStreet j (isize + 1)) Hwf)
      as [(Hrun & Hwf' & ER & EC)|[e Hrun]]; [simpl; lia..| |].
    + erewrite bind_Ok by exact Hrun. simpl.
      apply wf_unfold in Hwf' as (HR & HC & (Hbc & _ & Hvw & Hcs) & Hnn & Hk).
      apply wf_unfold. unfold grids_shape, inside in *.
      change (rows (with_horizontal_walls _ ?x)) with (rows x).
      change (cols (with_horizontal_walls _ ?x)) with (cols x).
      simpl in *. split_and!; try tauto.
      rewrite ER, EC. by replace (isize + 1 - 1) with isize by lia.
    + by erewrite bind_Raise by exact Hrun.
Qed.

Lemma set_vertical_walls_grid_wf w new :
  wf w → wf (snd (World.set_vertical_walls (Some new) w)).
Proof.
  intros Hwf. unfold World.set_vertical_walls.
  destruct (_2d_arr_size new) as [[isize jsize]|e] eqn:E; [|done].
  apply _2d_arr_size_Ok in E as [Hi Hj].
  erewrite bind_lift_Ok by done. cbv beta iota.
  destruct jsize as [j|]; [|done]. destruct Hj as (Hshape & H1 & H0).
  destruct (Z.eqb_spec isize 0); [lia|].
  rewrite new_valid by lia. erewrite bind_lift_Ok by done.
  destruct (set_size_total w (MkAvenueAndStreet (j + 1) isize) Hwf)
    as [(Hrun & Hwf' & ER & EC)|[e Hrun]]; [simpl; lia..| |].
  - erewrite bind_Ok by exact Hrun. simpl.
    apply wf_unfold in Hwf' as (HR & HC & (Hbc & Hhw & _ & Hcs) & Hnn & Hk).
    apply wf_unfold. unfold grids_shape, inside in *.
    change (rows (with_vertical_walls _ ?x)) with (rows x).
    change (cols (with_vertical_walls _ ?x)) with (cols x).
    simpl in *. split_and!; try tauto.
    rewrite ER, EC. by replace (j + 1 - 1) with j by lia.
  - by erewrite bind_Raise by exact Hrun.
Qed.

Lemma set_colors_grid_wf rgb_call w new :
  wf w → wf (snd (World.set_colors rgb_call (Some new) w)).
Proof.
  intros Hwf. unfold World.set_colors.
  destruct (for_each (for_each (RGB.from_str rgb_call)) new) as [cs|e];
    [|done].
  erewrite bind_lift_Ok by done.
  destruct (_2d_arr_size cs) as [[isize jsize]|e] eqn:E; [|done].
  apply _2d_arr_size_Ok in E as [Hi Hj].
  erewrite bind_lift_Ok by done. cbv beta iota.
  destruct jsize as [j|]; [|done]. destruct Hj as (Hshape & H1 & H0).
  destruct (Z.eqb_spec isize 0); [lia|].
  destruct (Z.eqb_spec j 0); [done|]. simpl.
  rewrite new_valid by lia. erewrite bind_lift_Ok by done.
  destruct (set_size_total w (MkAvenueAndStreet j isize) Hwf)
    as [(Hrun & Hwf' & ER & EC)|[e Hrun]]; [simpl; lia..| |].
  - erewrite bind_Ok by exact Hrun. simpl.
    apply wf_unfold in Hwf' as (HR & HC & (Hbc & Hhw & Hvw & _) & Hnn & Hk).
    apply wf_unfold. unfold grids_shape, inside in *.
    change (rows (with_colors _ ?x)) with (rows x).
    change (cols (with_colors _ ?x)) with (cols x).
    simpl in *. split_and!; try tauto.
    by rewrite ER, EC.
  - by erewrite bind_Raise by exact Hrun.
Qed.

(** Assigning ball counts keeps the invariants when no entry of the grid is
    negative: the setter itself never looks. *)
Lemma set_ball_counts_grid_wf w new :
  wf w → Forall (Forall (λ n, 0 ≤ n)) new →
  wf (snd (World.set_ball_counts (Some new) w)).
Proof.
  intros Hwf Hnew. unfold World.set_ball_counts.
  destruct (_2d_arr_size new) as [[isize jsize]|e] eqn:E; [|done].
  apply _2d_arr_size_Ok in E as [Hi Hj].
  erewrite bind_lift_Ok by done. cbv beta iota.
  destruct jsize as [j|]; [|done]. destruct Hj as (Hshape & H1 & H0).
  destruct (Z.eqb_spec isize 0); [lia|].
  destruct (Z.eqb_spec j 0); [done|]. simpl.
  rewrite new_valid by lia. erewrite bind_lift_Ok by done.
  destruct (set_size_total w (MkAvenueAndStreet j isize) Hwf)
    as [(Hrun & Hwf' & ER & EC)|[e Hrun]]; [simpl; lia..| |].
  - erewrite bind_Ok by exact Hrun. simpl in ER, EC.
    apply wf_with_ball_counts; [done| |done]. by rewrite ER, EC.
  - by erewrite bind_Raise by exact Hrun.
Qed.

(** ** Two short runs *)

(** One ball in a 1-by-1 world: it is there, can be taken once, and the
    second [take_ball] raises. *)
Example one_ball_taken_twice :
  World.balls_present None world_1x1 = (Ok true, world_1x1)
  ∧ (World.take_ball None;; World.no_balls_present None) world_1x1 =
      (Ok true, with_ball_counts (λ _, [[0]]) world_1x1)
  ∧ (World.take_ball None;; World.take_ball None) world_1x1 =
      (Raise (ValueError "Tried to put {new} balls at {position}"),
       with_ball_counts (λ _, [[0]]) world_1x1).
Proof. split_and!; reflexivity. Qed.

(** Two avenues, one street, the robot at (0,0) facing east: the first
    [move] arrives at (1,0), the second runs into the edge. *)
Example two_moves_on_a_street :
  let w := with_karel default_karel world_2x1 in
  World.front_is_clear w = (Ok true, w)
  ∧ World.move w = (Ok (), world_2x1)
  ∧ (World.move;; World.move) w =
      (Raise (ValueError "Tried to move Karel ({self.karel}) into a wall"), world_2x1).
Proof. split_and!; reflexivity. Qed.

(** * Further properties *)

(** ** Turning a direction *)

(** X1: the three rotations of a direction.  A left turn and a right turn
    undo each other, two left turns or two right turns are a turn around,
    turning around twice or turning left four times gives the direction
    back, and no turn leaves a direction where it was. *)
Theorem direction_rotations (d : Direction) :
  Direction.turned_right (Direction.turned_left d) = d
  ∧ Direction.turned_left (Direction.turned_right d) = d
  ∧ Direction.turned_around (Direction.turned_around d) = d
  ∧ Direction.turned_left (Direction.turned_left d) = Direction.turned_around d
  ∧ Direction.turned_right (Direction.turned_right d) = Direction.turned_around d
  ∧ Direction.turned_left (Direction.turned_left
      (Direction.turned_left (Direction.turned_left d))) = d
  ∧ Direction.turned_left d ≠ d
  ∧ Direction.turned_right d ≠ d
  ∧ Direction.turned_around d ≠ d.
Proof. destruct d; split_and!; done. Qed.

(** ** Stepping back *)

Lemma moved_back p d q :
  AvenueAndStreet.valid p → AvenueAndStreet.moved p d = Ok q →
  AvenueAndStreet.moved q (Direction.turned_around d) = Ok p.
Proof.
  intros [Ha Hs] Hq.
  rewrite moved_cases in Hq by (unfold AvenueAndStreet.valid; lia).
  destruct p as [a s]. simpl in *.
  destruct d; simpl in Hq;
    repeat match type of Hq with
      | context [ ?x =? ?y ] => destruct (Z.eqb_spec x y); [done|]
      end;
    injection Hq as <-;
    rewrite moved_cases by (unfold AvenueAndStreet.valid; simpl; lia);
    simpl;
    repeat match goal with
      | |- context [ ?x =? ?y ] => destruct (Z.eqb_spec x y); [lia|]
      end;
    do 2 f_equal; lia.
Qed.

(** X2: a step that [moved] accepts is undone by a step the other way:
    from the position it returns, [moved] towards the opposite direction
    returns the position one started from. *)
Theorem moved_then_moved_back (p q : AvenueAndStreet) (d : Direction) :
  AvenueAndStreet.valid p → AvenueAndStreet.moved p d = Ok q →
  AvenueAndStreet.valid q
  ∧ AvenueAndStreet.moved q (Direction.turned_around d) = Ok p.
Proof.
  intros Hp Hq. split; [|by apply moved_back].
  destruct d; unfold AvenueAndStreet.moved, AvenueAndStreet.with_street,
    AvenueAndStreet.with_avenue in Hq; by apply new_Ok_valid in Hq as [_ ?].
Qed.

Lemma moved_then_moved_back_witness :
  AvenueAndStreet.valid (MkAvenueAndStreet 3 1)
  ∧ AvenueAndStreet.moved (MkAvenueAndStreet 3 0) north =
      Ok (MkAvenueAndStreet 3 1)
  ∧ AvenueAndStreet.moved (MkAvenueAndStreet 3 1) south =
      Ok (MkAvenueAndStreet 3 0).
Proof.
  assert (Hp : AvenueAndStreet.valid (MkAvenueAndStreet 3 0)).
  { unfold AvenueAndStreet.valid. simpl. lia. }
  assert (Hq : AvenueAndStreet.moved (MkAvenueAndStreet 3 0) north =
               Ok (MkAvenueAndStreet 3 1)) by reflexivity.
  destruct (moved_then_moved_back _ _ north Hp Hq) as [Hv Hback].
  split_and!; [exact Hv | exact Hq | exact Hback].
Defined.

(** ** Colour text *)

Lemma ascii_lower_idempotent a : ascii_lower (ascii_lower a) = ascii_lower a.
Proof. destruct a as [[] [] [] [] [] [] [] []]; reflexivity. Qed.

Lemma lower_idempotent s : lower (lower s) = lower s.
Proof.
  induction s as [|a s IH]; simpl; [done|].
  by rewrite ascii_lower_idempotent, IH.
Qed.

(** X3: [RGB.from_str] does not see the case of a text: a text and its
    lower-case form resolve alike, whatever the parser makes of them, so
    two texts with the same lower-case form do. *)
Theorem from_str_ignores_case (rgb_call : string → option (Z * Z * Z))
    (s t : string) :
  RGB.from_str rgb_call (Str s) = RGB.from_str rgb_call (Str (lower s))
  ∧ (lower s = lower t →
     RGB.from_str rgb_call (Str s) = RGB.from_str rgb_call (Str t)).
Proof.
  split.
  - unfold RGB.from_str. by rewrite lower_idempotent.
  - intros E. unfold RGB.from_str. by rewrite E.
Qed.

Lemma from_str_ignores_case_witness :
  lower "RED" = lower "Red"
  ∧ RGB.from_str no_rgb_call (Str "RED") = RGB.from_str no_rgb_call (Str "Red").
Proof.
  assert (E : lower "RED" = lower "Red") by reflexivity.
  split; [exact E|].
  exact (proj2 (from_str_ignores_case no_rgb_call "RED" "Red") E).
Defined.

Lemma new_Ok_valid_rgb x y z c :
  RGB.new x y z = Ok c → c = MkRGB x y z ∧ valid_rgb c.
Proof.
  unfold RGB.new, valid_rgb.
  destruct (Z.leb_spec 0 x), (Z.leb_spec x 255), (Z.leb_spec 0 y),
    (Z.leb_spec y 255), (Z.leb_spec 0 z), (Z.leb_spec z 255); simpl;
    try done.
  intros [= <-]. simpl. split; [done|lia].
Qed.

Lemma new_valid_rgb x y z :
  0 ≤ x ≤ 255 → 0 ≤ y ≤ 255 → 0 ≤ z ≤ 255 → RGB.new x y z = Ok (MkRGB x y z).
Proof.
  intros Hx Hy Hz. unfold RGB.new.
  destruct (Z.leb_spec 0 x), (Z.leb_spec x 255), (Z.leb_spec 0 y),
    (Z.leb_spec y 255), (Z.leb_spec 0 z), (Z.leb_spec z 255); simpl;
    done || lia.
Qed.

Lemma color_table_valid : Forall (λ kv, valid_rgb kv.2) color.
Proof.
  unfold color, valid_rgb. repeat constructor; simpl; lia.
Qed.

Lemma dict_get_Forall {V} (P : V → Prop) (d : list (string * V)) k v :
  Forall (λ kv, P kv.2) d → dict_get d k = Some v → P v.
Proof.
  induction d as [|[k' v'] d IH]; simpl; [done|].
  intros Hd. apply Forall_cons in Hd as [Hv Hd].
  destruct (String.eqb k' k); [by intros [= <-]|by apply IH].
Qed.

(** X4: a colour that [RGB.from_str] makes out of a text is a validated
    one: whether it comes from the name table, from a hexadecimal form or
    from an [rgb(...)] call, each of its channels lies in 0..255. *)
Theorem from_str_text_valid (rgb_call : string → option (Z * Z * Z))
    (s : string) (c : RGB) :
  RGB.from_str rgb_call (Str s) = Ok c → valid_rgb c.
Proof.
  unfold RGB.from_str.
  destruct (dict_get color (lower s)) as [v|] eqn:Ht.
  - intros [= <-]. by apply (dict_get_Forall _ _ _ _ color_table_valid Ht).
  - destruct (RGB.hex_channels (lower s)) as [[[x y] z]|].
    + intros H. by apply new_Ok_valid_rgb in H as [_ ?].
    + destruct (rgb_call (lower s)) as [[[x y] z]|]; [|done].
      intros H. by apply new_Ok_valid_rgb in H as [_ ?].
Qed.

Lemma from_str_text_valid_witness :
  RGB.from_str no_rgb_call (Str "Orange") = Ok (MkRGB 255 165 0)
  ∧ valid_rgb (MkRGB 255 165 0).
Proof.
  assert (H : RGB.from_str no_rgb_call (Str "Orange") = Ok (MkRGB 255 165 0))
    by reflexivity.
  split; [exact H|].
  exact (from_str_text_valid _ _ _ H).
Defined.




Lemma hex_value_lower a v :
  hex_value a = Some v → hex_value (ascii_lower a) = Some v.
Proof.
  destruct a as [[] [] [] [] [] [] [] []]; vm_compute; congruence.
Qed.

Lemma not_a_color_name a s : dict_get color (String "#" (String a s)) = None.
Proof. reflexivity. Qed.

(** X6: the short hexadecimal form doubles each digit.  For three
    characters with hexadecimal values [x], [y], [z], in either case, the
    text [#xyz] and the text [#xxyyzz] both resolve to
    [RGB(17x, 17y, 17z)]. *)
Theorem short_hex_doubles_digits (rgb_call : string → option (Z * Z * Z))
    (a1 a2 a3 : ascii) (x y z : Z) :
  hex_value a1 = Some x → hex_value a2 = Some y → hex_value a3 = Some z →
  0 ≤ x < 16 → 0 ≤ y < 16 → 0 ≤ z < 16 →
  RGB.from_str rgb_call
    (Str (String "#" (String a1 (String a2 (String a3 EmptyString))))) =
    Ok (MkRGB (17 * x) (17 * y) (17 * z))
  ∧ RGB.from_str rgb_call
      (Str (String "#" (String a1 (String a1 (String a2 (String a2
         (String a3 (String a3 EmptyString)))))))) =
    Ok (MkRGB (17 * x) (17 * y) (17 * z)).
Proof.
  intros H1 H2 H3 Hx Hy Hz.
  apply hex_value_lower in H1, H2, H3.
  unfold RGB.from_str. cbn [lower].
  change (ascii_lower "#") with "#"%char.
  rewrite !not_a_color_name. unfold RGB.hex_channels.
  rewrite H1, H2, H3.
  replace (16 * x + x) with (17 * x) by lia.
  replace (16 * y + y) with (17 * y) by lia.
  replace (16 * z + z) with (17 * z) by lia.
  split; apply new_valid_rgb; lia.
Qed.

Lemma short_hex_doubles_digits_witness :
  RGB.from_str no_rgb_call (Str "#Fa0") = Ok (MkRGB 255 170 0)
  ∧ RGB.from_str no_rgb_call (Str "#FFaa00") = Ok (MkRGB 255 170 0).
Proof.
  apply (short_hex_doubles_digits no_rgb_call "F" "a" "0" 15 10 0);
    first [reflexivity | lia].
Defined.

Lemma hex_digit_value k :
  0 ≤ k < 16 →
  hex_value (hex_digit k) = Some k ∧ ascii_lower (hex_digit k) = hex_digit k.
Proof.
  intros Hk.
  assert (k = 0 ∨ k = 1 ∨ k = 2 ∨ k = 3 ∨ k = 4 ∨ k = 5 ∨ k = 6 ∨ k = 7
          ∨ k = 8 ∨ k = 9 ∨ k = 10 ∨ k = 11 ∨ k = 12 ∨ k = 13 ∨ k = 14
          ∨ k = 15) as Hcases by lia.
  repeat (destruct Hcases as [->|Hcases]; [by vm_compute|]).
  subst. by vm_compute.
Qed.

Lemma format_02x_byte n :
  0 ≤ n ≤ 255 →
  format_02x n =
    String (hex_digit (n / 16)) (String (hex_digit (n mod 16)) EmptyString).
Proof.
  intros Hn. unfold format_02x, format_x.
  destruct (Z.ltb_spec n 0); [lia|].
  destruct (Z.ltb_spec n 16) as [Hlt|Hge].
  - rewrite Z.div_small, Z.mod_small by lia.
    cbn [hex_digits]. destruct (Z.ltb_spec n 16); [|lia]. reflexivity.
  - assert (Hfuel : ∃ k, Z.to_nat n = S k) by (exists (Z.to_nat n - 1)%nat; lia).
    destruct Hfuel as [k ->]. cbn [hex_digits].
    destruct (Z.ltb_spec n 16); [lia|].
    destruct (Z.ltb_spec (n / 16) 16) as [_|Hbig].
    + reflexivity.
    + exfalso. assert (n / 16 < 16) by (apply Z.div_lt_upper_bound; lia). lia.
Qed.

(** X7: printing a colour and reading it back.  For a colour value with
    every channel in 0..255, [str(c)] is [#] followed by six lower-case
    hexadecimal digits, and [RGB.from_str] resolves that text to [c] again,
    without asking the parser. *)
Theorem str_then_from_str (rgb_call : string → option (Z * Z * Z)) (c : RGB) :
  valid_rgb c →
  String.length (__str__ c) = 7%nat
  ∧ lower (__str__ c) = __str__ c
  ∧ RGB.from_str rgb_call (Str (__str__ c)) = Ok c.
Proof.
  intros (Hr & Hg & Hb). destruct c as [x y z]. simpl in *.
  unfold __str__. cbn [r g b].
  rewrite !format_02x_byte by lia.
  assert (Hd : ∀ n, 0 ≤ n ≤ 255 → 0 ≤ n / 16 < 16 ∧ 0 ≤ n mod 16 < 16).
  { intros n Hn. split.
    - split; [apply Z.div_pos; lia | apply Z.div_lt_upper_bound; lia].
    - apply Z.mod_pos_bound. lia. }
  destruct (Hd x Hr) as [Hx1 Hx2], (Hd y Hg) as [Hy1 Hy2],
    (Hd z Hb) as [Hz1 Hz2].
  destruct (hex_digit_value _ Hx1) as [Vx1 Lx1],
    (hex_digit_value _ Hx2) as [Vx2 Lx2],
    (hex_digit_value _ Hy1) as [Vy1 Ly1],
    (hex_digit_value _ Hy2) as [Vy2 Ly2],
    (hex_digit_value _ Hz1) as [Vz1 Lz1],
    (hex_digit_value _ Hz2) as [Vz2 Lz2].
  unfold String.append.
  set (text := String "#" _).
  assert (Hlow : lower text = text).
  { unfold text. cbn [lower]. change (ascii_lower "#") with "#"%char.
    by rewrite Lx1, Lx2, Ly1, Ly2, Lz1, Lz2. }
  assert (Hfrom : RGB.from_str rgb_call (Str text) = Ok (MkRGB x y z)).
  { unfold RGB.from_str. rewrite Hlow. unfold text.
    rewrite not_a_color_name. unfold RGB.hex_channels.
    rewrite Vx1, Vx2, Vy1, Vy2, Vz1, Vz2.
    rewrite <- !Z.div_mod by lia.
    apply new_valid_rgb; lia. }
  split; [reflexivity|]. split; [exact Hlow | exact Hfrom].
Qed.

Lemma str_then_from_str_witness :
  valid_rgb (MkRGB 155 48 255)
  ∧ __str__ (MkRGB 155 48 255) = "#9b30ff"
  ∧ RGB.from_str no_rgb_call (Str (__str__ (MkRGB 155 48 255))) =
      Ok (MkRGB 155 48 255).
Proof.
  assert (H : valid_rgb (MkRGB 155 48 255)).
  { unfold valid_rgb. simpl. lia. }
  split_and!; [exact H | reflexivity |].
  apply (str_then_from_str no_rgb_call (MkRGB 155 48 255) H).
Defined.

(** ** The 2-D array helpers *)

Lemma _2d_arr_size_loop_rows {A} (rest : list (list A)) j :
  _2d_arr_size_loop (len <$> rest) (Some j) =
    if forallb (λ row, len row =? j) rest then Ok (Some j)
    else Raise (ValueError "{arr!r} is not a valid 2D array").
Proof.
  induction rest as [|row rest IH]; simpl; [done|].
  rewrite (Z.eqb_sym (len row) j).
  destruct (j =? len row); simpl; [apply IH | done].
Qed.

(** X8: [_2d_arr_size] in closed form.  On an empty list it returns
    [(0, None)]; otherwise it returns the number of rows and the length of
    the first row when every row has that length, and raises [ValueError]
    as soon as one row differs. *)
Theorem _2d_arr_size_closed_form {A} (arr : list (list A)) :
  _2d_arr_size arr =
    match arr with
    | [] => Ok (0, None)
    | row :: rest =>
        if forallb (λ row', len row' =? len row) rest
        then Ok (len arr, Some (len row))
        else Raise (ValueError "{arr!r} is not a valid 2D array")
    end.
Proof.
  destruct arr as [|row rest]; [done|].
  unfold _2d_arr_size. cbn [fmap list_fmap _2d_arr_size_loop].
  rewrite _2d_arr_size_loop_rows.
  by destruct (forallb _ rest).
Qed.

Lemma for_each_check_rows {A} (arr : list (list A)) jsize name :
  (∃ us, for_each (λ length,
            if negb (length =? jsize)
            then Raise (ValueError ("Expected {jsize} elements in " +:+ name
                           +:+ "[{idx}], found {length}"))
            else Ok ()) (len <$> arr) = Ok us)
  ↔ Forall (λ row, len row = jsize) arr.
Proof.
  induction arr as [|row arr IH]; simpl.
  - split; [by constructor | by eexists].
  - change (list_fmap (list A) Z len arr) with (len <$> arr).
    rewrite Forall_cons, <- IH.
    destruct (Z.eqb_spec (len row) jsize) as [E|E]; simpl.
    + split.
      * intros [us Hus]. split; [done|].
        destruct (for_each _ (len <$> arr)) as [us'|]; [by eexists|done].
      * intros [_ [us Hus]]. rewrite Hus. by eexists.
    + split; [by intros [us ?] | by intros [? _]].
Qed.

Lemma for_each_check_rows_raise {A} (arr : list (list A)) jsize name e :
  for_each (λ length,
      if negb (length =? jsize)
      then Raise (ValueError ("Expected {jsize} elements in " +:+ name
                     +:+ "[{idx}], found {length}"))
      else Ok ()) (len <$> arr) = Raise e →
  ∃ msg, e = ValueError msg.
Proof.
  induction arr as [|row arr IH]; simpl; [done|].
  change (list_fmap (list A) Z len arr) with (len <$> arr).
  destruct (negb (len row =? jsize)); simpl.
  - intros [= <-]. by eexists.
  - destruct (for_each _ (len <$> arr)) as [us|e'']; simpl; [done|].
    intros [= <-]. by apply IH.
Qed.

(** X9: [_ensure_size] returns exactly on the grids of the shape asked
    for: [isize] rows, each of [jsize] entries; on every other grid it
    raises [ValueError]. *)
Theorem _ensure_size_accepts_shape {A} (arr : list (list A)) (isize jsize : Z)
    (name : string) :
  (_ensure_size arr isize jsize name = Ok () ↔ shape isize jsize arr)
  ∧ (∀ e, _ensure_size arr isize jsize name = Raise e → ∃ msg, e = ValueError msg).
Proof.
  unfold _ensure_size, shape.
  destruct (Z.eqb_spec (len arr) isize) as [E|E]; simpl.
  - pose proof (for_each_check_rows arr jsize name) as Hrows.
    pose proof (for_each_check_rows_raise arr jsize name) as Hraise.
    destruct (for_each _ (len <$> arr)) as [us|e] eqn:Hfor; simpl.
    + split; [|done]. split; [|done]. intros _. split; [done|].
      apply Hrows. by eexists.
    + split.
      * split; [done|]. intros [_ Hall]. apply Hrows in Hall as [us ?]. done.
      * intros e' [= <-]. by apply Hraise.
  - split; [|intros e [= <-]; by eexists].
    split; [done | by intros [? _]].
Qed.

(** ** Copies *)

(** X10: [copy] (so [__copy__] and [__deepcopy__] too) and
    [empty_world_with_size] hand their arguments to the constructor, and
    the constructor raises on every input: neither ever returns a world,
    and [copy] leaves the world it was asked to copy untouched. *)
Theorem copy_never_returns (rgb_call : string → option (Z * Z * Z)) :
  (∀ w : World, ∃ e, World.copy rgb_call w = (Raise e, w))
  ∧ (∀ size karel, ∃ e, World.empty_world_with_size rgb_call size karel = Raise e).
Proof.
  split.
  - intros w. unfold World.copy.
    destruct (init_never_returns rgb_call (_karel w) (_ball_counts w)
                (Some (_horizontal_walls w)) (Some (_vertical_walls w))
                (Some (fmap (M:=list) Rgb <$> _colors w))) as [e ->].
    by exists e.
  - intros size karel. apply init_never_returns.
Qed.

(** ** Positions outside the world *)

(** X11: every cell operation checks the position first.  In a world with
    at least one row, at a position not below the size in both coordinates,
    [ball_count], [color_at], [is_blocked] and [is_clear] raise the
    "Position to query" [IndexError], and [set_ball_count], [paint],
    [set_is_blocked] and [set_is_clear] raise the "Position to set"
    [IndexError], whatever their other arguments are - a negative count and
    a text colour included; the world stays as it was. *)
Theorem position_out_of_range_raises (w : World) (p : AvenueAndStreet)
    (n : Z) (new : str_or_RGB) (d : option Direction) (wall : bool) :
  1 ≤ rows w →
  AvenueAndStreet._in_bounds (size_of w) p = false →
  World.ball_count (Some p) w =
    (Raise (IndexError "Position to query ({position}) out of range"), w)
  ∧ World.color_at (Some p) w =
    (Raise (IndexError "Position to query ({position}) out of range"), w)
  ∧ World.is_blocked (Some p) d w =
    (Raise (IndexError "Position to query ({position}) out of range"), w)
  ∧ World.is_clear (Some p) d w =
    (Raise (IndexError "Position to query ({position}) out of range"), w)
  ∧ World.set_ball_count n (Some p) w =
    (Raise (IndexError "Position to set ({position}) out of range"), w)
  ∧ World.paint new (Some p) w =
    (Raise (IndexError "Position to set ({position}) out of range"), w)
  ∧ World.set_is_blocked wall (Some p) d w =
    (Raise (IndexError "Position to set ({position}) out of range"), w)
  ∧ World.set_is_clear wall (Some p) d w =
    (Raise (IndexError "Position to set ({position}) out of range"), w).
Proof.
  intros HR Hout.
  assert (Hblocked : World.is_blocked (Some p) d w =
    (Raise (IndexError "Position to query ({position}) out of range"), w)).
  { unfold World.is_blocked. run. simpl. by rewrite Hout. }
  assert (Hset : ∀ b, World.set_is_blocked b (Some p) d w =
    (Raise (IndexError "Position to set ({position}) out of range"), w)).
  { intros b. unfold World.set_is_blocked. run. simpl. by rewrite Hout. }
  split_and!.
  - unfold World.ball_count. run. simpl. by rewrite Hout.
  - unfold World.color_at. run. simpl. by rewrite Hout.
  - exact Hblocked.
  - unfold World.is_clear. by erewrite bind_Raise by exact Hblocked.
  - unfold World.set_ball_count. run. simpl. by rewrite Hout.
  - unfold World.paint. run. simpl. by rewrite Hout.
  - apply Hset.
  - unfold World.set_is_clear. apply Hset.
Qed.

Lemma position_out_of_range_raises_witness :
  1 ≤ rows world_3x2
  ∧ AvenueAndStreet._in_bounds (size_of world_3x2) (MkAvenueAndStreet 3 0) =
      false
  ∧ World.set_ball_count (-1) (Some (MkAvenueAndStreet 3 0)) world_3x2 =
      (Raise (IndexError "Position to set ({position}) out of range"),
       world_3x2).
Proof.
  assert (H1 : 1 ≤ rows world_3x2) by (unfold rows, len; simpl; lia).
  assert (H2 : AvenueAndStreet._in_bounds (size_of world_3x2)
                 (MkAvenueAndStreet 3 0) = false) by reflexivity.
  split_and!; [exact H1 | exact H2 |].
  apply (position_out_of_range_raises world_3x2 (MkAvenueAndStreet 3 0) (-1)
           (Str "red") None true H1 H2).
Defined.

(** ** Sizes that are refused *)

(** X12: the [size] setter refuses before it touches anything.  A new size
    with a zero dimension raises the "0 as a dimension" [ValueError]; a new
    size without one that does not contain the robot raises the "out of
    bounds" [ValueError]; in both cases the world is exactly as it was. *)
Theorem set_size_refuses_untouched (w : World) (new : AvenueAndStreet) :
  (avenue new = 0 ∨ street new = 0 →
   World.set_size new w =
     (Raise (ValueError "New size cannot have 0 as a dimension (new size = {new})"),
      w))
  ∧ (avenue new ≠ 0 → street new ≠ 0 →
     AvenueAndStreet._in_bounds new (position (_karel w)) = false →
     World.set_size new w = (Raise (ValueError karel_out_of_bounds), w)).
Proof.
  split.
  - apply set_size_rejects_zero.
  - apply set_size_rejects_robot_outside.
Qed.

Lemma set_size_refuses_untouched_witness :
  World.set_size (MkAvenueAndStreet 0 5) world_3x2 =
    (Raise (ValueError "New size cannot have 0 as a dimension (new size = {new})"),
     world_3x2)
  ∧ World.set_size (MkAvenueAndStreet 1 5) world_3x2 =
    (Raise (ValueError karel_out_of_bounds), world_3x2).
Proof.
  split.
  - apply (set_size_refuses_untouched world_3x2 (MkAvenueAndStreet 0 5)).
    left. reflexivity.
  - apply (set_size_refuses_untouched world_3x2 (MkAvenueAndStreet 1 5));
      [discriminate | discriminate | reflexivity].
Defined.

(** ** Grids with the same cells *)

Lemma grid_ext {A} (R C : Z) (g g' : list (list A)) :
  shape R C g → shape R C g' →
  (∀ i j, 0 ≤ i < R → 0 ≤ j < C → stored g i j = stored g' i j) →
  g = g'.
Proof.
  intros [HR Hrows] [HR' Hrows'] Hcells. unfold len in *.
  apply list_eq. intros i.
  destruct (decide (i < length g)%nat) as [Hi|Hi].
  - destruct (lookup_lt_is_Some_2 g i Hi) as [row Hrow].
    destruct (lookup_lt_is_Some_2 g' i ltac:(lia)) as [row' Hrow'].
    rewrite Hrow, Hrow'. f_equal.
    pose proof (Forall_lookup_1 _ _ _ _ Hrows Hrow) as Hlen.
    pose proof (Forall_lookup_1 _ _ _ _ Hrows' Hrow') as Hlen'.
    simpl in Hlen, Hlen'. unfold len in *.
    apply list_eq. intros j.
    destruct (decide (j < length row)%nat) as [Hj|Hj].
    + specialize (Hcells (Z.of_nat i) (Z.of_nat j) ltac:(lia) ltac:(lia)).
      unfold stored in Hcells. rewrite !Nat2Z.id, Hrow, Hrow' in Hcells.
      exact Hcells.
    + rewrite !lookup_ge_None_2 by lia. done.
  - rewrite !lookup_ge_None_2 by lia. done.
Qed.

Lemma world_eq w w' :
  _karel w' = _karel w → _ball_counts w' = _ball_counts w →
  _horizontal_walls w' = _horizontal_walls w →
  _vertical_walls w' = _vertical_walls w → _colors w' = _colors w →
  w' = w.
Proof. destruct w, w'. simpl. by intros -> -> -> -> ->. Qed.

(** Writing [n] where [m] was written. *)
Lemma set_ball_count_twice w p m n :
  wf w → inside w p → 0 ≤ m → 0 ≤ n →
  ∃ w1 w2, World.set_ball_count m (Some p) w = (Ok (), w1)
    ∧ World.set_ball_count n (Some p) w1 = (Ok (), w2)
    ∧ World.set_ball_count n (Some p) w = (Ok (), w2)
    ∧ wf w1 ∧ _karel w1 = _karel w.
Proof.
  intros Hwf Hin Hm Hn.
  destruct (set_ball_count_run w p m Hwf Hin Hm)
    as (w1 & Hrun1 & Hwf1 & ER1 & EC1 & Hk1 & Hhw1 & Hvw1 & Hcs1 & Hnew1 & Hold1).
  assert (Hin1 : inside w1 p) by (unfold inside; by rewrite ER1, EC1).
  destruct (set_ball_count_run w1 p n Hwf1 Hin1 Hn)
    as (w2 & Hrun2 & Hwf2 & ER2 & EC2 & Hk2 & Hhw2 & Hvw2 & Hcs2 & Hnew2 & Hold2).
  destruct (set_ball_count_run w p n Hwf Hin Hn)
    as (w3 & Hrun3 & Hwf3 & ER3 & EC3 & Hk3 & Hhw3 & Hvw3 & Hcs3 & Hnew3 & Hold3).
  exists w1, w2. split_and!; try done.
  rewrite Hrun3. f_equal. symmetry.
  apply world_eq; try congruence.
  apply wf_unfold in Hwf2 as (_ & _ & (Hbc2 & _) & _).
  apply wf_unfold in Hwf3 as (_ & _ & (Hbc3 & _) & _).
  rewrite ER2, EC2, ER1, EC1 in Hbc2. rewrite ER3, EC3 in Hbc3.
  apply (grid_ext _ _ _ _ Hbc2 Hbc3). intros i j Hi Hj.
  destruct (decide ((i, j) = (rows w - street p - 1, avenue p))) as [[= -> ->]|Hne].
  - rewrite ER1 in Hnew2. by rewrite Hnew2, Hnew3.
  - rewrite ER1 in Hold2. rewrite Hold2, Hold1, Hold3 by (done || lia). done.
Qed.

Lemma set_ball_count_same w p n :
  wf w → inside w p →
  World.ball_count (Some p) w = (Ok n, w) →
  World.set_ball_count n (Some p) w = (Ok (), w).
Proof.
  intros Hwf Hin Hcount.
  destruct (ball_count_value w p Hwf Hin) as (n' & Hn & Hcount' & Hstored).
  assert (n' = n) as -> by congruence.
  destruct (set_ball_count_run w p n Hwf Hin Hn)
    as (w1 & Hrun1 & Hwf1 & ER1 & EC1 & Hk1 & Hhw1 & Hvw1 & Hcs1 & Hnew1 & Hold1).
  rewrite Hrun1. f_equal. apply world_eq; try done.
  apply wf_unfold in Hwf1 as (_ & _ & (Hbc1 & _) & _).
  apply wf_unfold in Hwf as (_ & _ & (Hbc & _) & _).
  rewrite ER1, EC1 in Hbc1.
  apply (grid_ext _ _ _ _ Hbc1 Hbc). intros i j Hi Hj.
  destruct (decide ((i, j) = (rows w - street p - 1, avenue p))) as [[= -> ->]|Hne].
  - by rewrite Hnew1, Hstored.
  - by rewrite Hold1 by (done || lia).
Qed.

Lemma put_ball_run w given n :
  World.ball_count (Some (default (position (_karel w)) given)) w = (Ok n, w) →
  World.put_ball given w =
    World.set_ball_count (n + 1) (Some (default (position (_karel w)) given)) w
  ∧ World.take_ball given w =
    World.set_ball_count (n - 1) (Some (default (position (_karel w)) given)) w.
Proof.
  intros Hcount. unfold World.put_ball, World.take_ball. split; by run.
Qed.

(** X13: putting a ball and taking it again leaves the world exactly as
    it was, at the robot's position or at any given position inside; so
    does taking a ball and putting it back where there is one to take. *)
Theorem put_ball_take_ball_round_trip (w : World)
    (given : option AvenueAndStreet) :
  wf w →
  let p := default (position (_karel w)) given in
  inside w p →
  (World.put_ball given;; World.take_ball given) w = (Ok (), w)
  ∧ (fst (World.ball_count (Some p) w) ≠ Ok 0 →
     (World.take_ball given;; World.put_ball given) w = (Ok (), w)).
Proof.
  intros Hwf p Hin.
  destruct (ball_count_value w p Hwf Hin) as (n & Hn & Hcount & _).
  assert (Hback : ∀ m, 0 ≤ m →
    ∃ w1, World.set_ball_count m (Some p) w = (Ok (), w1)
      ∧ World.ball_count (Some (default (position (_karel w1)) given)) w1 =
          (Ok m, w1)
      ∧ World.set_ball_count n
          (Some (default (position (_karel w1)) given)) w1 = (Ok (), w)).
  { intros m Hm.
    destruct (set_ball_count_twice w p m n Hwf Hin Hm Hn)
      as (w1 & w2 & Hrun1 & Hrun2 & Hrun & Hwf1 & Hk1).
    destruct (set_ball_count_spec w p m Hwf Hin Hm)
      as (w1' & Hrun1' & _ & _ & Hread & _).
    assert (w1' = w1) as -> by congruence.
    exists w1. rewrite Hk1. fold p. split_and!; [done..|].
    rewrite Hrun2, <- Hrun. by apply set_ball_count_same. }
  split.
  - destruct (Hback (n + 1) ltac:(lia)) as (w1 & Hset & Hread & Hrestore).
    erewrite bind_Ok
      by (rewrite (proj1 (put_ball_run w given n Hcount)); exact Hset).
    rewrite (proj2 (put_ball_run w1 given (n + 1) Hread)).
    by replace (n + 1 - 1) with n by lia.
  - intros Hne. rewrite Hcount in Hne. simpl in Hne.
    assert (n ≠ 0) by congruence.
    destruct (Hback (n - 1) ltac:(lia)) as (w1 & Hset & Hread & Hrestore).
    erewrite bind_Ok
      by (rewrite (proj2 (put_ball_run w given n Hcount)); exact Hset).
    rewrite (proj1 (put_ball_run w1 given (n - 1) Hread)).
    by replace (n - 1 + 1) with n by lia.
Qed.

Lemma put_ball_take_ball_round_trip_witness :
  wf world_3x2 ∧ inside world_3x2 (MkAvenueAndStreet 1 0)
  ∧ (World.put_ball None;; World.take_ball None) world_3x2 =
      (Ok (), world_3x2).
Proof.
  assert (H1 : wf world_3x2) by reflexivity.
  assert (H2 : inside world_3x2 (MkAvenueAndStreet 1 0)).
  { unfold inside, cols, rows, len. simpl. lia. }
  split_and!; [exact H1 | exact H2 |].
  exact (proj1 (put_ball_take_ball_round_trip world_3x2 None H1 H2)).
Defined.

(** X14: [set_ball_count] writes one cell.  With a count that is not
    negative it returns, [ball_count] at that position then reads the count
    written, every other position reads as before, and nothing but the ball
    counts changes; a later write at the same position makes the earlier
    one as if it had not happened.  With a negative count it raises
    [ValueError] and changes nothing. *)
Theorem set_ball_count_writes_one_cell (w : World) (p : AvenueAndStreet)
    (m n : Z) :
  wf w → inside w p →
  (0 ≤ n →
   ∃ w', World.set_ball_count n (Some p) w = (Ok (), w') ∧ wf w'
     ∧ same_but_ball_counts w w'
     ∧ World.ball_count (Some p) w' = (Ok n, w')
     ∧ (∀ q, inside w q → q ≠ p →
          fst (World.ball_count (Some q) w') =
          fst (World.ball_count (Some q) w))
     ∧ (0 ≤ m →
        (World.set_ball_count m (Some p);; World.set_ball_count n (Some p)) w =
          (Ok (), w')))
  ∧ (n < 0 →
     World.set_ball_count n (Some p) w =
       (Raise (ValueError "Tried to put {new} balls at {position}"), w)).
Proof.
  intros Hwf Hin. split.
  - intros Hn.
    destruct (set_ball_count_spec w p n Hwf Hin Hn)
      as (w' & Hrun & Hwf' & Hsame & Hread & Hothers).
    exists w'. split_and!; try done.
    intros Hm.
    destruct (set_ball_count_twice w p m n Hwf Hin Hm Hn)
      as (w1 & w2 & Hrun1 & Hrun2 & Hrun' & _).
    erewrite bind_Ok by exact Hrun1. rewrite Hrun2. congruence.
  - intros Hn. by apply set_ball_count_negative.
Qed.

Lemma set_ball_count_writes_one_cell_witness :
  wf world_3x2 ∧ inside world_3x2 (MkAvenueAndStreet 0 1)
  ∧ World.set_ball_count (-2) (Some (MkAvenueAndStreet 0 1)) world_3x2 =
      (Raise (ValueError "Tried to put {new} balls at {position}"), world_3x2).
Proof.
  assert (H1 : wf world_3x2) by reflexivity.
  assert (H2 : inside world_3x2 (MkAvenueAndStreet 0 1)).
  { unfold inside, cols, rows, len. simpl. lia. }
  split_and!; [exact H1 | exact H2 |].
  apply (set_ball_count_writes_one_cell world_3x2 _ 0 (-2) H1 H2). lia.
Defined.

(** ** Painting a cell *)

(** X15: [paint] with a colour value writes one cell.  At a position
    inside a well-formed world it returns; [color_at] at that position then
    reads the colour painted, every other position reads as before; the
    robot, the ball counts and both wall grids are untouched; and painting
    over a colour leaves no trace of it. *)
Theorem paint_writes_one_cell (w : World) (p : AvenueAndStreet) (c0 c : RGB) :
  wf w → inside w p →
  ∃ w', World.paint (Rgb c) (Some p) w = (Ok (), w') ∧ wf w'
    ∧ _karel w' = _karel w ∧ _ball_counts w' = _ball_counts w
    ∧ _horizontal_walls w' = _horizontal_walls w
    ∧ _vertical_walls w' = _vertical_walls w
    ∧ World.color_at (Some p) w' = (Ok c, w')
    ∧ (∀ q, inside w q → q ≠ p →
         fst (World.color_at (Some q) w') = fst (World.color_at (Some q) w))
    ∧ (World.paint (Rgb c0) (Some p);; World.paint (Rgb c) (Some p)) w =
        (Ok (), w').
Proof.
  intros Hwf Hin.
  destruct (paint_run w p c Hwf Hin)
    as (w' & Hrun & Hwf' & Hk & Hbc & Hhw & Hvw & Hnew & Hold).
  assert (ER : rows w' = rows w) by (unfold rows; by rewrite Hbc).
  assert (EC : cols w' = cols w) by (unfold cols; by rewrite Hbc).
  assert (Hin' : ∀ q, inside w q → inside w' q).
  { intros q. unfold inside. by rewrite ER, EC. }
  exists w'. split_and!; try done.
  - rewrite color_at_run by auto. by rewrite ER, Hnew.
  - intros q Hq Hne. rewrite !color_at_run by auto. cbn [fst].
    rewrite ER, Hold; [done | destruct Hq; lia..|].
    intros E. by apply Hne, (position_index_inj w).
  - destruct (paint_run w p c0 Hwf Hin)
      as (w1 & Hrun1 & Hwf1 & Hk1 & Hbc1 & Hhw1 & Hvw1 & Hnew1 & Hold1).
    assert (ER1 : rows w1 = rows w) by (unfold rows; by rewrite Hbc1).
    assert (EC1 : cols w1 = cols w) by (unfold cols; by rewrite Hbc1).
    assert (Hin1 : inside w1 p) by (unfold inside; by rewrite ER1, EC1).
    destruct (paint_run w1 p c Hwf1 Hin1)
      as (w2 & Hrun2 & Hwf2 & Hk2 & Hbc2 & Hhw2 & Hvw2 & Hnew2 & Hold2).
    erewrite bind_Ok by exact Hrun1. rewrite Hrun2. f_equal.
    apply world_eq; try congruence.
    assert (ER2 : rows w2 = rows w) by (unfold rows; by rewrite Hbc2, Hbc1).
    assert (EC2 : cols w2 = cols w) by (unfold cols; by rewrite Hbc2, Hbc1).
    apply wf_unfold in Hwf2 as (_ & _ & (_ & _ & _ & Hcs2) & _).
    apply wf_unfold in Hwf' as (_ & _ & (_ & _ & _ & Hcs') & _).
    rewrite ER2, EC2 in Hcs2. rewrite ER, EC in Hcs'.
    apply (grid_ext _ _ _ _ Hcs2 Hcs'). intros i j Hi Hj.
    destruct (decide ((i, j) = (rows w - street p - 1, avenue p)))
      as [[= -> ->]|Hne].
    + rewrite ER1 in Hnew2. by rewrite Hnew2, Hnew.
    + rewrite ER1 in Hold2. rewrite Hold2, Hold1, Hold by (done || lia). done.
Qed.

Lemma paint_writes_one_cell_witness :
  wf world_3x2 ∧ inside world_3x2 (MkAvenueAndStreet 2 1)
  ∧ ∃ w', World.paint (Rgb (MkRGB 0 255 0)) (Some (MkAvenueAndStreet 2 1))
            world_3x2 = (Ok (), w')
      ∧ World.color_at (Some (MkAvenueAndStreet 2 1)) w' =
          (Ok (MkRGB 0 255 0), w').
Proof.
  assert (H1 : wf world_3x2) by reflexivity.
  assert (H2 : inside world_3x2 (MkAvenueAndStreet 2 1)).
  { unfold inside, cols, rows, len. simpl. lia. }
  split_and!; [exact H1 | exact H2 |].
  destruct (paint_writes_one_cell world_3x2 (MkAvenueAndStreet 2 1) white
              (MkRGB 0 255 0) H1 H2)
    as (w' & Hrun & _ & _ & _ & _ & _ & Hread & _).
  exists w'. split; [exact Hrun | exact Hread].
Defined.

(** ** Walls inside the world *)

Lemma set_is_blocked_cells w p d wall :
  wf w → inside w p → leaves (size_of w) p d = false →
  ∃ w', World.set_is_blocked wall (Some p) (Some d) w = (Ok (), w') ∧ wf w'
    ∧ _karel w' = _karel w ∧ _ball_counts w' = _ball_counts w
    ∧ _colors w' = _colors w
    ∧ (if horizontal d
       then _vertical_walls w' = _vertical_walls w
            ∧ stored (_horizontal_walls w') (edge_cell w p d).1
                (edge_cell w p d).2 = Some wall
            ∧ ∀ i j, 0 ≤ i → 0 ≤ j → (i, j) ≠ edge_cell w p d →
                stored (_horizontal_walls w') i j =
                stored (_horizontal_walls w) i j
       else _horizontal_walls w' = _horizontal_walls w
            ∧ stored (_vertical_walls w') (edge_cell w p d).1
                (edge_cell w p d).2 = Some wall
            ∧ ∀ i j, 0 ≤ i → 0 ≤ j → (i, j) ≠ edge_cell w p d →
                stored (_vertical_walls w') i j =
                stored (_vertical_walls w) i j).
Proof.
  intros Hwf Hin Hl. pose proof Hwf as Hwf0.
  apply wf_unfold in Hwf as (HR & HC & (Hbc & Hhw & Hvw & Hcs) & Hnn & Hk).
  assert (Hstay : ¬ match d with
                    | north => street p = rows w - 1
                    | south => street p = 0
                    | east => avenue p = cols w - 1
                    | west => avenue p = 0
                    end).
  { intros E. apply (leaves_spec w p d Hin) in E. congruence. }
  destruct Hin as [Ha Hs].
  assert (Hh : ∀ i j, 0 ≤ i < rows w - 1 → 0 ≤ j < cols w →
    ∃ hw', grid_setitem (_horizontal_walls w) i j wall = Ok hw'
      ∧ wf (with_horizontal_walls (λ _, hw') w)
      ∧ stored hw' i j = Some wall
      ∧ ∀ i' j', 0 ≤ i' → 0 ≤ j' → (i', j') ≠ (i, j) →
          stored hw' i' j' = stored (_horizontal_walls w) i' j').
  { intros i j Hi Hj.
    destruct (grid_setitem_in_shape _ _ _ i j wall Hhw)
      as (hw' & Hset & Hhw' & Hnew & Hold & _); [lia..|].
    exists hw'. split_and!; try done.
    apply wf_unfold. unfold grids_shape. simpl. tauto. }
  assert (Hv : ∀ i j, 0 ≤ i < rows w → 0 ≤ j < cols w - 1 →
    ∃ vw', grid_setitem (_vertical_walls w) i j wall = Ok vw'
      ∧ wf (with_vertical_walls (λ _, vw') w)
      ∧ stored vw' i j = Some wall
      ∧ ∀ i' j', 0 ≤ i' → 0 ≤ j' → (i', j') ≠ (i, j) →
          stored vw' i' j' = stored (_vertical_walls w) i' j').
  { intros i j Hi Hj.
    destruct (grid_setitem_in_shape _ _ _ i j wall Hvw)
      as (vw' & Hset & Hvw' & Hnew & Hold & _); [lia..|].
    exists vw'. split_and!; try done.
    apply wf_unfold. unfold grids_shape. simpl. tauto. }
  destruct d; cbn [horizontal edge_cell fst snd];
    [ destruct (Hh (rows w - street p - 1 - 1) (avenue p))
        as (g' & Hset & Hwf' & Hnew & Hold);
        [lia..|]; exists (with_horizontal_walls (λ _, g') w)
    | destruct (Hh (rows w - street p - 1) (avenue p))
        as (g' & Hset & Hwf' & Hnew & Hold);
        [lia..|]; exists (with_horizontal_walls (λ _, g') w)
    | destruct (Hv (rows w - street p - 1) (avenue p))
        as (g' & Hset & Hwf' & Hnew & Hold);
        [lia..|]; exists (with_vertical_walls (λ _, g') w)
    | destruct (Hv (rows w - street p - 1) (avenue p - 1))
        as (g' & Hset & Hwf' & Hnew & Hold);
        [lia..|]; exists (with_vertical_walls (λ _, g') w) ];
    (split_and!; try done;
     unfold World.set_is_blocked; run; simpl;
     rewrite in_bounds_inside by (split; lia); simpl; run;
     match goal with
     | |- context [ (0 <=? ?k) && (?k <? ?n) ] =>
         destruct (Z.leb_spec 0 k); destruct (Z.ltb_spec k n); simpl;
           try (exfalso; lia)
     end;
     run; erewrite bind_lift_Ok by exact Hset; by run).
Qed.

(** What [is_blocked] reads on an edge that stays inside. *)
Lemma blocked_edge_cell w p d :
  inside w p → leaves (size_of w) p d = false →
  blocked w p d =
    default true
      (stored (if horizontal d then _horizontal_walls w else _vertical_walls w)
         (edge_cell w p d).1 (edge_cell w p d).2)
  ∧ 0 ≤ (edge_cell w p d).1 ∧ 0 ≤ (edge_cell w p d).2.
Proof.
  intros Hin Hl.
  assert (Hstay : ¬ match d with
                    | north => street p = rows w - 1
                    | south => street p = 0
                    | east => avenue p = cols w - 1
                    | west => avenue p = 0
                    end).
  { intros E. apply (leaves_spec w p d Hin) in E. congruence. }
  destruct Hin as [Ha Hs]. unfold blocked. cbv zeta.
  destruct d; cbn [horizontal edge_cell fst snd];
    match goal with
    | |- context [ (0 <=? ?k) && (?k <? ?n) ] =>
        destruct (Z.leb_spec 0 k); destruct (Z.ltb_spec k n); simpl;
          try (exfalso; lia)
    end; (split; [done|lia]).
Qed.

Lemma edge_cell_same_edge w p d q p' d' :
  AvenueAndStreet.valid p → AvenueAndStreet.moved p d = Ok q →
  horizontal d' = horizontal d → edge_cell w p' d' = edge_cell w p d →
  (p', d') = (p, d) ∨ (p', d') = (q, Direction.turned_around d).
Proof.
  intros Hp Hq Hkind Hcell. rewrite moved_cases in Hq by done.
  destruct p as [a s], p' as [a' s']. destruct Hp as [Ha Hs]. simpl in *.
  destruct d, d'; try discriminate Hkind; simpl in Hq, Hcell |- *;
    repeat match type of Hq with
      | context [ ?x =? ?y ] => destruct (Z.eqb_spec x y); [done|]
      end;
    injection Hq as <-; injection Hcell as H1 H2;
    first [ left; do 2 f_equal; lia | right; do 2 f_equal; lia ].
Qed.

(** X16: a wall inside the world has one backing cell.  Setting the wall
    state of the edge between [p] and its neighbour [q] from the side of [p]
    returns; [is_blocked] then answers the state set, asked from [p] or
    asked from [q] the other way; every other edge answers as before; the
    robot, the ball counts and the colours are untouched. *)
Theorem set_is_blocked_one_edge (w : World) (p q : AvenueAndStreet)
    (d : Direction) (wall : bool) :
  wf w → inside w p → AvenueAndStreet.moved p d = Ok q → inside w q →
  ∃ w', World.set_is_blocked wall (Some p) (Some d) w = (Ok (), w') ∧ wf w'
    ∧ _karel w' = _karel w ∧ _ball_counts w' = _ball_counts w
    ∧ _colors w' = _colors w
    ∧ World.is_blocked (Some p) (Some d) w' = (Ok (Some wall), w')
    ∧ World.is_blocked (Some q) (Some (Direction.turned_around d)) w' =
        (Ok (Some wall), w')
    ∧ ∀ p' d', inside w p' → (p', d') ≠ (p, d) →
        (p', d') ≠ (q, Direction.turned_around d) →
        fst (World.is_blocked (Some p') (Some d') w') =
        fst (World.is_blocked (Some p') (Some d') w).
Proof.
  intros Hwf Hp Hq Hqin.
  assert (Hl : leaves (size_of w) p d = false).
  { unfold leaves. rewrite Hq. by rewrite in_bounds_inside. }
  destruct (set_is_blocked_cells w p d wall Hwf Hp Hl)
    as (w' & Hrun & Hwf' & Hk & Hbc & Hcs & Hcells).
  assert (ER : rows w' = rows w) by (unfold rows; by rewrite Hbc).
  assert (EC : cols w' = cols w) by (unfold cols; by rewrite Hbc).
  assert (Hin' : ∀ x, inside w x → inside w' x).
  { intros x. unfold inside. by rewrite ER, EC. }
  assert (Hsz : size_of w' = size_of w) by (unfold size_of; by rewrite ER, EC).
  assert (Hcell' : ∀ x y, edge_cell w' x y = edge_cell w x y).
  { intros x y. unfold edge_cell. by rewrite ER. }
  assert (Hhere : blocked w' p d = wall).
  { destruct (blocked_edge_cell w' p d) as (-> & _); [auto | by rewrite Hsz|].
    rewrite Hcell'. destruct (horizontal d); by destruct Hcells as (_ & -> & _). }
  exists w'. split_and!; try done.
  - rewrite is_blocked_run by auto. by rewrite Hhere.
  - rewrite is_blocked_run by auto.
    by rewrite (blocked_symmetric w' p d q), Hhere by auto.
  - intros p' d' Hp' Hne1 Hne2.
    assert (Hvalid : AvenueAndStreet.valid p) by (destruct Hp; split; lia).
    rewrite !is_blocked_run by auto. cbn [fst]. do 2 f_equal.
    destruct (leaves (size_of w) p' d') eqn:Hl'.
    { rewrite !blocked_leaves; auto. by rewrite Hsz. }
    destruct (blocked_edge_cell w p' d' Hp' Hl') as (-> & Hi & Hj).
    destruct (blocked_edge_cell w' p' d') as (-> & _);
      [auto | by rewrite Hsz|].
    rewrite Hcell'.
    destruct (horizontal d') eqn:Hkind', (horizontal d) eqn:Hkind;
      destruct Hcells as (Hsame & _ & Hold); try by rewrite Hsame.
    + rewrite Hold; [done..|]. intros E. rewrite <- surjective_pairing in E.
      destruct (edge_cell_same_edge w p d q p' d' Hvalid Hq
                  ltac:(congruence) E) as [?|?]; congruence.
    + rewrite Hold; [done..|]. intros E. rewrite <- surjective_pairing in E.
      destruct (edge_cell_same_edge w p d q p' d' Hvalid Hq
                  ltac:(congruence) E) as [?|?]; congruence.
Qed.

Lemma set_is_blocked_one_edge_witness :
  wf world_3x2 ∧ inside world_3x2 (MkAvenueAndStreet 0 0)
  ∧ inside world_3x2 (MkAvenueAndStreet 1 0)
  ∧ ∃ w', World.set_is_blocked true (Some (MkAvenueAndStreet 0 0)) (Some east)
            world_3x2 = (Ok (), w')
      ∧ World.is_blocked (Some (MkAvenueAndStreet 1 0)) (Some west) w' =
          (Ok (Some true), w').
Proof.
  assert (H1 : wf world_3x2) by reflexivity.
  assert (H2 : inside world_3x2 (MkAvenueAndStreet 0 0)).
  { unfold inside, cols, rows, len. simpl. lia. }
  assert (H3 : inside world_3x2 (MkAvenueAndStreet 1 0)).
  { unfold inside, cols, rows, len. simpl. lia. }
  split_and!; [exact H1 | exact H2 | exact H3 |].
  destruct (set_is_blocked_one_edge world_3x2 (MkAvenueAndStreet 0 0)
              (MkAvenueAndStreet 1 0) east true H1 H2 eq_refl H3)
    as (w' & Hrun & _ & _ & _ & _ & _ & Hback & _).
  exists w'. split; [exact Hrun | exact Hback].
Defined.

(** X17: [set_is_clear] is [set_is_blocked] with the state negated, and
    [is_clear] the negation of [is_blocked]: after [set_is_clear(b)] on an
    edge inside the world, [is_clear] answers [b] from both sides of the
    edge. *)
Theorem set_is_clear_then_is_clear (w : World) (p q : AvenueAndStreet)
    (d : Direction) (b : bool) :
  wf w → inside w p → AvenueAndStreet.moved p d = Ok q → inside w q →
  ∃ w', World.set_is_clear b (Some p) (Some d) w = (Ok (), w')
    ∧ World.is_clear (Some p) (Some d) w' = (Ok b, w')
    ∧ World.is_clear (Some q) (Some (Direction.turned_around d)) w' =
        (Ok b, w').
Proof.
  intros Hwf Hp Hq Hqin.
  assert (Hl : leaves (size_of w) p d = false).
  { unfold leaves. rewrite Hq. by rewrite in_bounds_inside. }
  destruct (set_is_blocked_cells w p d (negb b) Hwf Hp Hl)
    as (w' & Hrun & Hwf' & Hk & Hbc & Hcs & Hcells).
  assert (ER : rows w' = rows w) by (unfold rows; by rewrite Hbc).
  assert (EC : cols w' = cols w) by (unfold cols; by rewrite Hbc).
  assert (Hin' : ∀ x, inside w x → inside w' x).
  { intros x. unfold inside. by rewrite ER, EC. }
  assert (Hsz : size_of w' = size_of w) by (unfold size_of; by rewrite ER, EC).
  assert (Hhere : blocked w' p d = negb b).
  { destruct (blocked_edge_cell w' p d) as (-> & _); [auto | by rewrite Hsz|].
    replace (edge_cell w' p d) with (edge_cell w p d)
      by (unfold edge_cell; by rewrite ER).
    destruct (horizontal d); by destruct Hcells as (_ & -> & _). }
  exists w'. split_and!; [exact Hrun|..].
  - rewrite is_clear_run by auto. by rewrite Hhere, negb_involutive.
  - rewrite is_clear_run by auto.
    by rewrite (blocked_symmetric w' p d q), Hhere, negb_involutive by auto.
Qed.

Lemma set_is_clear_then_is_clear_witness :
  wf world_3x2 ∧ inside world_3x2 (MkAvenueAndStreet 1 0)
  ∧ inside world_3x2 (MkAvenueAndStreet 1 1)
  ∧ ∃ w', World.set_is_clear true (Some (MkAvenueAndStreet 1 0)) (Some north)
            world_3x2 = (Ok (), w')
      ∧ World.is_clear (Some (MkAvenueAndStreet 1 1)) (Some south) w' =
          (Ok true, w').
Proof.
  assert (H1 : wf world_3x2) by reflexivity.
  assert (H2 : inside world_3x2 (MkAvenueAndStreet 1 0)).
  { unfold inside, cols, rows, len. simpl. lia. }
  assert (H3 : inside world_3x2 (MkAvenueAndStreet 1 1)).
  { unfold inside, cols, rows, len. simpl. lia. }
  split_and!; [exact H1 | exact H2 | exact H3 |].
  destruct (set_is_clear_then_is_clear world_3x2 (MkAvenueAndStreet 1 0)
              (MkAvenueAndStreet 1 1) north true H1 H2 eq_refl H3)
    as (w' & Hrun & _ & Hback).
  exists w'. split; [exact Hrun | exact Hback].
Defined.

(** ** Growing and shrinking back *)

Lemma resize_grid_back {A} (fill : A) R C (g : list (list A)) dr dc :
  shape R C g → 0 ≤ R → 0 ≤ C → 0 ≤ dr → 0 ≤ dc →
  resize_grid fill (- dr) (- dc) (C + dc) (resize_grid fill dr dc C g) = g.
Proof.
  intros Hg HR HC Hdr Hdc.
  assert (Hg1 : shape (R + dr) (C + dc) (resize_grid fill dr dc C g))
    by (apply shape_resize_grid; done || lia).
  assert (Hg2 : shape R C
            (resize_grid fill (- dr) (- dc) (C + dc)
               (resize_grid fill dr dc C g))).
  { replace R with (R + dr + - dr) at 1 by lia.
    replace C with (C + dc + - dc) at 1 by lia.
    apply shape_resize_grid; done || lia. }
  apply (grid_ext R C); [done..|]. intros i j Hi Hj.
  rewrite (stored_resize_grid_index fill (R + dr) (C + dc)) by (done || lia).
  destruct (Z.leb_spec (- dr) i); [|lia].
  destruct (Z.ltb_spec j (C + dc)); [|lia]. simpl.
  rewrite (stored_resize_grid_index fill R C) by (done || lia).
  destruct (Z.leb_spec dr (i - - dr)); [|lia].
  destruct (Z.ltb_spec j C); [|lia]. simpl.
  f_equal. lia.
Qed.

(** X18: growing a world and shrinking it back loses nothing.  For a
    well-formed world and a new size at least as large in both dimensions,
    setting the new size and then the old size again returns twice and
    leaves the world exactly as it was. *)
Theorem set_size_grow_then_shrink_back (w : World) (new : AvenueAndStreet) :
  wf w → cols w ≤ avenue new → rows w ≤ street new →
  (World.set_size new;; World.set_size (size_of w)) w = (Ok (), w).
Proof.
  intros Hwf Ha Hs. pose proof Hwf as Hwf0.
  apply wf_unfold in Hwf0 as (HR & HC & (Hbc & Hhw & Hvw & Hcs) & _ & Hk).
  destruct Hk as [Hka Hks].
  assert (Hin : AvenueAndStreet._in_bounds new (position (_karel w)) = true).
  { apply in_bounds_true. lia. }
  destruct (set_size_run w new Hwf ltac:(lia) ltac:(lia) Hin)
    as (Hrun & Hwf1 & ER & EC).
  erewrite bind_Ok by exact Hrun.
  assert (Hin1 : AvenueAndStreet._in_bounds (size_of w)
                   (position (_karel (resized new w))) = true).
  { apply in_bounds_true. simpl. lia. }
  destruct (set_size_run (resized new w) (size_of w) Hwf1
              ltac:(simpl; lia) ltac:(simpl; lia) Hin1) as (Hrun1 & _).
  rewrite Hrun1. f_equal.
  unfold resized at 1. cbn [street avenue size_of]. rewrite ER, EC.
  replace (rows w - street new) with (- (street new - rows w)) by lia.
  replace (cols w - avenue new) with (- (avenue new - cols w)) by lia.
  unfold resized. cbn [_karel _ball_counts _horizontal_walls _vertical_walls
    _colors].
  pose proof (resize_grid_back 0 (rows w) (cols w) _ (street new - rows w)
                (avenue new - cols w) Hbc) as Hb.
  pose proof (resize_grid_back false (rows w - 1) (cols w) _
                (street new - rows w) (avenue new - cols w) Hhw) as Hh.
  pose proof (resize_grid_back false (rows w) (cols w - 1) _
                (street new - rows w) (avenue new - cols w) Hvw) as Hv.
  pose proof (resize_grid_back white (rows w) (cols w) _ (street new - rows w)
                (avenue new - cols w) Hcs) as Hc.
  replace (cols w + (avenue new - cols w)) with (avenue new) in Hb, Hh, Hc
    by lia.
  replace (cols w - 1 + (avenue new - cols w)) with (avenue new - 1) in Hv
    by lia.
  rewrite Hb, Hh, Hv, Hc by lia.
  by destruct w.
Qed.

Lemma set_size_grow_then_shrink_back_witness :
  wf world_3x2
  ∧ (World.set_size (MkAvenueAndStreet 5 2);; World.set_size (size_of world_3x2))
      world_3x2 = (Ok (), world_3x2).
Proof.
  assert (H : wf world_3x2) by reflexivity.
  split; [exact H|].
  apply (set_size_grow_then_shrink_back world_3x2 (MkAvenueAndStreet 5 2) H);
    unfold cols, rows, len; simpl; lia.
Defined.

(** ** Assigning a grid, outcome by outcome *)

Lemma set_horizontal_walls_grid_cases w new :
  wf w →
  (∃ e, World.set_horizontal_walls (Some new) w = (Raise e, w))
  ∨ (∃ sz, World.set_horizontal_walls (Some new) w =
             (Ok (), with_horizontal_walls (λ _, new) (resized sz w))
       ∧ wf (with_horizontal_walls (λ _, new) (resized sz w))
       ∧ street sz = len new + 1
       ∧ rows (resized sz w) = street sz).
Proof.
  intros Hwf. unfold World.set_horizontal_walls.
  destruct (_2d_arr_size new) as [[isize jsize]|e] eqn:E; [|left; by eexists].
  apply _2d_arr_size_Ok in E as [Hi Hj].
  erewrite bind_lift_Ok by done. cbv beta iota.
  assert (Hcase : (jsize = None ∧ new = [] ∧ isize = 0)
                  ∨ ∃ j, jsize = Some j ∧ shape isize j new ∧ 1 ≤ isize ∧ 0 ≤ j).
  { destruct jsize as [j|]; [right; by exists j|left].
    subst. by split_and!. }
  destruct Hcase as [(-> & -> & ->)|(j & -> & Hshape & H1 & H0)].
  - run. simpl. rewrite new_valid by (apply wf_unfold in Hwf; lia).
    erewrite bind_lift_Ok by done.
    destruct (set_size_total w (MkAvenueAndStreet (cols w) 1) Hwf)
      as [(Hrun & Hwf' & ER & EC)|[e Hrun]];
      [apply wf_unfold in Hwf; simpl; lia | simpl; lia | |].
    + right. exists (MkAvenueAndStreet (cols w) 1).
      erewrite bind_Ok by exact Hrun. split_and!; try done.
      apply wf_unfold in Hwf' as (HR & HC & (Hbc & _ & Hvw & Hcs) & Hnn & Hk).
      apply wf_unfold. unfold grids_shape, inside in *.
      change (rows (with_horizontal_walls _ ?x)) with (rows x).
      change (cols (with_horizontal_walls _ ?x)) with (cols x).
      simpl in *. split_and!; try tauto.
      rewrite ER. by split.
    + left. exists e. by erewrite bind_Raise by exact Hrun.
  - destruct (Z.eqb_spec isize 0); [lia|]. run.
    rewrite new_valid by lia. erewrite bind_lift_Ok by done.
    destruct (set_size_total w (MkAvenueAndStreet j (isize + 1)) Hwf)
      as [(Hrun & Hwf' & ER & EC)|[e Hrun]]; [simpl; lia..| |].
    + right. exists (MkAvenueAndStreet j (isize + 1)).
      erewrite bind_Ok by exact Hrun. split_and!; try done; [|simpl; lia].
      apply wf_unfold in Hwf' as (HR & HC & (Hbc & _ & Hvw & Hcs) & Hnn & Hk).
      apply wf_unfold. unfold grids_shape, inside in *.
      change (rows (with_horizontal_walls _ ?x)) with (rows x).
      change (cols (with_horizontal_walls _ ?x)) with (cols x).
      simpl in *. split_and!; try tauto.
      rewrite ER, EC. by replace (isize + 1 - 1) with isize by lia.
    + left. exists e. by erewrite bind_Raise by exact Hrun.
Qed.

(** X19: assigning a grid to [horizontal_walls].  In a well-formed world
    the setter either raises and leaves the world as it was, or returns
    with the world resized to one street more than the grid has rows and
    the grid installed; either way the world is well-formed afterwards. *)
Theorem horizontal_walls_assigned (w : World) (new : list (list bool)) :
  wf w →
  wf (snd (World.set_horizontal_walls (Some new) w))
  ∧ (fst (World.set_horizontal_walls (Some new) w) = Ok () →
     _horizontal_walls (snd (World.set_horizontal_walls (Some new) w)) = new
     ∧ rows (snd (World.set_horizontal_walls (Some new) w)) = len new + 1
     ∧ _karel (snd (World.set_horizontal_walls (Some new) w)) = _karel w)
  ∧ (∀ e, fst (World.set_horizontal_walls (Some new) w) = Raise e →
          snd (World.set_horizontal_walls (Some new) w) = w).
Proof.
  intros Hwf.
  destruct (set_horizontal_walls_grid_cases w new Hwf)
    as [[e ->]|(sz & -> & Hwf' & Hsz & ER)]; cbn [fst snd].
  - split_and!; [done | discriminate | done].
  - split_and!; [done | | discriminate].
    intros _. split_and!; [done | | done].
    change (rows (with_horizontal_walls _ ?x)) with (rows x). congruence.
Qed.

Lemma horizontal_walls_assigned_witness :
  wf world_3x2
  ∧ _horizontal_walls
      (snd (World.set_horizontal_walls (Some [[true; false; false]]) world_3x2))
    = [[true; false; false]].
Proof.
  assert (H : wf world_3x2) by reflexivity.
  split; [exact H|].
  pose proof (horizontal_walls_assigned world_3x2 [[true; false; false]] H)
    as (_ & Hok & _).
  exact (proj1 (Hok eq_refl)).
Defined.

Lemma set_vertical_walls_grid_cases w new :
  wf w →
  (∃ e, World.set_vertical_walls (Some new) w = (Raise e, w))
  ∨ (∃ sz, World.set_vertical_walls (Some new) w =
             (Ok (), with_vertical_walls (λ _, new) (resized sz w))
       ∧ wf (with_vertical_walls (λ _, new) (resized sz w))
       ∧ street sz = len new
       ∧ rows (resized sz w) = street sz).
Proof.
  intros Hwf. unfold World.set_vertical_walls.
  destruct (_2d_arr_size new) as [[isize jsize]|e] eqn:E; [|left; by eexists].
  apply _2d_arr_size_Ok in E as [Hi Hj].
  erewrite bind_lift_Ok by done. cbv beta iota.
  destruct jsize as [j|]; [|left; by eexists].
  destruct Hj as (Hshape & H1 & H0).
  destruct (Z.eqb_spec isize 0); [lia|].
  rewrite new_valid by lia. erewrite bind_lift_Ok by done.
  destruct (set_size_total w (MkAvenueAndStreet (j + 1) isize) Hwf)
    as [(Hrun & Hwf' & ER & EC)|[e Hrun]]; [simpl; lia..| |].
  - right. exists (MkAvenueAndStreet (j + 1) isize).
    erewrite bind_Ok by exact Hrun. split_and!; try done.
    apply wf_unfold in Hwf' as (HR & HC & (Hbc & Hhw & _ & Hcs) & Hnn & Hk).
    apply wf_unfold. unfold grids_shape, inside in *.
    change (rows (with_vertical_walls _ ?x)) with (rows x).
    change (cols (with_vertical_walls _ ?x)) with (cols x).
    simpl in *. split_and!; try tauto.
    rewrite ER, EC. by replace (j + 1 - 1) with j by lia.
  - left. exists e. by erewrite bind_Raise by exact Hrun.
Qed.

(** X20: assigning a grid to [vertical_walls].  In a well-formed world the
    setter either raises and leaves the world as it was, or returns with
    the world resized to as many streets as the grid has rows and the grid
    installed; either way the world is well-formed afterwards. *)
Theorem vertical_walls_assigned (w : World) (new : list (list bool)) :
  wf w →
  wf (snd (World.set_vertical_walls (Some new) w))
  ∧ (fst (World.set_vertical_walls (Some new) w) = Ok () →
     _vertical_walls (snd (World.set_vertical_walls (Some new) w)) = new
     ∧ rows (snd (World.set_vertical_walls (Some new) w)) = len new
     ∧ _karel (snd (World.set_vertical_walls (Some new) w)) = _karel w)
  ∧ (∀ e, fst (World.set_vertical_walls (Some new) w) = Raise e →
          snd (World.set_vertical_walls (Some new) w) = w).
Proof.
  intros Hwf.
  destruct (set_vertical_walls_grid_cases w new Hwf)
    as [[e ->]|(sz & -> & Hwf' & Hsz & ER)]; cbn [fst snd].
  - split_and!; [done | discriminate | done].
  - split_and!; [done | | discriminate].
    intros _. split_and!; [done | | done].
    change (rows (with_vertical_walls _ ?x)) with (rows x). congruence.
Qed.

Lemma vertical_walls_assigned_witness :
  wf world_3x2
  ∧ _vertical_walls
      (snd (World.set_vertical_walls (Some [[true]; [false]; [true]]) world_3x2))
    = [[true]; [false]; [true]].
Proof.
  assert (H : wf world_3x2) by reflexivity.
  split; [exact H|].
  pose proof (vertical_walls_assigned world_3x2 [[true]; [false]; [true]] H)
    as (_ & Hok & _).
  apply Hok. reflexivity.
Defined.

Lemma set_colors_grid_cases rgb_call w new :
  wf w →
  (∃ e, World.set_colors rgb_call (Some new) w = (Raise e, w))
  ∨ (∃ sz cs, for_each (for_each (RGB.from_str rgb_call)) new = Ok cs
       ∧ World.set_colors rgb_call (Some new) w =
             (Ok (), with_colors (λ _, cs) (resized sz w))
       ∧ wf (with_colors (λ _, cs) (resized sz w))
       ∧ street sz = len cs
       ∧ rows (resized sz w) = street sz).
Proof.
  intros Hwf. unfold World.set_colors.
  destruct (for_each (for_each (RGB.from_str rgb_call)) new) as [cs|e];
    [|left; by eexists].
  erewrite bind_lift_Ok by done.
  destruct (_2d_arr_size cs) as [[isize jsize]|e] eqn:E; [|left; by eexists].
  apply _2d_arr_size_Ok in E as [Hi Hj].
  erewrite bind_lift_Ok by done. cbv beta iota.
  destruct jsize as [j|]; [|left; by eexists].
  destruct Hj as (Hshape & H1 & H0).
  destruct (Z.eqb_spec isize 0); [lia|].
  destruct (Z.eqb_spec j 0); [left; by eexists|]. simpl.
  rewrite new_valid by lia. erewrite bind_lift_Ok by done.
  destruct (set_size_total w (MkAvenueAndStreet j isize) Hwf)
    as [(Hrun & Hwf' & ER & EC)|[e Hrun]]; [simpl; lia..| |].
  - right. exists (MkAvenueAndStreet j isize), cs.
    erewrite bind_Ok by exact Hrun. split_and!; try done.
    apply wf_unfold in Hwf' as (HR & HC & (Hbc & Hhw & Hvw & _) & Hnn & Hk).
    apply wf_unfold. unfold grids_shape, inside in *.
    change (rows (with_colors _ ?x)) with (rows x).
    change (cols (with_colors _ ?x)) with (cols x).
    simpl in *. split_and!; try tauto.
    by rewrite ER, EC.
  - left. exists e. by erewrite bind_Raise by exact Hrun.
Qed.

(** X21: assigning a grid to [colors].  Every entry is first read by
    [RGB.from_str].  In a well-formed world the setter either raises and
    leaves the world as it was, or returns with the world resized to as
    many streets as the grid has rows and the grid of the colours read
    installed; either way the world is well-formed afterwards. *)
Theorem colors_assigned (rgb_call : string → option (Z * Z * Z))
    (w : World) (new : list (list str_or_RGB)) :
  wf w →
  wf (snd (World.set_colors rgb_call (Some new) w))
  ∧ (fst (World.set_colors rgb_call (Some new) w) = Ok () →
     for_each (for_each (RGB.from_str rgb_call)) new =
       Ok (_colors (snd (World.set_colors rgb_call (Some new) w)))
     ∧ rows (snd (World.set_colors rgb_call (Some new) w)) = len new
     ∧ _karel (snd (World.set_colors rgb_call (Some new) w)) = _karel w)
  ∧ (∀ e, fst (World.set_colors rgb_call (Some new) w) = Raise e →
          snd (World.set_colors rgb_call (Some new) w) = w).
Proof.
  intros Hwf.
  destruct (set_colors_grid_cases rgb_call w new Hwf)
    as [[e ->]|(sz & cs & Hcs & -> & Hwf' & Hsz & ER)]; cbn [fst snd].
  - split_and!; [done | discriminate | done].
  - split_and!; [done | | discriminate].
    intros _. split_and!; [done | | done].
    change (rows (with_colors _ ?x)) with (rows x).
    rewrite ER, Hsz. clear -Hcs.
    assert (Hlen : ∀ {A B} (f : A → result B) l l',
               for_each f l = Ok l' → len l' = len l).
    { intros A B f l. induction l as [|x l IH]; intros l' Hl; simpl in Hl.
      - by injection Hl as <-.
      - destruct (f x); [|done]. simpl in Hl.
        destruct (for_each f l) as [l''|]; [|done]. simpl in Hl.
        injection Hl as <-. specialize (IH _ eq_refl).
        unfold len in *. simpl. lia. }
    by apply Hlen in Hcs.
Qed.

Lemma colors_assigned_witness :
  wf world_3x2
  ∧ rows (snd (World.set_colors no_rgb_call
                 (Some [[Str "red"; Str "#00f"]]) world_3x2))
    = len [[Str "red"; Str "#00f"]].
Proof.
  assert (H : wf world_3x2) by reflexivity.
  split; [exact H|].
  pose proof (colors_assigned no_rgb_call world_3x2
                [[Str "red"; Str "#00f"]] H) as (_ & Hok & _).
  exact (proj1 (proj2 (Hok eq_refl))).
Defined.

Lemma set_ball_counts_grid_cases w new :
  wf w → Forall (Forall (λ n, 0 ≤ n)) new →
  (∃ e, World.set_ball_counts (Some new) w = (Raise e, w))
  ∨ (∃ sz, World.set_ball_counts (Some new) w =
             (Ok (), with_ball_counts (λ _, new) (resized sz w))
       ∧ wf (with_ball_counts (λ _, new) (resized sz w))).
Proof.
  intros Hwf Hnew. unfold World.set_ball_counts.
  destruct (_2d_arr_size new) as [[isize jsize]|e] eqn:E; [|left; by eexists].
  apply _2d_arr_size_Ok in E as [Hi Hj].
  erewrite bind_lift_Ok by done. cbv beta iota.
  destruct jsize as [j|]; [|left; by eexists].
  destruct Hj as (Hshape & H1 & H0).
  destruct (Z.eqb_spec isize 0); [lia|].
  destruct (Z.eqb_spec j 0); [left; by eexists|]. simpl.
  rewrite new_valid by lia. erewrite bind_lift_Ok by done.
  destruct (set_size_total w (MkAvenueAndStreet j isize) Hwf)
    as [(Hrun & Hwf' & ER & EC)|[e Hrun]]; [simpl; lia..| |].
  - right. exists (MkAvenueAndStreet j isize).
    erewrite bind_Ok by exact Hrun. split; [done|]. simpl in ER, EC.
    apply wf_with_ball_counts; [done| |done]. by rewrite ER, EC.
  - left. exists e. by erewrite bind_Raise by exact Hrun.
Qed.

(** X22: assigning a grid to [ball_counts].  When no entry of the grid is
    negative, the setter in a well-formed world either raises and leaves
    the world as it was, or returns with the grid installed, the world
    having as many streets as the grid has rows and the robot where it
    was; either way the world is well-formed afterwards. *)
Theorem ball_counts_assigned (w : World) (new : list (list Z)) :
  wf w → Forall (Forall (λ n, 0 ≤ n)) new →
  wf (snd (World.set_ball_counts (Some new) w))
  ∧ (fst (World.set_ball_counts (Some new) w) = Ok () →
     _ball_counts (snd (World.set_ball_counts (Some new) w)) = new
     ∧ rows (snd (World.set_ball_counts (Some new) w)) = len new
     ∧ _karel (snd (World.set_ball_counts (Some new) w)) = _karel w)
  ∧ (∀ e, fst (World.set_ball_counts (Some new) w) = Raise e →
          snd (World.set_ball_counts (Some new) w) = w).
Proof.
  intros Hwf Hnew.
  destruct (set_ball_counts_grid_cases w new Hwf Hnew)
    as [[e ->]|(sz & -> & Hwf')]; cbn [fst snd].
  - split_and!; [done | discriminate | done].
  - split_and!; [done | | discriminate].
    intros _. by split_and!.
Qed.

Lemma ball_counts_assigned_witness :
  wf world_3x2
  ∧ Forall (Forall (λ n, 0 ≤ n)) [[4; 0]; [0; 1]]
  ∧ _ball_counts (snd (World.set_ball_counts (Some [[4; 0]; [0; 1]]) world_3x2))
    = [[4; 0]; [0; 1]].
Proof.
  assert (H : wf world_3x2) by reflexivity.
  assert (Hnn : Forall (Forall (λ n, 0 ≤ n)) [[4; 0]; [0; 1]]).
  { repeat constructor; lia. }
  split_and!; [exact H | exact Hnn |].
  pose proof (ball_counts_assigned world_3x2 [[4; 0]; [0; 1]] H Hnn)
    as (_ & Hok & _).
  exact (proj1 (Hok eq_refl)).
Defined.

(** ** Resetting a grid with [None] *)

Lemma len_py_repeat {A} (x : A) (n : Z) : 0 ≤ n → len (py_repeat x n) = n.
Proof. intros Hn. unfold len, py_repeat. rewrite length_replicate. lia. Qed.

Lemma shape_py_repeat {A} (x : A) (R C r c : Z) :
  0 ≤ r → 0 ≤ c →
  shape R C (py_repeat (py_repeat x c) r) ↔ R = r ∧ (r = 0 ∨ C = c).
Proof.
  intros Hr Hc. unfold shape. rewrite len_py_repeat by done.
  unfold py_repeat at 1.
  destruct (Z.to_nat r) as [|n] eqn:E; simpl.
  - split; [intros [-> _]; split; [done|lia]|intros [-> _]; by split].
  - rewrite Forall_cons, len_py_repeat by done. split.
    + intros (-> & -> & _). by split; [|right].
    + intros (-> & [ ? | -> ]); [lia|]. split_and!; try done.
      apply Forall_replicate. by apply len_py_repeat.
Qed.

(** X23: the [None] branch of the four grid setters builds its default grid
    with the two dimensions exchanged.  In a well-formed world each of them
    returns, and the world it leaves is well-formed exactly when the world
    has as many streets as avenues. *)
Theorem set_None_wf_iff_square (rgb_call : string → option (Z * Z * Z))
    (w : World) :
  wf w →
  (fst (World.set_ball_counts None w) = Ok ()
   ∧ (wf (snd (World.set_ball_counts None w)) ↔ rows w = cols w))
  ∧ (fst (World.set_horizontal_walls None w) = Ok ()
     ∧ (wf (snd (World.set_horizontal_walls None w)) ↔ rows w = cols w))
  ∧ (fst (World.set_vertical_walls None w) = Ok ()
     ∧ (wf (snd (World.set_vertical_walls None w)) ↔ rows w = cols w))
  ∧ (fst (World.set_colors rgb_call None w) = Ok ()
     ∧ (wf (snd (World.set_colors rgb_call None w)) ↔ rows w = cols w)).
Proof.
  intros Hwf. pose proof Hwf as Hwf0.
  apply wf_unfold in Hwf as (HR & HC & (Hbc & Hhw & Hvw & Hcs) & Hnn & Hk).
  unfold World.set_ball_counts, World.set_horizontal_walls,
    World.set_vertical_walls, World.set_colors.
  rewrite !(bind_Ok World.size _ w (size_of w) w) by (by apply size_run).
  unfold assign, size_of. cbn [fst snd avenue street].
  split_and!; try done.
  - set (w' := with_ball_counts _ w).
    assert (Hbc' : shape (cols w) (rows w) (_ball_counts w'))
      by (apply shape_py_repeat; [lia..|by split; [|right]]).
    destruct (rows_cols_of_shape w' _ _ Hbc' HC) as [ER EC].
    rewrite wf_unfold. unfold grids_shape, inside. rewrite ER, EC.
    change (_horizontal_walls w') with (_horizontal_walls w).
    change (_vertical_walls w') with (_vertical_walls w).
    change (_colors w') with (_colors w).
    change (_karel w') with (_karel w).
    split.
    + intros (_ & _ & (_ & _ & _ & [Hl _]) & _). destruct Hcs as [Hl' _]. lia.
    + intros E. unfold inside in Hk.
      rewrite E in Hhw, Hvw, Hcs, Hk, Hbc' |- *.
      split_and!; try done; try lia.
      subst w'. simpl. apply Forall_replicate, Forall_replicate. lia.
  - set (w' := with_horizontal_walls _ w).
    rewrite wf_unfold. unfold grids_shape.
    change (rows w') with (rows w). change (cols w') with (cols w).
    change (inside w' ?p) with (inside w p).
    change (_ball_counts w') with (_ball_counts w).
    change (_vertical_walls w') with (_vertical_walls w).
    change (_colors w') with (_colors w).
    change (_karel w') with (_karel w).
    subst w'. cbn [_horizontal_walls with_horizontal_walls].
    rewrite shape_py_repeat by lia. split.
    + intros (_ & _ & (_ & [? _] & _) & _). lia.
    + intros E. split_and!; try done; try lia.
  - set (w' := with_vertical_walls _ w).
    rewrite wf_unfold. unfold grids_shape.
    change (rows w') with (rows w). change (cols w') with (cols w).
    change (inside w' ?p) with (inside w p).
    change (_ball_counts w') with (_ball_counts w).
    change (_horizontal_walls w') with (_horizontal_walls w).
    change (_colors w') with (_colors w).
    change (_karel w') with (_karel w).
    subst w'. cbn [_vertical_walls with_vertical_walls].
    rewrite shape_py_repeat by lia. split.
    + intros (_ & _ & (_ & _ & [? _] & _) & _). lia.
    + intros E. split_and!; try done; try lia.
  - set (w' := with_colors _ w).
    rewrite wf_unfold. unfold grids_shape.
    change (rows w') with (rows w). change (cols w') with (cols w).
    change (inside w' ?p) with (inside w p).
    change (_ball_counts w') with (_ball_counts w).
    change (_horizontal_walls w') with (_horizontal_walls w).
    change (_vertical_walls w') with (_vertical_walls w).
    change (_karel w') with (_karel w).
    subst w'. cbn [_colors with_colors].
    rewrite shape_py_repeat by lia. split.
    + intros (_ & _ & (_ & _ & _ & [? _]) & _). lia.
    + intros E. split_and!; try done; try lia.
Qed.

Lemma set_None_wf_iff_square_witness :
  wf world_3x2
  ∧ ¬ wf (snd (World.set_vertical_walls None world_3x2)).
Proof.
  assert (H : wf world_3x2) by reflexivity.
  split; [exact H|].
  pose proof (set_None_wf_iff_square no_rgb_call world_3x2 H)
    as (_ & _ & (_ & Hv) & _).
  intros Hwf. apply Hv in Hwf. vm_compute in Hwf. discriminate Hwf.
Defined.

(** ** Turning and stepping, composed *)

Lemma with_karel_with_karel k k' w :
  with_karel k (with_karel k' w) = with_karel k w.
Proof. reflexivity. Qed.

Lemma with_karel_same w : with_karel (_karel w) w = w.
Proof. by destruct w. Qed.

Lemma wf_with_karel w k :
  wf w → inside w (position k) → wf (with_karel k w).
Proof. intros Hwf Hin. by apply set_karel_run. Qed.

Lemma wf_turned w d :
  wf w → wf (with_karel (Karel.turned (_karel w) d) w).
Proof. intros Hwf. apply wf_with_karel; eauto with karel. Qed.

Lemma turned_turned k d d' :
  Karel.turned (Karel.turned k d) d' = Karel.turned k d'.
Proof. reflexivity. Qed.

Lemma turned_same k : Karel.turned k (direction k) = k.
Proof. by destruct k. Qed.

(** A turn in a world whose robot was turned to face [d]. *)
Lemma turn_after_turned (m : M unit) (f : Direction → Direction) w d :
  (∀ w, wf w →
     m w = (Ok (), with_karel (Karel.turned (_karel w) (f (direction (_karel w)))) w)) →
  wf w →
  m (with_karel (Karel.turned (_karel w) d) w) =
    (Ok (), with_karel (Karel.turned (_karel w) (f d)) w).
Proof. intros Hm Hwf. by rewrite Hm by (by apply wf_turned). Qed.

Lemma turn_anywhere w :
  with_karel (Karel.turned (_karel w) (direction (_karel w))) w = w.
Proof. by rewrite turned_same, with_karel_same. Qed.

(** X24: the turns compose as rotations do.  In a well-formed world a left
    turn followed by a right turn, a right turn followed by a left turn, two
    turns around, and four left turns all return and leave the world
    exactly as it was; two left turns, and two right turns, do what
    [turn_around] does; three left turns do what [turn_right] does. *)
Theorem turns_compose (w : World) :
  wf w →
  (World.turn_left;; World.turn_right) w = (Ok (), w)
  ∧ (World.turn_right;; World.turn_left) w = (Ok (), w)
  ∧ (World.turn_around;; World.turn_around) w = (Ok (), w)
  ∧ (World.turn_left;; World.turn_left;; World.turn_left;; World.turn_left) w
    = (Ok (), w)
  ∧ (World.turn_left;; World.turn_left) w = World.turn_around w
  ∧ (World.turn_right;; World.turn_right) w = World.turn_around w
  ∧ (World.turn_left;; World.turn_left;; World.turn_left) w
    = World.turn_right w.
Proof.
  intros Hwf.
  pose proof (λ d, turn_after_turned _ _ w d turn_left_run Hwf) as HL.
  pose proof (λ d, turn_after_turned _ _ w d turn_right_run Hwf) as HR.
  pose proof (λ d, turn_after_turned _ _ w d turn_around_run Hwf) as HA.
  rewrite (turn_right_run w), (turn_around_run w) by done.
  split_and!;
    (first [ erewrite bind_Ok by (by apply turn_left_run)
           | erewrite bind_Ok by (by apply turn_right_run)
           | erewrite bind_Ok by (by apply turn_around_run) ]);
    unfold Karel.turned_left, Karel.turned_right, Karel.turned_around;
    repeat first [ erewrite bind_Ok by apply HL
                 | erewrite bind_Ok by apply HR
                 | erewrite bind_Ok by apply HA ];
    rewrite ?HL, ?HR, ?HA;
    destruct (direction (_karel w)) eqn:E;
    cbn [Direction.turned_left Direction.turned_right Direction.turned_around];
    try reflexivity; rewrite <- E; by rewrite turn_anywhere.
Qed.

Lemma turns_compose_witness :
  wf world_3x2
  ∧ (World.turn_left;; World.turn_right) world_3x2 = (Ok (), world_3x2).
Proof.
  assert (H : wf world_3x2) by reflexivity.
  split; [exact H|].
  exact (proj1 (turns_compose world_3x2 H)).
Defined.

Lemma move_run w q :
  wf w →
  blocked w (position (_karel w)) (direction (_karel w)) = false →
  AvenueAndStreet.moved (position (_karel w)) (direction (_karel w)) = Ok q →
  inside w q →
  World.move w = (Ok (), with_karel (MkKarel q (direction (_karel w))) w).
Proof.
  intros Hwf Hb Hq Hin. pose proof (front_is_blocked_run w Hwf) as Hfront.
  unfold World.move. run. rewrite Hb. simpl. run.
  unfold Karel.moved. rewrite Hq. simpl.
  rewrite bind_lift_Ok
    with (a := MkKarel q (direction (_karel w))) by done.
  by apply set_karel_run.
Qed.

Lemma front_is_clear_run w :
  wf w →
  World.front_is_clear w =
    (Ok (negb (blocked w (position (_karel w)) (direction (_karel w)))), w).
Proof.
  intros Hwf. unfold World.front_is_clear.
  rewrite is_clear_default. simpl. apply is_clear_run; eauto with karel.
Qed.

(** X25: a step is undone by turning around, stepping, and turning around
    again.  In a well-formed world where [front_is_clear] answers [True],
    [move], [turn_around], [move], [turn_around] all return and the world
    is exactly as it was: the wall that was not in the way forward is not
    in the way back. *)
Theorem move_there_and_back (w : World) :
  wf w → World.front_is_clear w = (Ok true, w) →
  (World.move;; World.turn_around;; World.move;; World.turn_around) w
  = (Ok (), w).
Proof.
  intros Hwf Hclear.
  rewrite front_is_clear_run in Hclear by done.
  injection Hclear as Hb. apply negb_true_iff in Hb.
  pose proof (wf_inside_karel w Hwf) as Hin.
  set (p := position (_karel w)) in *. set (d := direction (_karel w)) in *.
  destruct (leaves (size_of w) p d) eqn:Hl.
  { by rewrite (blocked_leaves w p d Hin Hl) in Hb. }
  destruct (stays_moved w p d Hin Hl) as (q & Hq & Hinq).
  assert (Hvalid : AvenueAndStreet.valid p).
  { destruct Hin as [? ?]. unfold AvenueAndStreet.valid. lia. }
  pose proof (moved_back p d q Hvalid Hq) as Hback.
  pose proof (blocked_symmetric w p d q Hin Hq Hinq) as Hsym.
  assert (Hwf1 : wf (with_karel (MkKarel q d) w)) by (by apply wf_with_karel).
  assert (Hwf2 : wf (with_karel (MkKarel q (Direction.turned_around d)) w))
    by (by apply wf_with_karel).
  assert (Hwf3 : wf (with_karel (MkKarel p (Direction.turned_around d)) w))
    by (by apply wf_with_karel).
  erewrite bind_Ok by (by apply (move_run w q)).
  erewrite bind_Ok by (by apply turn_around_run).
  change (with_karel (Karel.turned_around (_karel (with_karel ?k w))) _)
    with (with_karel (MkKarel q (Direction.turned_around d)) w).
  erewrite bind_Ok; cycle 1.
  { apply (move_run _ p); try done. by rewrite <- Hb, <- Hsym. }
  rewrite turn_around_run by done.
  change (with_karel (Karel.turned_around _) _)
    with (with_karel (MkKarel p (Direction.turned_around
                                   (Direction.turned_around d))) w).
  f_equal. subst p d. destruct w as [[kp kd] ? ? ? ?]. simpl.
  by destruct kd.
Qed.

Lemma move_there_and_back_witness :
  wf (with_karel default_karel world_2x1)
  ∧ World.front_is_clear (with_karel default_karel world_2x1)
    = (Ok true, with_karel default_karel world_2x1)
  ∧ (World.move;; World.turn_around;; World.move;; World.turn_around)
      (with_karel default_karel world_2x1)
    = (Ok (), with_karel default_karel world_2x1).
Proof.
  assert (H : wf (with_karel default_karel world_2x1)) by reflexivity.
  assert (Hc : World.front_is_clear (with_karel default_karel world_2x1)
               = (Ok true, with_karel default_karel world_2x1))
    by reflexivity.
  split_and!; [exact H | exact Hc |].
  exact (move_there_and_back (with_karel default_karel world_2x1) H Hc).
Defined.

Lemma side_is_clear_run w (f : Direction → Direction) :
  wf w →
  (k ← World.karel; World.is_clear None (Some (f (direction k)))) w =
    (Ok (negb (blocked w (position (_karel w)) (f (direction (_karel w))))), w).
Proof.
  intros Hwf. run. rewrite is_clear_default. simpl.
  apply is_clear_run; eauto with karel.
Qed.

(** X26: turning the robot turns what it sees.  In a well-formed world the
    three sight queries return a boolean and leave the world alone; after
    [turn_left], [right_is_clear] answers what [front_is_clear] answered
    before and [front_is_clear] what [left_is_clear] answered; after
    [turn_right], [left_is_clear] answers what [front_is_clear] answered
    before and [front_is_clear] what [right_is_clear] answered. *)
Theorem turning_turns_the_view (w : World) :
  wf w →
  ∃ ahead left right,
    World.front_is_clear w = (Ok ahead, w)
    ∧ World.left_is_clear w = (Ok left, w)
    ∧ World.right_is_clear w = (Ok right, w)
    ∧ fst ((World.turn_left;; World.right_is_clear) w) = Ok ahead
    ∧ fst ((World.turn_right;; World.left_is_clear) w) = Ok ahead
    ∧ fst ((World.turn_left;; World.front_is_clear) w) = Ok left
    ∧ fst ((World.turn_right;; World.front_is_clear) w) = Ok right.
Proof.
  intros Hwf.
  pose proof (wf_turned w (Direction.turned_left (direction (_karel w))) Hwf)
    as HwfL.
  pose proof (wf_turned w (Direction.turned_right (direction (_karel w))) Hwf)
    as HwfR.
  eexists _, _, _. split_and!.
  - by apply front_is_clear_run.
  - by apply (side_is_clear_run w Direction.turned_left).
  - by apply (side_is_clear_run w Direction.turned_right).
  - erewrite bind_Ok by (by apply turn_left_run).
    unfold World.right_is_clear, Karel.turned_left.
    rewrite side_is_clear_run by done. simpl.
    by rewrite turned_left_right.
  - erewrite bind_Ok by (by apply turn_right_run).
    unfold World.left_is_clear, Karel.turned_right.
    rewrite side_is_clear_run by done. simpl.
    by destruct (direction (_karel w)).
  - erewrite bind_Ok by (by apply turn_left_run).
    unfold Karel.turned_left. by rewrite front_is_clear_run by done.
  - erewrite bind_Ok by (by apply turn_right_run).
    unfold Karel.turned_right. by rewrite front_is_clear_run by done.
Qed.

Lemma turning_turns_the_view_witness :
  wf world_3x2
  ∧ fst ((World.turn_left;; World.right_is_clear) world_3x2)
    = fst (World.front_is_clear world_3x2).
Proof.
  assert (H : wf world_3x2) by reflexivity.
  split; [exact H|].
  destruct (turning_turns_the_view world_3x2 H)
    as (ahead & left & right & Hf & _ & _ & Hl & _).
  rewrite Hf. exact Hl.
Defined.

(** ** Placing and rotating the robot *)

(** X27: [move_karel] and [rotate_karel].  In a well-formed world
    [move_karel] to a position with no negative coordinate returns exactly
    when the position is inside the world, whatever walls lie between, and
    then only the robot's position has changed; for a position outside it
    raises a [ValueError] and changes nothing.  [rotate_karel] always
    returns and changes only the robot's direction.  Both leave the world
    well-formed. *)
Theorem move_karel_rotate_karel (w : World) (p : AvenueAndStreet)
    (d : Direction) :
  wf w → AvenueAndStreet.valid p →
  (AvenueAndStreet._in_bounds (size_of w) p = true →
     World.move_karel p w =
       (Ok (), with_karel (MkKarel p (direction (_karel w))) w))
  ∧ (AvenueAndStreet._in_bounds (size_of w) p = false →
     World.move_karel p w =
       (Raise (ValueError "Karel's new position ({position}) out of range (size={self.size})"),
        w))
  ∧ World.rotate_karel d w =
      (Ok (), with_karel (MkKarel (position (_karel w)) d) w)
  ∧ wf (snd (World.move_karel p w))
  ∧ wf (snd (World.rotate_karel d w)).
Proof.
  intros Hwf [Hpa Hps].
  assert (Hin : AvenueAndStreet._in_bounds (size_of w) p = true →
                World.move_karel p w =
                  (Ok (), with_karel (MkKarel p (direction (_karel w))) w)).
  { intros Hp. unfold World.move_karel. run. unfold World.set_karel. run.
    simpl. by rewrite Hp. }
  assert (Hout : AvenueAndStreet._in_bounds (size_of w) p = false →
                 World.move_karel p w =
                   (Raise (ValueError "Karel's new position ({position}) out of range (size={self.size})"),
                    w)).
  { intros Hp. unfold World.move_karel. run. by apply set_karel_outside. }
  assert (Hrot : World.rotate_karel d w =
                   (Ok (), with_karel (MkKarel (position (_karel w)) d) w)).
  { unfold World.rotate_karel. run. apply set_karel_run; eauto with karel. }
  split_and!; try done.
  - destruct (AvenueAndStreet._in_bounds (size_of w) p) eqn:Hp.
    + rewrite Hin by done. apply wf_with_karel; [done|].
      apply in_bounds_size_of in Hp. unfold inside. simpl. lia.
    + by rewrite Hout.
  - rewrite Hrot. apply wf_with_karel; eauto with karel.
Qed.

Lemma move_karel_rotate_karel_witness :
  wf world_3x2
  ∧ AvenueAndStreet.valid (MkAvenueAndStreet 2 1)
  ∧ World.move_karel (MkAvenueAndStreet 2 1) world_3x2 =
      (Ok (), with_karel (MkKarel (MkAvenueAndStreet 2 1) north) world_3x2).
Proof.
  assert (H : wf world_3x2) by reflexivity.
  assert (Hv : AvenueAndStreet.valid (MkAvenueAndStreet 2 1)).
  { unfold AvenueAndStreet.valid. simpl. lia. }
  split_and!; [exact H | exact Hv |].
  exact (proj1 (move_karel_rotate_karel world_3x2 (MkAvenueAndStreet 2 1)
                  north H Hv) eq_refl).
Defined.

(** ** Painting and asking *)

(** X28: [color_is] after [paint].  In a well-formed world, painting the
    robot's cell with a colour value and then asking [color_is] with
    anything [RGB.from_str] reads as a colour answers whether the two
    colours agree channel by channel: text is compared by the colour it
    names, not by its spelling. *)
Theorem paint_then_color_is (rgb_call : string → option (Z * Z * Z))
    (w : World) (c : RGB) (asked : str_or_RGB) (c' : RGB) :
  wf w → RGB.from_str rgb_call asked = Ok c' →
  fst ((World.paint (Rgb c) None;; World.color_is rgb_call asked) w)
  = Ok (bool_decide (c = c')).
Proof.
  intros Hwf Hasked. pose proof (wf_inside_karel w Hwf) as Hin.
  destruct (paint_run w (position (_karel w)) c Hwf Hin)
    as (w' & Hpaint & Hwf' & Hk & Hbc & _ & _ & Hnew & _).
  rewrite <- paint_default in Hpaint.
  erewrite bind_Ok by exact Hpaint.
  assert (Hat : World.color_at None w' = (Ok c, w')).
  { rewrite color_at_default, color_at_run by eauto with karel.
    assert (ER : rows w' = rows w) by (unfold rows; by rewrite Hbc).
    by rewrite ER, Hk, Hnew. }
  unfold World.color_is. erewrite bind_Ok by exact Hat.
  by erewrite bind_lift_Ok by exact Hasked.
Qed.

Lemma paint_then_color_is_witness :
  wf world_3x2
  ∧ RGB.from_str no_rgb_call (Str "RED") = Ok (MkRGB 255 0 0)
  ∧ fst ((World.paint (Rgb (MkRGB 255 0 0)) None;;
          World.color_is no_rgb_call (Str "RED")) world_3x2)
    = Ok true.
Proof.
  assert (H : wf world_3x2) by reflexivity.
  assert (Hs : RGB.from_str no_rgb_call (Str "RED") = Ok (MkRGB 255 0 0))
    by reflexivity.
  split_and!; [exact H | exact Hs |].
  exact (paint_then_color_is no_rgb_call world_3x2 (MkRGB 255 0 0)
           (Str "RED") (MkRGB 255 0 0) H Hs).
Defined.

(** ** A wall in front of the robot *)

(** X29: the wall in front of the robot decides [move].  In a well-formed
    world whose robot has the cell [q] in front of it inside the world,
    [set_is_blocked(wall)] for the robot's own edge returns; after
    [set_is_blocked(True)] a [move] raises the "into a wall" [ValueError]
    and the robot stays, after [set_is_blocked(False)] a [move] returns
    with the robot on [q], facing as before. *)
Theorem wall_in_front_decides_move (w : World) (q : AvenueAndStreet) :
  wf w →
  AvenueAndStreet.moved (position (_karel w)) (direction (_karel w)) = Ok q →
  inside w q →
  (∃ w', World.set_is_blocked true None None w = (Ok (), w')
     ∧ World.move w' =
         (Raise (ValueError "Tried to move Karel ({self.karel}) into a wall"), w'))
  ∧ (∃ w', World.set_is_blocked false None None w = (Ok (), w')
       ∧ World.move w' =
           (Ok (), with_karel (MkKarel q (direction (_karel w))) w')).
Proof.
  intros Hwf Hq Hqin. pose proof (wf_inside_karel w Hwf) as Hin.
  assert (Hl : leaves (size_of w) (position (_karel w)) (direction (_karel w))
               = false).
  { unfold leaves. rewrite Hq. by rewrite in_bounds_inside. }
  assert (Hset : ∀ wall, ∃ w',
            World.set_is_blocked wall None None w = (Ok (), w') ∧ wf w'
            ∧ _karel w' = _karel w ∧ inside w' q
            ∧ blocked w' (position (_karel w')) (direction (_karel w')) = wall).
  { intros wall.
    destruct (set_is_blocked_run w _ _ wall Hwf Hin Hl)
      as (w' & Hrun & Hwf' & Hk & Hbc & _ & Hb).
    exists w'. rewrite set_is_blocked_default. simpl.
    split_and!; try done.
    - unfold inside, rows, cols. by rewrite Hbc.
    - by rewrite Hk. }
  split.
  - destruct (Hset true) as (w' & Hrun & Hwf' & Hk & _ & Hb).
    exists w'. split; [done|].
    pose proof (front_is_blocked_run w' Hwf') as Hfront.
    unfold World.move. run. by rewrite Hb.
  - destruct (Hset false) as (w' & Hrun & Hwf' & Hk & Hqin' & Hb).
    exists w'. split; [done|].
    rewrite <- Hk. apply move_run; try done. by rewrite Hk.
Qed.

Lemma wall_in_front_decides_move_witness :
  wf world_3x2
  ∧ inside world_3x2 (MkAvenueAndStreet 1 1)
  ∧ ∃ w', World.set_is_blocked false None None world_3x2 = (Ok (), w')
      ∧ World.move w' =
          (Ok (), with_karel (MkKarel (MkAvenueAndStreet 1 1) north) w').
Proof.
  assert (H : wf world_3x2) by reflexivity.
  assert (Hq : inside world_3x2 (MkAvenueAndStreet 1 1)).
  { unfold inside, cols, rows, len. simpl. lia. }
  split_and!; [exact H | exact Hq |].
  exact (proj2 (wall_in_front_decides_move world_3x2 (MkAvenueAndStreet 1 1)
                  H eq_refl Hq)).
Defined.
